(** * openconnect-gp-okta: the login state machine and the process supervisor

    A shallow embedding of [openconnect_gp_okta.py].  Python values keep
    their shape: JSON documents are a tree type, a [dict] is an
    insertion-ordered association list, an lxml element is a tag with
    attributes, text and children.  Effects (HTTP exchanges, prompts,
    signal-mask changes, the child process) are threaded through a state
    and exception monad over an explicit [world]; everything outside the
    program (the servers, the terminal, library codecs, the child) is a
    field of the environment record [Env]. *)

From stdpp Require Import base strings list gmap.
From Stdlib Require Import ZArith Lia Sorted.

Set Warnings "-register-all".

Local Open Scope string_scope.
Local Open Scope list_scope.
Local Open Scope Z_scope.

(* ===================================================================== *)
(** ** Python values *)
(* ===================================================================== *)

(** The result of [json.loads]. *)
Inductive json : Type :=
| JNull
| JBool (b : bool)
| JNum (n : Z)
| JStr (s : string)
| JArr (items : list json)
| JObj (members : list (string * json)).

(** An lxml element: [tag], [attrib], [text] and the child elements in
    document order. *)
Inductive element : Type :=
| Element (tag : string) (attrib : list (string * string))
          (text : option string) (children : list element).

Definition tag (e : element) : string :=
  match e with Element t _ _ _ => t end.
Definition attrib (e : element) : list (string * string) :=
  match e with Element _ a _ _ => a end.
Definition text (e : element) : option string :=
  match e with Element _ _ t _ => t end.
Definition children (e : element) : list element :=
  match e with Element _ _ _ c => c end.

(** The exceptions the program can raise.  [Exception msg] is the bare
    [Exception] of [okta_auth]; [HTTPError] is what [raise_for_status]
    raises; [SystemExit] is [sys.exit]. *)
Inductive exn : Type :=
| HTTPError (status : Z)
| KeyError (key : string)
| TypeError
| AttributeError
| AssertionError
| ValueError
| XMLSyntaxError
| Exception (msg : string)
| SystemExit (code : option Z).

(* ===================================================================== *)
(** ** Dictionaries *)
(* ===================================================================== *)

Module Dict.
Section Dict.
Context {V : Type}.

(** A Python [dict] with string keys: bindings in insertion order, keys
    pairwise distinct. *)
Definition t : Type := list (string * V).

Fixpoint get (k : string) (d : t) : option V :=
  match d with
  | [] => None
  | (k', v) :: rest => if String.eqb k k' then Some v else get k rest
  end.

(** [d[k] = v]: an existing key keeps its position and takes the new
    value, a new key goes to the end. *)
Fixpoint set (k : string) (v : V) (d : t) : t :=
  match d with
  | [] => [(k, v)]
  | (k', v') :: rest =>
      if String.eqb k k' then (k', v) :: rest else (k', v') :: set k v rest
  end.

(** [{k: v for (k, v) in items}] and [dict(items)]. *)
Definition of_items (items : list (string * V)) : t :=
  fold_left (fun d kv => set (fst kv) (snd kv) d) items [].

(** [{**d, k: v}]. *)
Definition merge1 (d : t) (k : string) (v : V) : t := set k v d.

Definition mem (k : string) (d : t) : bool :=
  match get k d with Some _ => true | None => false end.

(** The finite map a dictionary denotes. *)
Definition to_gmap (d : t) : gmap string V := list_to_map d.
End Dict.
Arguments t : clear implicits.
End Dict.

(* ===================================================================== *)
(** ** The outside world *)
(* ===================================================================== *)

Inductive method : Type := GET | POST.

(** The payload handed to [requests]: nothing, [data=json.dumps(d)] (kept
    as the document [d] that is serialised), or [data=fields] sent as a
    form. *)
Inductive payload : Type :=
| NoData
| JsonData (d : Dict.t json)
| FormData (fields : Dict.t string).

Record request : Type := Request {
  req_method : method;
  req_url : string;
  req_params : Dict.t json;
  req_data : payload;
  req_headers : Dict.t string
}.

(** A [requests.Response]: [headers] is the case-insensitive header
    mapping seen through its lookup. *)
Record response : Type := Response {
  status_code : Z;
  headers : string -> option string;
  content : string
}.

(** Signal numbers; sets of signals are [gset nat]. *)
Definition SIGTERM : nat := 15%nat.

Inductive sigmask_how : Type := SIG_BLOCK | SIG_UNBLOCK | SIG_SETMASK.

(** The disposition of SIGTERM in the parent.  The only handler the
    program installs is [lambda *args: p.terminate()]. *)
Inductive handler : Type :=
| SIG_DFL
| SIG_IGN
| ForwardTerminate.

(** What the parent does to the operating system, in order. *)
Inductive os_event : Type :=
| EvSigmask (how : sigmask_how) (mask : gset nat)
| EvPopen (args : list string) (stdin_pipe : bool) (preexec_setmask : gset nat)
| EvSignal (num : nat) (h : handler)
| EvStdinWrite (data : string)
| EvStdinClose
| EvWaitid
| EvPopenExit
| EvDelivered (h : handler).

Record Env : Type := {
  (* libraries *)
  json_loads : string -> option json;
  xml_fromstring : string -> option element;
  html_fromstring : string -> option element;
  b64decode : string -> option string;
  urlencode : Dict.t string -> string;
  urlparse_netloc : string -> string;
  str_encode : string -> string;
  py_repr : json -> string;
  pyotp : option (string -> option string);
  (* the machine and its user *)
  uuid_getnode : string;
  console_input : string -> string;
  keyring_get_password : string -> string -> option string;
  getpass_getpass : string;
  (* the network: the response to the n-th request of the run *)
  server : nat -> response;
  (* the operating system: the signal state the process starts with,
     whether a SIGTERM is generated for the parent just before its k-th
     system-level action, and the exit status the child ends with after
     receiving a given number of terminate requests *)
  initial_mask : gset nat;
  initial_handler : handler;
  sigterm_before : nat -> bool;
  child_returncode : nat -> Z
}.

(** The state a run threads: the requests sent so far, the number of
    system-level actions done, the log of those actions and of signal
    deliveries, the parent's signal mask, its SIGTERM disposition,
    whether a SIGTERM is pending, and [p.returncode]. *)
Record world : Type := World {
  sent : list request;
  clock : nat;
  os_log : list os_event;
  sigmask : gset nat;
  sigterm_handler : handler;
  sigterm_pending : bool;
  returncode : option Z
}.

Definition initial_world (E : Env) : world :=
  {| sent := []; clock := 0%nat; os_log := []; sigmask := initial_mask E;
     sigterm_handler := initial_handler E; sigterm_pending := false;
     returncode := None |}.

Definition set_sent (l : list request) (w : world) : world :=
  World l (clock w) (os_log w) (sigmask w) (sigterm_handler w)
        (sigterm_pending w) (returncode w).
Definition set_clock (n : nat) (w : world) : world :=
  World (sent w) n (os_log w) (sigmask w) (sigterm_handler w)
        (sigterm_pending w) (returncode w).
Definition set_os_log (l : list os_event) (w : world) : world :=
  World (sent w) (clock w) l (sigmask w) (sigterm_handler w)
        (sigterm_pending w) (returncode w).
Definition set_sigmask (m : gset nat) (w : world) : world :=
  World (sent w) (clock w) (os_log w) m (sigterm_handler w)
        (sigterm_pending w) (returncode w).
Definition set_sigterm_handler (h : handler) (w : world) : world :=
  World (sent w) (clock w) (os_log w) (sigmask w) h
        (sigterm_pending w) (returncode w).
Definition set_sigterm_pending (b : bool) (w : world) : world :=
  World (sent w) (clock w) (os_log w) (sigmask w) (sigterm_handler w)
        b (returncode w).
Definition set_returncode (rc : option Z) (w : world) : world :=
  World (sent w) (clock w) (os_log w) (sigmask w) (sigterm_handler w)
        (sigterm_pending w) rc.

(* ===================================================================== *)
(** ** The monad of the program *)
(* ===================================================================== *)

(** A run returns, raises, is killed by the default action of a signal,
    or is still inside the polling loop when the fuel is used up. *)
Inductive outcome (A : Type) : Type :=
| Return (a : A)
| Raise (e : exn)
| Killed (sig : nat)
| Spinning.
Arguments Return {A} a.
Arguments Raise {A} e.
Arguments Killed {A} sig.
Arguments Spinning {A}.

Definition M (A : Type) : Type := world -> outcome A * world.

Definition ret {A} (a : A) : M A := fun w => (Return a, w).
Definition raise {A} (e : exn) : M A := fun w => (Raise e, w).
Definition bind {A B} (m : M A) (k : A -> M B) : M B :=
  fun w =>
    match m w with
    | (Return a, w') => k a w'
    | (Raise e, w') => (Raise e, w')
    | (Killed s, w') => (Killed s, w')
    | (Spinning, w') => (Spinning, w')
    end.

Declare Scope py_scope.
Delimit Scope py_scope with py.
Notation "x <- m ;; k" := (bind m (fun x => k))
  (at level 100, m at next level, right associativity) : py_scope.
Notation "m ;;; k" := (bind m (fun _ => k))
  (at level 100, right associativity) : py_scope.
Local Open Scope py_scope.

(** [assert b]. *)
Definition assert (b : bool) : M unit :=
  if b then ret tt else raise AssertionError.

(** [try: body finally: cleanup], as the context managers use it. *)
Definition finally {A} (body : M A) (cleanup : M unit) : M A :=
  fun w =>
    match body w with
    | (Return a, w') => (cleanup ;;; ret a) w'
    | (Raise e, w') => (cleanup ;;; raise e) w'
    | (Killed s, w') => (Killed s, w')
    | (Spinning, w') => (Spinning, w')
    end.

(* ===================================================================== *)
(** ** Python built-ins used by the program *)
(* ===================================================================== *)

(** [j[k]] for a string key [k]. *)
Definition getitem (j : json) (k : string) : M json :=
  match j with
  | JObj members =>
      match Dict.get k members with
      | Some v => ret v
      | None => raise (KeyError k)
      end
  | _ => raise TypeError
  end.

(** [j == s] for a string literal [s]. *)
Definition str_eq (j : json) (s : string) : bool :=
  match j with
  | JStr t => String.eqb t s
  | _ => false
  end.

(** The items a [for] loop or [sorted] draws from a JSON value. *)
Definition iter (j : json) : M (list json) :=
  match j with
  | JArr items => ret items
  | JObj members => ret (map (fun kv => JStr (fst kv)) members)
  | JStr s => ret (map (fun c => JStr (String c "")) (String.list_ascii_of_string s))
  | _ => raise TypeError
  end.

Fixpoint traverse {A B} (f : A -> M B) (l : list A) : M (list B) :=
  match l with
  | [] => ret []
  | x :: rest => y <- f x ;; ys <- traverse f rest ;; ret (y :: ys)
  end.

(** [sorted(l, key=key)]: the keys are computed first, left to right, and
    the items are then put in ascending key order, equal keys keeping
    their original order. *)
Fixpoint insert_by {A} (x : nat * A) (l : list (nat * A)) : list (nat * A) :=
  match l with
  | [] => [x]
  | y :: rest =>
      if (fst x <=? fst y)%nat then x :: y :: rest else y :: insert_by x rest
  end.

Fixpoint stable_sort {A} (l : list (nat * A)) : list (nat * A) :=
  match l with
  | [] => []
  | x :: rest => insert_by x (stable_sort rest)
  end.

Definition sorted {A} (key : A -> M nat) (l : list A) : M (list A) :=
  keys <- traverse key l ;;
  ret (map snd (stable_sort (combine keys l))).

Fixpoint strip_prefix (p s : string) : option string :=
  match p, s with
  | EmptyString, _ => Some s
  | String a p', String b s' =>
      if Ascii.eqb a b then strip_prefix p' s' else None
  | String _ _, EmptyString => None
  end.

Definition newline : Ascii.ascii := Ascii.ascii_of_nat 10.
Definition colon : Ascii.ascii := Ascii.ascii_of_nat 58.

(** [re.match('token(?::|$)', s)] on a string: [token], then a colon or
    the end of the string ([$] also matches before a final newline). *)
Definition re_match_token (s : string) : bool :=
  match strip_prefix "token" s with
  | Some EmptyString => true
  | Some (String c rest) =>
      Ascii.eqb c colon || (Ascii.eqb c newline && String.eqb rest "")
  | None => false
  end.

Definition re_match_token_json (j : json) : M bool :=
  match j with
  | JStr s => ret (re_match_token s)
  | _ => raise TypeError
  end.

(* ===================================================================== *)
(** ** The program *)
(* ===================================================================== *)

Section Program.
Variable E : Env.

(** [s.get] and [s.post]: the request goes out and the server's next
    response comes back. *)
Definition send (rq : request) : M response :=
  fun w =>
    (Return (server E (length (sent w))), set_sent (sent w ++ [rq]) w).

Definition http_error (r : response) : bool :=
  (400 <=? status_code r) && (status_code r <? 600).

Definition check (r : response) : M response :=
  if http_error r then raise (HTTPError (status_code r)) else ret r.

Definition response_json (r : response) : M json :=
  match json_loads E (content r) with
  | Some j => ret j
  | None => raise ValueError
  end.

Definition post_json (url : string) (data : Dict.t json) : M json :=
  let data :=
    Dict.merge1 data "context" (JObj [("deviceToken", JStr (uuid_getnode E))]) in
  r <- (r <- send {| req_method := POST; req_url := url; req_params := [];
                     req_data := JsonData data;
                     req_headers := [("Content-Type", "application/json")] |} ;;
        check r) ;;
  response_json r.

(** [str(j)] inside an f-string. *)
Definition format_json (j : json) : string :=
  match j with
  | JStr s => s
  | _ => py_repr E j
  end.

(** The URL argument of [s.post]; [requests] refuses what is not a URL. *)
Definition as_url (j : json) : M string :=
  match j with
  | JStr s => ret s
  | _ => raise ValueError
  end.

(** [factor['_links']['verify']['href']]. *)
Definition verify_href (factor : json) : M json :=
  links <- getitem factor "_links" ;;
  verify <- getitem links "verify" ;;
  getitem verify "href".

Definition priority (totp_key : option string) (factor : json) : M nat :=
  ft <- getitem factor "factorType" ;;
  match ft with
  | JStr s =>
      ret (if String.eqb s "token:software:totp"
           then match totp_key with None => 2 | Some _ => 0 end
           else if String.eqb s "push" then 1 else 2)%nat
  | JArr _ | JObj _ => raise TypeError
  | _ => ret 2%nat
  end.

(** The [while True] loop of the push factor. *)
Fixpoint push_loop (fuel : nat) (url : json) (r : json) : M json :=
  match fuel with
  | O => fun w => (Spinning, w)
  | S fuel' =>
      state_token <- getitem r "stateToken" ;;
      u <- as_url url ;;
      r <- post_json u [("stateToken", state_token);
                        ("rememberDevice", JBool true)] ;;
      status <- getitem r "status" ;;
      if negb (str_eq status "MFA_CHALLENGE") then ret r
      else
        factor_result <- getitem r "factorResult" ;;
        assert (str_eq factor_result "WAITING") ;;;
        push_loop fuel' url r
  end.

Definition push_branch (fuel : nat) (factor r : json) : M json :=
  url <- verify_href factor ;;
  push_loop fuel url r.

Definition sms_branch (factor r : json) : M json :=
  url <- verify_href factor ;;
  state_token <- getitem r "stateToken" ;;
  u <- as_url url ;;
  r <- post_json u [("stateToken", state_token)] ;;
  status <- getitem r "status" ;;
  assert (str_eq status "MFA_CHALLENGE") ;;;
  let code := console_input E "SMS code: " in
  state_token <- getitem r "stateToken" ;;
  u <- as_url url ;;
  post_json u [("stateToken", state_token); ("passCode", JStr code)].

Definition one_time_code (totp_key : option string) (factor : json) : M string :=
  ft <- getitem factor "factorType" ;;
  match str_eq ft "token:software:totp", totp_key with
  | true, Some key =>
      match pyotp E with
      | None => raise AttributeError
      | Some now =>
          match now key with
          | Some code => ret code
          | None => raise ValueError
          end
      end
  | _, _ =>
      provider <- getitem factor "provider" ;;
      vendor <- getitem factor "vendorName" ;;
      ret (console_input E
             ("One-time code for " +:+ format_json provider +:+ " ("
              +:+ format_json vendor +:+ "): "))
  end.

Definition token_branch (totp_key : option string) (factor r : json) : M json :=
  url <- verify_href factor ;;
  state_token <- getitem r "stateToken" ;;
  u <- as_url url ;;
  r <- post_json u [("stateToken", state_token)] ;;
  status <- getitem r "status" ;;
  assert (str_eq status "MFA_CHALLENGE") ;;;
  code <- one_time_code totp_key factor ;;
  state_token <- getitem r "stateToken" ;;
  u <- as_url url ;;
  post_json u [("stateToken", state_token); ("passCode", JStr code)].

(** The [for ... else] loop over the sorted factors; the value is [r]
    as the loop leaves it. *)
Fixpoint for_factors (fuel : nat) (totp_key : option string) (r : json)
         (factors : list json) : M json :=
  match factors with
  | [] => raise (Exception "No supported authentication factors")
  | factor :: rest =>
      ft <- getitem factor "factorType" ;;
      if str_eq ft "push" then push_branch fuel factor r
      else
        ft <- getitem factor "factorType" ;;
        if str_eq ft "sms" then sms_branch factor r
        else
          ft <- getitem factor "factorType" ;;
          m <- re_match_token_json ft ;;
          if m then token_branch totp_key factor r
          else for_factors fuel totp_key r rest
  end.

Definition okta_auth (fuel : nat) (domain username password : string)
           (totp_key : option string) : M json :=
  r <- post_json ("https://" +:+ domain +:+ "/api/v1/authn")
                 [("username", JStr username); ("password", JStr password)] ;;
  status <- getitem r "status" ;;
  r <- (if str_eq status "MFA_REQUIRED" then
          embedded <- getitem r "_embedded" ;;
          factors <- getitem embedded "factors" ;;
          items <- iter factors ;;
          ordered <- sorted (priority totp_key) items ;;
          for_factors fuel totp_key r ordered
        else ret r) ;;
  status <- getitem r "status" ;;
  assert (str_eq status "SUCCESS") ;;;
  getitem r "sessionToken".


(* ------------------------------------------------------------------- *)
(** *** Forms *)

(** [e.find('.//' + name)]: the first proper descendant of [e] with
    that tag, in document order. *)
Fixpoint find_descendant (name : string) (e : element) : option element :=
  match e with
  | Element _ _ _ cs =>
      (fix scan (l : list element) : option element :=
         match l with
         | [] => None
         | c :: rest =>
             if String.eqb (tag c) name then Some c
             else match find_descendant name c with
                  | Some f => Some f
                  | None => scan rest
                  end
         end) cs
  end.

(** [e.findall(name)]: the children of [e] with that tag. *)
Definition findall (name : string) (e : element) : list element :=
  List.filter (fun c => String.eqb (tag c) name) (children e).

(** [e.find(name)]: the first child of [e] with that tag. *)
Definition find_child (name : string) (e : element) : option element :=
  List.find (fun c => String.eqb (tag c) name) (children e).

(** [e.attrib[k]]. *)
Definition attr (e : element) (k : string) : M string :=
  match Dict.get k (attrib e) with
  | Some v => ret v
  | None => raise (KeyError k)
  end.

Definition input_item (inp : element) : M (string * string) :=
  name <- attr inp "name" ;;
  value <- attr inp "value" ;;
  ret (name, value).

Definition extract_form (html : string) : M (string * Dict.t string) :=
  match html_fromstring E html with
  | None => raise XMLSyntaxError
  | Some root =>
      match find_descendant "form" root with
      | None => raise AttributeError
      | Some form =>
          action <- attr form "action" ;;
          items <- traverse input_item (findall "input" form) ;;
          ret (action, Dict.of_items items)
      end
  end.

Definition prelogin (gateway : string) : M string :=
  r <- (r <- send {| req_method := POST;
                     req_url := "https://" +:+ gateway +:+ "/ssl-vpn/prelogin.esp";
                     req_params := []; req_data := NoData;
                     req_headers := [] |} ;;
        check r) ;;
  match xml_fromstring E (content r) with
  | None => raise XMLSyntaxError
  | Some root =>
      match find_child "saml-request" root with
      | None => raise AttributeError
      | Some node =>
          match text node with
          | None => raise TypeError
          | Some encoded =>
              match b64decode E encoded with
              | None => raise ValueError
              | Some saml_req_html =>
                  form <- extract_form saml_req_html ;;
                  let saml_req_url := fst form in
                  let saml_req_data := snd form in
                  assert (Dict.mem "SAMLRequest" saml_req_data) ;;;
                  ret (saml_req_url +:+ "?" +:+ urlencode E saml_req_data)
              end
          end
      end
  end.

Definition okta_saml (fuel : nat) (saml_req_url username password : string)
           (totp_key : option string) : M (string * Dict.t string) :=
  let domain := urlparse_netloc E saml_req_url in
  (r <- send {| req_method := GET; req_url := saml_req_url; req_params := [];
                req_data := NoData; req_headers := [] |} ;;
   check r) ;;;
  token <- okta_auth fuel domain username password totp_key ;;
  r <- (r <- send {| req_method := GET;
                     req_url := "https://" +:+ domain +:+ "/login/sessionCookieRedirect";
                     req_params := [("token", token);
                                    ("redirectUrl", JStr saml_req_url)];
                     req_data := NoData; req_headers := [] |} ;;
        check r) ;;
  form <- extract_form (content r) ;;
  let saml_resp_url := fst form in
  let saml_resp_data := snd form in
  assert (Dict.mem "SAMLResponse" saml_resp_data) ;;;
  ret (saml_resp_url, saml_resp_data).

(** [r.headers[k]]. *)
Definition header (r : response) (k : string) : M string :=
  match headers r k with
  | Some v => ret v
  | None => raise (KeyError k)
  end.

Definition complete_saml (saml_resp_url : string)
           (saml_resp_data : Dict.t string) : M (string * string) :=
  r <- (r <- send {| req_method := POST; req_url := saml_resp_url;
                     req_params := []; req_data := FormData saml_resp_data;
                     req_headers := [] |} ;;
        check r) ;;
  saml_username <- header r "saml-username" ;;
  prelogin_cookie <- header r "prelogin-cookie" ;;
  ret (saml_username, prelogin_cookie).


(* ------------------------------------------------------------------- *)
(** *** Signals and the child process

    Signal semantics as on Linux: a SIGTERM generated while SIGTERM is
    blocked stays pending, whatever its disposition, and is delivered
    when a mask change unblocks it; an unblocked SIGTERM is delivered
    at once.  Delivery acts by the disposition then in force: the
    default action kills the parent, the installed handler calls
    [p.terminate()]. *)

Definition deliver : M unit :=
  fun w =>
    let h := sigterm_handler w in
    let w' := set_os_log (os_log w ++ [EvDelivered h]) w in
    match h with
    | SIG_DFL => (Killed SIGTERM, w')
    | SIG_IGN => (Return tt, w')
    | ForwardTerminate => (Return tt, w')
    end.

Definition arrive : M unit :=
  fun w =>
    if decide (SIGTERM ∈ sigmask w)
    then (Return tt, set_sigterm_pending true w)
    else deliver w.

(** One system-level action of the parent: signals generated since the
    previous action take effect first, then the action is logged. *)
Definition os_action (ev : os_event) : M unit :=
  fun w =>
    let k := clock w in
    ((if sigterm_before E k then arrive else ret tt) ;;;
     (fun w => (Return tt, set_os_log (os_log w ++ [ev]) w)))
      (set_clock (S k) w).

(** [signal.pthread_sigmask(how, mask)]: returns the previous mask; a
    pending SIGTERM that the new mask no longer blocks is delivered
    before the call returns. *)
Definition pthread_sigmask (how : sigmask_how) (mask : gset nat) : M (gset nat) :=
  os_action (EvSigmask how mask) ;;;
  (fun w =>
     let old := sigmask w in
     let new := match how with
                | SIG_BLOCK => old ∪ mask
                | SIG_UNBLOCK => old ∖ mask
                | SIG_SETMASK => mask
                end in
     let w' := set_sigmask new w in
     if sigterm_pending w && bool_decide (SIGTERM ∉ new)
     then (deliver ;;; ret old) (set_sigterm_pending false w')
     else (Return old, w')).

(** [signal.signal(num, handler)]: returns the previous handler.  Only
    the disposition of SIGTERM is tracked. *)
Definition signal_signal (num : nat) (h : handler) : M handler :=
  os_action (EvSignal num h) ;;;
  (fun w =>
     if decide (num = SIGTERM)
     then (Return (sigterm_handler w), set_sigterm_handler h w)
     else (Return SIG_DFL, w)).

Definition signal_mask {A} (how : sigmask_how) (mask : gset nat)
           (body : gset nat -> M A) : M A :=
  old_mask <- pthread_sigmask how mask ;;
  finally (body old_mask)
          (pthread_sigmask SIG_SETMASK old_mask ;;; ret tt).

Definition signal_handler {A} (num : nat) (h : handler)
           (body : handler -> M A) : M A :=
  old_handler <- signal_signal num h ;;
  finally (body old_handler)
          (signal_signal num old_handler ;;; ret tt).

(** A [subprocess.Popen] object: whether [p.stdin] is a pipe. *)
Record popen : Type := Popen { popen_stdin : bool }.

(** Number of terminate requests the handler has sent to the child. *)
Definition terminate_requests (w : world) : nat :=
  length (List.filter (fun ev => match ev with
                                 | EvDelivered ForwardTerminate => true
                                 | _ => false
                                 end) (os_log w)).

(** [with subprocess.Popen(args, stdin=stdin, preexec_fn=...) as p]:
    the child sets [preexec_mask] as its signal mask before it execs;
    leaving the block closes the pipes and waits for the child, which
    sets [p.returncode]. *)
Definition with_popen {A} (args : list string) (stdin : bool)
           (preexec_mask : gset nat) (body : popen -> M A) : M A :=
  os_action (EvPopen args stdin preexec_mask) ;;;
  finally (body (Popen stdin))
          (os_action EvPopenExit ;;;
           (fun w => (Return tt,
                      set_returncode
                        (Some (child_returncode E (terminate_requests w))) w))).

Definition stdin_write (p : popen) (data : string) : M unit :=
  if popen_stdin p then os_action (EvStdinWrite data)
  else raise AttributeError.

Definition stdin_close : M unit := os_action EvStdinClose.

Definition os_waitid : M unit := os_action EvWaitid.

Definition popen_forward_sigterm {A} (args : list string) (stdin : bool)
           (body : popen -> M A) : M A :=
  signal_mask SIG_BLOCK {[SIGTERM]} (fun old_mask =>
    with_popen args stdin old_mask (fun p =>
      signal_handler SIGTERM ForwardTerminate (fun _ =>
        signal_mask SIG_SETMASK old_mask (fun _ =>
          a <- body p ;;
          (if popen_stdin p then stdin_close else ret tt) ;;;
          os_waitid ;;;
          ret a)))).

(* ------------------------------------------------------------------- *)
(** *** The entry point *)

(** The body of [with requests.Session() as s]. *)
Definition main_session (fuel : nat) (gateway username password : string)
           (totp_key : option string) : M (string * string) :=
  saml_req_url <- prelogin gateway ;;
  form <- okta_saml fuel saml_req_url username password totp_key ;;
  complete_saml (fst form) (snd form).

Definition subprocess_args (gateway saml_username : string) (sudo : bool)
  : list string :=
  let args := ["openconnect"; gateway; "--protocol=gp";
               "--user=" +:+ saml_username;
               "--usergroup=gateway:prelogin-cookie";
               "--passwd-on-stdin"] in
  if sudo then "sudo" :: args else args.

Definition main (fuel : nat) (gateway : string)
           (username password totp_key : option string) (sudo : bool)
  : M unit :=
  (match totp_key, pyotp E with
   | Some _, None => raise (SystemExit (Some 1))
   | _, _ => ret tt
   end) ;;;
  let username := match username with
                  | None => console_input E "Username: "
                  | Some u => u
                  end in
  let password := match password with
                  | Some p => p
                  | None =>
                      match keyring_get_password E gateway username with
                      | Some p => p
                      | None => getpass_getpass E
                      end
                  end in
  creds <- main_session fuel gateway username password totp_key ;;
  let saml_username := fst creds in
  let prelogin_cookie := snd creds in
  popen_forward_sigterm (subprocess_args gateway saml_username sudo) true
    (fun p => stdin_write p (str_encode E prelogin_cookie)) ;;;
  (fun w => (Raise (SystemExit (returncode w)), w)).

End Program.

(* ===================================================================== *)
(** ** Derived notions used by the statements *)
(* ===================================================================== *)

(** The proper descendants of an element, in document order. *)
Fixpoint descendants (e : element) : list element :=
  match e with
  | Element _ _ _ cs => flat_map (fun c => c :: descendants c) cs
  end.

Definition has_tag (name : string) (e : element) : bool :=
  String.eqb (tag e) name.

(** The (name, value) pair of an input that carries both attributes. *)
Definition name_value (inp : element) : option (string * string) :=
  match Dict.get "name" (attrib inp), Dict.get "value" (attrib inp) with
  | Some n, Some v => Some (n, v)
  | _, _ => None
  end.

(** Map insertion, one pair after the other: the last write wins. *)
Definition insert_all (items : list (string * string)) : gmap string string :=
  fold_left (fun m kv => <[fst kv := snd kv]> m) items ∅.

(** The mapping the specification describes for a form: every descendant
    input that has a name and a value, inserted in document order. *)
Definition descendant_fields (form : element) : gmap string string :=
  insert_all (omap name_value (List.filter (has_tag "input") (descendants form))).

(** The same over the children of the form only. *)
Definition child_fields (form : element) : gmap string string :=
  insert_all (omap name_value (List.filter (has_tag "input") (children form))).

(** [j[k]] without the monad: [None] when [j] is no object or lacks [k]. *)
Definition field (j : json) (k : string) : option json :=
  match j with
  | JObj members => Dict.get k members
  | _ => None
  end.

(** The factor type of a factor that has one, as a string. *)
Definition factor_type (factor : json) : option string :=
  match field factor "factorType" with
  | Some (JStr s) => Some s
  | _ => None
  end.

Definition typed_factor (factor : json) : bool :=
  match factor_type factor with Some _ => true | None => false end.

(** The rank [priority] gives a factor type. *)
Definition rank (totp_key : option string) (ft : string) : nat :=
  if String.eqb ft "token:software:totp"
  then match totp_key with None => 2 | Some _ => 0 end
  else if String.eqb ft "push" then 1 else 2.

Definition factor_rank (totp_key : option string) (factor : json) : nat :=
  match factor_type factor with
  | Some s => rank totp_key s
  | None => 2
  end.

(** The factor types one of the three branches of the loop takes. *)
Definition supported_type (ft : string) : bool :=
  String.eqb ft "push" || String.eqb ft "sms" || re_match_token ft.

Definition supported (factor : json) : bool :=
  match factor_type factor with
  | Some s => supported_type s
  | None => false
  end.

Definition has_rank (totp_key : option string) (n : nat) (factor : json) : bool :=
  Nat.eqb (factor_rank totp_key factor) n.

(** The factors in ascending rank, each rank in the server's order. *)
Definition by_rank (totp_key : option string) (factors : list json) : list json :=
  List.filter (has_rank totp_key 0) factors
  ++ List.filter (has_rank totp_key 1) factors
  ++ List.filter (has_rank totp_key 2) factors.

(** The first factor of the priority order, whatever its type. *)
Definition first_by_rank (totp_key : option string) (factors : list json)
  : option json :=
  head (by_rank totp_key factors).

(** The factor the loop pursues: the first of the priority order that one
    of its branches takes. *)
Definition chosen_factor (totp_key : option string) (factors : list json)
  : option json :=
  List.find supported (by_rank totp_key factors).

(** The branch the loop runs for a factor. *)
Definition run_factor (E : Env) (fuel : nat) (totp_key : option string)
           (factor r : json) : M json :=
  match factor_type factor with
  | Some s =>
      if String.eqb s "push" then push_branch E fuel factor r
      else if String.eqb s "sms" then sms_branch E factor r
      else token_branch E totp_key factor r
  | None => raise TypeError
  end.

(** The request [post_json] sends. *)
Definition json_request (E : Env) (url : string) (data : Dict.t json) : request :=
  {| req_method := POST; req_url := url; req_params := [];
     req_data := JsonData (Dict.merge1 data "context"
                             (JObj [("deviceToken", JStr (uuid_getnode E))]));
     req_headers := [("Content-Type", "application/json")] |}.

(** The [n]-th response of the server passes [check] and is the JSON
    document [j]. *)
Definition answers (E : Env) (n : nat) (j : json) : Prop :=
  http_error (server E n) = false /\ json_loads E (content (server E n)) = Some j.

(** The server plays the documents [js] from its [n]-th response on. *)
Fixpoint plays (E : Env) (n : nat) (js : list json) : Prop :=
  match js with
  | [] => True
  | j :: rest => answers E n j /\ plays E (S n) rest
  end.

(** The primary authentication request of [okta_auth]. *)
Definition primary_request (E : Env) (domain username password : string) : request :=
  json_request E ("https://" +:+ domain +:+ "/api/v1/authn")
               [("username", JStr username); ("password", JStr password)].

(** The other requests of a login, in the order they are sent. *)
Definition prelogin_request (gateway : string) : request :=
  {| req_method := POST;
     req_url := "https://" +:+ gateway +:+ "/ssl-vpn/prelogin.esp";
     req_params := []; req_data := NoData; req_headers := [] |}.

Definition cookie_request (saml_req_url : string) : request :=
  {| req_method := GET; req_url := saml_req_url; req_params := [];
     req_data := NoData; req_headers := [] |}.

Definition redirect_request (domain : string) (token : json)
           (saml_req_url : string) : request :=
  {| req_method := GET;
     req_url := "https://" +:+ domain +:+ "/login/sessionCookieRedirect";
     req_params := [("token", token); ("redirectUrl", JStr saml_req_url)];
     req_data := NoData; req_headers := [] |}.

Definition form_request (url : string) (data : Dict.t string) : request :=
  {| req_method := POST; req_url := url; req_params := [];
     req_data := FormData data; req_headers := [] |}.

(** The user name and the password [main] logs in with. *)
Definition login_name (E : Env) (username : option string) : string :=
  match username with
  | None => console_input E "Username: "
  | Some u => u
  end.

Definition login_password (E : Env) (gateway username : string)
           (password : option string) : string :=
  match password with
  | Some p => p
  | None =>
      match keyring_get_password E gateway username with
      | Some p => p
      | None => getpass_getpass E
      end
  end.

(** [main] gets past its check that a seed comes with [pyotp]. *)
Definition seed_usable (E : Env) (totp_key : option string) : Prop :=
  totp_key = None \/ pyotp E <> None.

(** The response [r] has status [MFA_REQUIRED] and lists [factors]. *)
Definition offers (r : json) (factors : list json) : Prop :=
  field r "status" = Some (JStr "MFA_REQUIRED")
  /\ exists embedded,
       field r "_embedded" = Some embedded
       /\ field embedded "factors" = Some (JArr factors).

(** [factor['_links']['verify']['href']] without the monad. *)
Definition verify_url (factor : json) : option json :=
  match field factor "_links" with
  | Some links =>
      match field links "verify" with
      | Some verify => field verify "href"
      | None => None
      end
  | None => None
  end.

(** A poll response that keeps the push loop going, with the state token
    it carries. *)
Definition waiting (c : json) : Prop :=
  field c "status" = Some (JStr "MFA_CHALLENGE")
  /\ field c "factorResult" = Some (JStr "WAITING")
  /\ field c "stateToken" <> None.

Definition state_token (r : json) : json :=
  match field r "stateToken" with
  | Some t => t
  | None => JNull
  end.

(** The verify request of the push loop for a given state token. *)
Definition poll_request (E : Env) (url : string) (token : json) : request :=
  json_request E url [("stateToken", token); ("rememberDevice", JBool true)].

(** The verify requests of the push loop: one per response received,
    each with the state token of the response before it. *)
Fixpoint poll_requests (E : Env) (url : string) (r : json) (polls : list json)
  : list request :=
  match polls with
  | [] => []
  | c :: rest => poll_request E url (state_token r) :: poll_requests E url c rest
  end.

(** Does a JSON request body bind [k]? *)
Definition body_field (rq : request) (k : string) : option json :=
  match req_data rq with
  | JsonData d => Dict.get k d
  | _ => None
  end.

(** The items of a keyed list that have key [n]. *)
Definition key_is {A} (n : nat) (x : nat * A) : bool := Nat.eqb (fst x) n.

(** A computation that only sends requests, each of them satisfying [P],
    and leaves the rest of the world alone. *)
Definition sends_only {A} (P : request -> Prop) (m : M A) : Prop :=
  forall w, exists new,
    snd (m w) = set_sent (sent w ++ new) w /\ Forall P new.

(** The system calls of a log, signal deliveries left out. *)
Definition syscalls (log : list os_event) : list os_event :=
  List.filter (fun ev => match ev with EvDelivered _ => false | _ => true end) log.

(** A computation that only adds to the log of system-level events. *)
Definition appends {A} (m : M A) : Prop :=
  forall w, exists tail, os_log (snd (m w)) = os_log w ++ tail.

(** The system calls of the supervised region of [main], in order, for
    the signal mask and the SIGTERM disposition it starts with. *)
Definition supervised_calls (args : list string) (data : string)
           (mask : gset nat) (h : handler) : list os_event :=
  [EvSigmask SIG_BLOCK {[SIGTERM]};
   EvPopen args true mask;
   EvSignal SIGTERM ForwardTerminate;
   EvSigmask SIG_SETMASK mask;
   EvStdinWrite data;
   EvStdinClose;
   EvWaitid;
   EvSigmask SIG_SETMASK (mask ∪ {[SIGTERM]});
   EvSignal SIGTERM h;
   EvPopenExit;
   EvSigmask SIG_SETMASK mask].

(** What a run establishes unless the default action of a signal kills
    the parent on the way: it returns, and the result and the world
    satisfy [Q]. *)
Definition unless_killed {A} (m : M A) (w : world) (Q : A -> world -> Prop) : Prop :=
  match m w with
  | (Return a, w') => Q a w'
  | (Killed _, _) => True
  | (Raise _, _) => False
  | (Spinning, _) => False
  end.

(** The part of the world the supervisor's system calls determine. *)
Definition os_state (reqs : list request) (calls : list os_event)
           (mask : gset nat) (h : handler) (rc : option Z) (w : world) : Prop :=
  sent w = reqs
  /\ syscalls (os_log w) = calls
  /\ sigmask w = mask
  /\ sigterm_handler w = h
  /\ returncode w = rc.


(** The envelope every request of [post_json] has: a POST with the JSON
    content type whose body binds [context] to the device token. *)
Definition json_envelope (E : Env) (rq : request) : Prop :=
  req_method rq = POST
  /\ Dict.get "Content-Type" (req_headers rq) = Some "application/json"
  /\ body_field rq "context"
     = Some (JObj [("deviceToken", JStr (uuid_getnode E))]).

(** The prompt of the token branch for a provider and a vendor name. *)
Definition token_prompt (E : Env) (provider vendor : json) : string :=
  "One-time code for " +:+ format_json E provider +:+ " ("
  +:+ format_json E vendor +:+ "): ".

(** What a run establishes unless the default action of a signal kills
    the parent on the way: it returns with [Q] or raises with [R]. *)
Definition ends {A} (m : M A) (w : world) (Q : A -> world -> Prop)
           (R : exn -> world -> Prop) : Prop :=
  match m w with
  | (Return a, w') => Q a w'
  | (Raise e, w') => R e w'
  | (Killed _, _) => True
  | (Spinning, _) => False
  end.

(** The log entry of a SIGTERM forwarded to the child, when one was
    generated. *)
Definition forwarded (generated : bool) : list os_event :=
  if generated then [EvDelivered ForwardTerminate] else [].

(** The system calls of the supervised region when the body of the
    [with] block raises at once. *)
Definition aborted_calls (args : list string) (stdin : bool)
           (mask : gset nat) (h : handler) : list os_event :=
  [EvSigmask SIG_BLOCK {[SIGTERM]};
   EvPopen args stdin mask;
   EvSignal SIGTERM ForwardTerminate;
   EvSigmask SIG_SETMASK mask;
   EvSigmask SIG_SETMASK (mask ∪ {[SIGTERM]});
   EvSignal SIGTERM h;
   EvPopenExit;
   EvSigmask SIG_SETMASK mask].

(* ===================================================================== *)
(** ** Scripted environments *)
(* ===================================================================== *)

Module Scenario.

Definition ok (body : string) : response :=
  {| status_code := 200; headers := fun _ => None; content := body |}.

Definition join_pair (kv : string * string) : string :=
  fst kv +:+ "=" +:+ snd kv.

(** An environment whose parsers are lookup tables from body text to
    the parsed document, and whose server plays a script. *)
Definition env (jsons : list (string * json)) (trees : list (string * element))
           (script : list response) (arrivals : list nat) : Env :=
  {| json_loads := fun s => Dict.get s jsons;
     xml_fromstring := fun s => Dict.get s trees;
     html_fromstring := fun s => Dict.get s trees;
     b64decode := fun s => Some s;
     urlencode := fun d => String.concat "&" (map join_pair d);
     urlparse_netloc := fun _ => "idp.example";
     str_encode := fun s => s;
     py_repr := fun _ => "?";
     pyotp := Some (fun _ => Some "123456");
     uuid_getnode := "42";
     console_input := fun _ => "000000";
     keyring_get_password := fun _ _ => None;
     getpass_getpass := "hunter2";
     server := fun n => nth n script {| status_code := 500;
                                        headers := fun _ => None;
                                        content := "" |};
     initial_mask := ∅;
     initial_handler := SIG_DFL;
     sigterm_before := fun k => existsb (Nat.eqb k) arrivals;
     child_returncode := fun n => Z.of_nat n |}.

Definition factor (ft href : string) : json :=
  JObj [("id", JStr href); ("factorType", JStr ft);
        ("provider", JStr "OKTA"); ("vendorName", JStr "OKTA");
        ("_links", JObj [("verify", JObj [("href", JStr href)])])].

Definition totp : json := factor "token:software:totp" "https://idp.example/totp".
Definition push : json := factor "push" "https://idp.example/push".
Definition sms : json := factor "sms" "https://idp.example/sms".
Definition question : json := factor "question" "https://idp.example/question".

Definition mfa_required (factors : list json) : json :=
  JObj [("status", JStr "MFA_REQUIRED"); ("stateToken", JStr "st0");
        ("_embedded", JObj [("factors", JArr factors)])].

Definition waiting (state_token : string) : json :=
  JObj [("status", JStr "MFA_CHALLENGE"); ("factorResult", JStr "WAITING");
        ("stateToken", JStr state_token)].

Definition challenge (state_token : string) : json :=
  JObj [("status", JStr "MFA_CHALLENGE"); ("stateToken", JStr state_token)].

Definition rejected : json :=
  JObj [("status", JStr "MFA_CHALLENGE"); ("factorResult", JStr "REJECTED");
        ("stateToken", JStr "st9")].

Definition success (token : string) : json :=
  JObj [("status", JStr "SUCCESS"); ("sessionToken", JStr token)].

Definition input (name value : string) : element :=
  Element "input" [("type", "hidden"); ("name", name); ("value", value)] None [].

Definition page (form : element) : element :=
  Element "html" [] None [Element "body" [] None [form]].

(** A form whose only input sits inside a [div]. *)
Definition nested_form : element :=
  Element "form" [("action", "https://idp.example/sso")] None
    [Element "div" [] None [input "SAMLRequest" "abc"]].

Definition request_form : element :=
  Element "form" [("action", "https://idp.example/sso")] None
    [input "SAMLRequest" "abc"; input "RelayState" "one";
     input "RelayState" "two"].

Definition response_form : element :=
  Element "form" [("action", "https://vpn.example/SAML20/SP/ACS")] None
    [input "SAMLResponse" "xyz"].

(** A form with an input that has no [value]. *)
Definition bare_form : element :=
  Element "form" [("action", "https://idp.example/sso")] None
    [input "SAMLRequest" "abc"; Element "input" [("name", "submit")] None []].

Definition prelogin_xml : element :=
  Element "prelogin-response" [] None
    [Element "status" [] (Some "Success") [];
     Element "saml-request" [] (Some "request-page") []].

Definition trees : list (string * element) :=
  [("prelogin", prelogin_xml);
   ("request-page", page request_form);
   ("response-page", page response_form);
   ("nested-page", page nested_form);
   ("bare-page", page bare_form)].

Definition jsons : list (string * json) :=
  [("mfa-all", mfa_required [totp; push; sms]);
   ("mfa-sms-push", mfa_required [sms; push]);
   ("mfa-sms", mfa_required [sms]);
   ("mfa-push", mfa_required [push]);
   ("mfa-question-sms", mfa_required [question; sms]);
   ("mfa-question", mfa_required [question]);
   ("mfa-none", mfa_required []);
   ("waiting-1", waiting "st1");
   ("waiting-2", waiting "st2");
   ("challenge", challenge "st1");
   ("rejected", rejected);
   ("success", success "T")].

Definition completed : response :=
  {| status_code := 200;
     headers := fun k =>
       if String.eqb k "saml-username" then Some "alice"
       else if String.eqb k "prelogin-cookie" then Some "cookie123"
       else None;
     content := "" |}.

Definition no_cookie : response :=
  {| status_code := 200;
     headers := fun k =>
       if String.eqb k "saml-username" then Some "alice" else None;
     content := "" |}.

(** The end-to-end script: prelogin, the cookie GET, primary
    authentication, the session-cookie redirect, the final POST. *)
Definition login_script (last : response) : list response :=
  [ok "prelogin"; ok ""; ok "success"; ok "response-page"; last].

Definition scripted (script : list response) : Env := env jsons trees script [].

Definition with_signals (arrivals : list nat) : Env :=
  env jsons trees (login_script completed) arrivals.

End Scenario.


(* ===================================================================== *)
(** ** Dictionaries: get, set and the map they denote *)
(* ===================================================================== *)

Section DictFacts.
Context {V : Type}.
Implicit Types (d : Dict.t V) (k : string) (v : V).

Lemma dict_get_set_eq d k v : Dict.get k (Dict.set k v d) = Some v.
Proof.
  induction d as [|[k' v'] d IH]; simpl.
  - now rewrite String.eqb_refl.
  - destruct (String.eqb k k') eqn:Hk; simpl; rewrite Hk; [reflexivity | exact IH].
Qed.

Lemma dict_get_set_ne d k k' v :
  k <> k' -> Dict.get k' (Dict.set k v d) = Dict.get k' d.
Proof.
  intros Hne. induction d as [|[k0 v0] d IH]; simpl.
  - destruct (String.eqb k' k) eqn:Hk; [|reflexivity].
    apply String.eqb_eq in Hk. congruence.
  - destruct (String.eqb k k0) eqn:Hk; simpl.
    + apply String.eqb_eq in Hk. subst k0.
      destruct (String.eqb k' k) eqn:Hk'; [|reflexivity].
      apply String.eqb_eq in Hk'. congruence.
    + destruct (String.eqb k' k0); [reflexivity | exact IH].
Qed.

Lemma dict_get_app d1 d2 k :
  Dict.get k (d1 ++ d2) =
  match Dict.get k d1 with Some v => Some v | None => Dict.get k d2 end.
Proof.
  induction d1 as [|[k' v'] d1 IH]; simpl; [reflexivity|].
  destruct (String.eqb k k'); [reflexivity | exact IH].
Qed.

(** Reading a key after a run of writes: the last write to the key, or
    what the dictionary held before. *)
Lemma dict_get_fold_set (items : list (string * V)) d k :
  Dict.get k (fold_left (fun d kv => Dict.set (fst kv) (snd kv) d) items d) =
  match Dict.get k (rev items) with
  | Some v => Some v
  | None => Dict.get k d
  end.
Proof.
  revert d. induction items as [|[k0 v0] items IH]; intros d; simpl; [reflexivity|].
  rewrite IH, dict_get_app. destruct (Dict.get k (rev items)); [reflexivity|].
  simpl. destruct (String.eqb k k0) eqn:Hk.
  - apply String.eqb_eq in Hk. subst. apply dict_get_set_eq.
  - apply dict_get_set_ne. intros ->. now rewrite String.eqb_refl in Hk.
Qed.

Lemma dict_get_of_items (items : list (string * V)) k :
  Dict.get k (Dict.of_items items) = Dict.get k (rev items).
Proof.
  unfold Dict.of_items. rewrite dict_get_fold_set.
  now destruct (Dict.get k (rev items)).
Qed.

Lemma dict_to_gmap_lookup d k : Dict.to_gmap d !! k = Dict.get k d.
Proof.
  unfold Dict.to_gmap. induction d as [|[k' v'] d IH]; simpl.
  - apply lookup_empty.
  - destruct (String.eqb k k') eqn:Hk.
    + apply String.eqb_eq in Hk. subst. apply lookup_insert_eq.
    + rewrite lookup_insert_ne; [exact IH|].
      intros ->. now rewrite String.eqb_refl in Hk.
Qed.
End DictFacts.

Lemma insert_fold_lookup (items : list (string * string)) (m : gmap string string) k :
  fold_left (fun m kv => <[fst kv := snd kv]> m) items m !! k =
  match Dict.get k (rev items) with
  | Some v => Some v
  | None => m !! k
  end.
Proof.
  revert m. induction items as [|[k0 v0] items IH]; intros m; simpl; [reflexivity|].
  rewrite IH, dict_get_app. destruct (Dict.get k (rev items)); [reflexivity|].
  simpl. destruct (String.eqb k k0) eqn:Hk.
  - apply String.eqb_eq in Hk. subst. apply lookup_insert_eq.
  - apply lookup_insert_ne. intros ->. now rewrite String.eqb_refl in Hk.
Qed.

(** A dictionary built from items denotes the map obtained by inserting
    the items one after the other. *)
Lemma dict_of_items_insert_all (items : list (string * string)) :
  Dict.to_gmap (Dict.of_items items) = insert_all items.
Proof.
  apply map_eq. intros k.
  rewrite dict_to_gmap_lookup, dict_get_of_items.
  unfold insert_all. rewrite insert_fold_lookup, lookup_empty.
  now destruct (Dict.get k (rev items)).
Qed.

(* ===================================================================== *)
(** ** Elements and forms *)
(* ===================================================================== *)

Lemma element_nested_ind (P : element -> Prop) :
  (forall t a x cs, Forall P cs -> P (Element t a x cs)) ->
  forall e, P e.
Proof.
  intros step. fix IH 1. intros [t a x cs]. apply step.
  induction cs as [|c cs IHcs]; constructor; [apply IH | exact IHcs].
Qed.

Lemma find_app_first {A} (p : A -> bool) (l1 l2 : list A) :
  List.find p (l1 ++ l2) =
  match List.find p l1 with Some x => Some x | None => List.find p l2 end.
Proof.
  induction l1 as [|x l1 IH]; simpl; [reflexivity|].
  destruct (p x); [reflexivity | exact IH].
Qed.

(** [find('.//name')] is the first descendant with the tag, in document
    order. *)
Lemma find_descendant_spec (name : string) (e : element) :
  find_descendant name e = List.find (has_tag name) (descendants e).
Proof.
  induction e as [t a x cs IH] using element_nested_ind. simpl.
  induction cs as [|c cs IHcs]; simpl; [reflexivity|].
  inversion IH as [|? ? Hc Hcs]; subst.
  unfold has_tag at 1. destruct (String.eqb (tag c) name); [reflexivity|].
  rewrite find_app_first, <- Hc.
  destruct (find_descendant name c); [reflexivity|]. now apply IHcs.
Qed.

(* ===================================================================== *)
(** ** Running the monad *)
(* ===================================================================== *)

(** Unfolds the monad operations and reduces what they expose. *)
Ltac monad_simpl := cbv beta iota zeta delta [bind ret raise].

Lemma bind_return {A B} (m : M A) (k : A -> M B) (w w' : world) (a : A) :
  m w = (Return a, w') -> bind m k w = k a w'.
Proof. intros H. unfold bind. now rewrite H. Qed.

Lemma bind_raise {A B} (m : M A) (k : A -> M B) (w w' : world) (e : exn) :
  m w = (Raise e, w') -> bind m k w = (Raise e, w').
Proof. intros H. unfold bind. now rewrite H. Qed.

Lemma set_sent_same (w : world) : set_sent (sent w) w = w.
Proof. now destruct w. Qed.

Lemma set_sent_app (l1 l2 : list request) (w : world) :
  set_sent (sent (set_sent l1 w) ++ l2) (set_sent l1 w) = set_sent (l1 ++ l2) w.
Proof. reflexivity. Qed.

Section SendsOnly.
Context {A B : Type} (P : request -> Prop).

Lemma sends_only_ret (a : A) : sends_only P (ret a).
Proof.
  intros w. exists []. simpl. rewrite app_nil_r, set_sent_same. now split.
Qed.

Lemma sends_only_raise (e : exn) : sends_only P (@raise A e).
Proof.
  intros w. exists []. simpl. rewrite app_nil_r, set_sent_same. now split.
Qed.

Lemma sends_only_spinning : sends_only P (fun w => (@Spinning A, w)).
Proof.
  intros w. exists []. simpl. rewrite app_nil_r, set_sent_same. now split.
Qed.

Lemma sends_only_bind (m : M A) (k : A -> M B) :
  sends_only P m -> (forall a, sends_only P (k a)) -> sends_only P (bind m k).
Proof.
  intros Hm Hk w. destruct (Hm w) as [new1 [Hw1 Hnew1]].
  unfold bind. destruct (m w) as [[a|e|s|] w1]; simpl in Hw1; subst w1;
    try (exists new1; now split).
  destruct (Hk a (set_sent (sent w ++ new1) w)) as [new2 [Hw2 Hnew2]].
  exists (new1 ++ new2). split.
  - rewrite Hw2. simpl. now rewrite <- app_assoc.
  - now apply Forall_app.
Qed.
End SendsOnly.

Lemma sends_only_weaken {A} (P Q : request -> Prop) (m : M A) :
  (forall rq, P rq -> Q rq) -> sends_only P m -> sends_only Q m.
Proof.
  intros HPQ Hm w. destruct (Hm w) as [new [Hw Hnew]].
  exists new. split; [exact Hw|]. eapply Forall_impl; eauto.
Qed.

Lemma sends_only_getitem P (j : json) (k : string) : sends_only P (getitem j k).
Proof.
  unfold getitem. destruct j; try apply sends_only_raise.
  destruct (Dict.get k members); [apply sends_only_ret | apply sends_only_raise].
Qed.

Lemma sends_only_assert P (b : bool) : sends_only P (assert b).
Proof. destruct b; [apply sends_only_ret | apply sends_only_raise]. Qed.

Lemma sends_only_traverse {A B} P (f : A -> M B) (l : list A) :
  (forall a, sends_only P (f a)) -> sends_only P (traverse f l).
Proof.
  intros Hf. induction l as [|a l IH]; simpl; [apply sends_only_ret|].
  apply sends_only_bind; [apply Hf|]. intros b.
  apply sends_only_bind; [exact IH|]. intros bs. apply sends_only_ret.
Qed.

Lemma getitem_field (j v : json) (k : string) (w : world) :
  field j k = Some v -> getitem j k w = (Return v, w).
Proof.
  destruct j; try discriminate. simpl. now intros ->.
Qed.

Lemma getitem_missing (j : json) (k : string) (w : world) :
  field j k = None -> exists e, getitem j k w = (Raise e, w).
Proof.
  destruct j; simpl; try (intros _; eexists; reflexivity).
  intros ->. eexists; reflexivity.
Qed.

Create HintDb sends discriminated.
#[export] Hint Resolve sends_only_ret sends_only_raise sends_only_spinning
  sends_only_getitem sends_only_assert : sends.

Section HttpFacts.
Variable E : Env.

Lemma send_run (rq : request) (w : world) :
  send E rq w = (Return (server E (length (sent w))), set_sent (sent w ++ [rq]) w).
Proof. reflexivity. Qed.

Lemma sends_only_send (P : request -> Prop) (rq : request) :
  P rq -> sends_only P (send E rq).
Proof. intros Hrq w. exists [rq]. split; [reflexivity|]. now constructor. Qed.

Lemma sends_only_check P (r : response) : sends_only P (check r).
Proof.
  unfold check. destruct (http_error r); [apply sends_only_raise | apply sends_only_ret].
Qed.

Lemma sends_only_post_json (P : request -> Prop) (url : string) (data : Dict.t json) :
  P (json_request E url data) -> sends_only P (post_json E url data).
Proof.
  intros Hrq. unfold post_json.
  apply sends_only_bind.
  - apply sends_only_bind; [now apply sends_only_send|].
    intros r. apply sends_only_check.
  - intros r. unfold response_json.
    destruct (json_loads E (content r)); [apply sends_only_ret | apply sends_only_raise].
Qed.

Lemma post_json_ok (url : string) (data : Dict.t json) (j : json) (w : world) :
  answers E (length (sent w)) j ->
  post_json E url data w =
  (Return j, set_sent (sent w ++ [json_request E url data]) w).
Proof.
  intros [Hok Hjson]. unfold post_json, response_json, check.
  monad_simpl. rewrite send_run, Hok, Hjson. reflexivity.
Qed.

Lemma sends_only_as_url P (j : json) : sends_only P (as_url j).
Proof. destruct j; simpl; auto with sends. Qed.

Lemma sends_only_verify_href P (factor : json) : sends_only P (verify_href factor).
Proof.
  unfold verify_href. repeat (apply sends_only_bind; [auto with sends | intros ?]).
  auto with sends.
Qed.
End HttpFacts.

Section FormFacts.
Variable E : Env.

Lemma input_item_spec (inp : element) (w : world) :
  input_item inp w =
  match name_value inp with
  | Some nv => (Return nv, w)
  | None =>
      (Raise (KeyError (match Dict.get "name" (attrib inp) with
                        | None => "name"
                        | Some _ => "value"
                        end)), w)
  end.
Proof.
  unfold input_item, name_value, attr, bind, ret, raise.
  destruct (Dict.get "name" (attrib inp)); [|reflexivity].
  now destruct (Dict.get "value" (attrib inp)).
Qed.

Lemma traverse_inputs_ok (inputs : list element) (w : world) :
  Forall (fun inp => name_value inp <> None) inputs ->
  traverse input_item inputs w = (Return (omap name_value inputs), w).
Proof.
  induction 1 as [|inp inputs Hinp _ IH]; simpl; [reflexivity|].
  unfold bind. rewrite input_item_spec.
  destruct (name_value inp) as [nv|]; [|congruence].
  now rewrite IH.
Qed.

Lemma traverse_inputs_fail (inputs : list element) (w : world) :
  Exists (fun inp => name_value inp = None) inputs ->
  exists k, traverse input_item inputs w = (Raise (KeyError k), w)
            /\ (k = "name" \/ k = "value").
Proof.
  induction 1 as [inp inputs Hinp | inp inputs _ IH]; simpl; unfold bind;
    rewrite input_item_spec.
  - rewrite Hinp. eexists. split; [reflexivity|].
    destruct (Dict.get "name" (attrib inp)); auto.
  - destruct (name_value inp) as [nv|].
    + destruct IH as [k [-> Hk]]. now exists k.
    + eexists. split; [reflexivity|].
      destruct (Dict.get "name" (attrib inp)); auto.
Qed.

Lemma forall_or_exists_missing (inputs : list element) :
  Forall (fun inp => name_value inp <> None) inputs
  \/ Exists (fun inp => name_value inp = None) inputs.
Proof.
  induction inputs as [|inp inputs [IH|IH]].
  - left. constructor.
  - destruct (name_value inp) eqn:Hnv.
    + left. constructor; [congruence | exact IH].
    + right. now constructor.
  - right. now constructor 2.
Qed.

(** [extract_form] never touches the world and never spins. *)
Lemma extract_form_cases (html : string) (w : world) :
  (exists res, extract_form E html w = (Return res, w))
  \/ (exists e, extract_form E html w = (Raise e, w)).
Proof.
  unfold extract_form.
  destruct (html_fromstring E html) as [root|]; [|right; eexists; reflexivity].
  destruct (find_descendant "form" root) as [form|]; [|right; eexists; reflexivity].
  unfold attr.
  destruct (Dict.get "action" (attrib form)); [|right; eexists; reflexivity].
  destruct (forall_or_exists_missing (findall "input" form)) as [H|H].
  - left. monad_simpl. rewrite (traverse_inputs_ok _ _ H). eexists; reflexivity.
  - right. monad_simpl.
    destruct (traverse_inputs_fail _ w H) as [k [-> _]]. eexists; reflexivity.
Qed.
End FormFacts.

(** C3 (as amended): the mapping [extract_form] returns is built from the
    children of the first form that are inputs; with the action present
    and a name and a value on each of them, the result is the action and
    the map obtained by inserting their pairs in document order, so that
    a later duplicate name overrides an earlier one. *)
Theorem extract_form_child_inputs (E : Env) (html : string) (w : world)
        (root form : element) (action : string) :
  html_fromstring E html = Some root ->
  List.find (has_tag "form") (descendants root) = Some form ->
  Dict.get "action" (attrib form) = Some action ->
  Forall (fun inp => name_value inp <> None) (findall "input" form) ->
  exists fields,
    extract_form E html w = (Return (action, fields), w)
    /\ Dict.to_gmap fields = child_fields form
    /\ forall name,
         Dict.get name fields =
         Dict.get name (rev (omap name_value (findall "input" form))).
Proof.
  intros Hparse Hform Haction Hinputs.
  exists (Dict.of_items (omap name_value (findall "input" form))).
  split; [|split].
  - unfold extract_form. rewrite Hparse, find_descendant_spec, Hform.
    unfold attr. rewrite Haction. monad_simpl.
    now rewrite (traverse_inputs_ok _ _ Hinputs).
  - apply dict_of_items_insert_all.
  - intros name. apply dict_get_of_items.
Qed.

Lemma extract_form_child_inputs_witness :
  exists fields,
    extract_form (Scenario.scripted []) "request-page"
                 (initial_world (Scenario.scripted []))
    = (Return ("https://idp.example/sso", fields),
       initial_world (Scenario.scripted []))
    /\ Dict.to_gmap fields = child_fields Scenario.request_form
    /\ Dict.get "RelayState" fields = Some "two".
Proof.
  destruct (extract_form_child_inputs (Scenario.scripted []) "request-page"
              (initial_world (Scenario.scripted []))
              (Scenario.page Scenario.request_form) Scenario.request_form
              "https://idp.example/sso")
    as [fields [Hrun [Hmap Hget]]].
  - reflexivity.
  - reflexivity.
  - reflexivity.
  - repeat constructor; discriminate.
  - exists fields. split; [exact Hrun|]. split; [exact Hmap|].
    rewrite Hget. reflexivity.
Defined.

(** C3 (as stated) fails: an input nested below a child of the form is a
    descendant of the form, yet it is left out of the mapping. *)
Lemma extract_form_skips_nested_input :
  extract_form (Scenario.scripted []) "nested-page"
               (initial_world (Scenario.scripted []))
  = (Return ("https://idp.example/sso", []),
     initial_world (Scenario.scripted []))
  /\ List.find (has_tag "form") (descendants (Scenario.page Scenario.nested_form))
     = Some Scenario.nested_form
  /\ descendant_fields Scenario.nested_form !! "SAMLRequest" = Some "abc"
  /\ Dict.to_gmap (V:=string) [] !! "SAMLRequest" = None.
Proof.
  split; [reflexivity|]. split; [reflexivity|]. split; [|reflexivity].
  unfold descendant_fields, insert_all. simpl. apply lookup_insert_eq.
Qed.

(** C10: an input child of the first form without a name or without a
    value makes [extract_form] raise [KeyError]; a mapping is returned
    exactly when the action and, on every input child, both attributes
    are there. *)
Theorem extract_form_partial (E : Env) (html : string) (w : world)
        (root form : element) :
  html_fromstring E html = Some root ->
  List.find (has_tag "form") (descendants root) = Some form ->
  (Exists (fun inp => name_value inp = None) (findall "input" form) ->
   exists k, extract_form E html w = (Raise (KeyError k), w))
  /\ ((exists res, extract_form E html w = (Return res, w)) <->
      (Dict.get "action" (attrib form) <> None
       /\ Forall (fun inp => name_value inp <> None) (findall "input" form))).
Proof.
  intros Hparse Hform.
  assert (Hrun : extract_form E html w =
                 (action <- attr form "action" ;;
                  items <- traverse input_item (findall "input" form) ;;
                  ret (action, Dict.of_items items)) w).
  { unfold extract_form. now rewrite Hparse, find_descendant_spec, Hform. }
  rewrite Hrun. unfold attr. split.
  - intros Hmissing.
    destruct (Dict.get "action" (attrib form)); [|eexists; reflexivity].
    monad_simpl.
    destruct (traverse_inputs_fail _ w Hmissing) as [k [-> _]].
    eexists; reflexivity.
  - split.
    + intros [res Hres].
      destruct (Dict.get "action" (attrib form)); [|discriminate].
      split; [discriminate|]. revert Hres. monad_simpl.
      destruct (forall_or_exists_missing (findall "input" form)) as [H|H];
        [intros _; exact H|].
      destruct (traverse_inputs_fail _ w H) as [k [-> _]]. discriminate.
    + intros [Haction Hall].
      destruct (Dict.get "action" (attrib form)); [|congruence].
      monad_simpl. rewrite (traverse_inputs_ok _ _ Hall). eexists; reflexivity.
Qed.

Lemma extract_form_partial_witness :
  exists k,
    extract_form (Scenario.scripted []) "bare-page"
                 (initial_world (Scenario.scripted []))
    = (Raise (KeyError k), initial_world (Scenario.scripted [])).
Proof.
  apply (extract_form_partial (Scenario.scripted []) "bare-page"
           (initial_world (Scenario.scripted []))
           (Scenario.page Scenario.bare_form) Scenario.bare_form).
  - reflexivity.
  - reflexivity.
  - constructor 2. constructor. reflexivity.
Defined.

(* ===================================================================== *)
(** ** The bodies of the verify requests *)
(* ===================================================================== *)

(** One step through a [bind] whose first part is a lookup or an
    assertion. *)
Ltac step := apply sends_only_bind; [auto with sends | intros ?].

Section VerifyBodies.
Variable E : Env.


Lemma sends_only_push_loop (fuel : nat) (url r : json) :
  sends_only
    (fun rq => body_field rq "rememberDevice" = Some (JBool true)
               /\ body_field rq "stateToken" <> None)
    (push_loop E fuel url r).
Proof.
  revert r. induction fuel as [|fuel IH]; intros r; simpl; [auto with sends|].
  step. apply sends_only_bind; [apply sends_only_as_url | intros u].
  apply sends_only_bind.
  - apply sends_only_post_json. split; [reflexivity | discriminate].
  - intros r'. step.
    destruct (negb (str_eq _ "MFA_CHALLENGE")); [auto with sends|].
    step. step. apply IH.
Qed.

Lemma sends_only_one_time_code P (totp_key : option string) (factor : json) :
  sends_only P (one_time_code E totp_key factor).
Proof.
  unfold one_time_code. step.
  destruct (str_eq _ "token:software:totp"), totp_key as [key|];
    try (step; step; auto with sends).
  destruct (pyotp E) as [now|]; [|auto with sends].
  destruct (now key); auto with sends.
Qed.

Lemma sends_only_sms_branch (factor r : json) :
  sends_only
    (fun rq => body_field rq "rememberDevice" = None
               /\ body_field rq "stateToken" <> None)
    (sms_branch E factor r).
Proof.
  unfold sms_branch.
  apply sends_only_bind; [apply sends_only_verify_href | intros url].
  step. apply sends_only_bind; [apply sends_only_as_url | intros u].
  apply sends_only_bind;
    [apply sends_only_post_json; split; [reflexivity | discriminate] | intros r'].
  step. step. step.
  apply sends_only_bind; [apply sends_only_as_url | intros u'].
  apply sends_only_post_json; split; [reflexivity | discriminate].
Qed.

Lemma sends_only_token_branch (totp_key : option string) (factor r : json) :
  sends_only
    (fun rq => body_field rq "rememberDevice" = None
               /\ body_field rq "stateToken" <> None)
    (token_branch E totp_key factor r).
Proof.
  unfold token_branch.
  apply sends_only_bind; [apply sends_only_verify_href | intros url].
  step. apply sends_only_bind; [apply sends_only_as_url | intros u].
  apply sends_only_bind;
    [apply sends_only_post_json; split; [reflexivity | discriminate] | intros r'].
  step. step.
  apply sends_only_bind; [apply sends_only_one_time_code | intros code].
  step.
  apply sends_only_bind; [apply sends_only_as_url | intros u'].
  apply sends_only_post_json; split; [reflexivity | discriminate].
Qed.
Lemma sends_only_push_branch (fuel : nat) (factor r : json) :
  sends_only
    (fun rq => body_field rq "rememberDevice" = Some (JBool true)
               /\ body_field rq "stateToken" <> None)
    (push_branch E fuel factor r).
Proof.
  unfold push_branch.
  apply sends_only_bind; [apply sends_only_verify_href | intros url].
  apply sends_only_push_loop.
Qed.
End VerifyBodies.

(** C9: every request the push branch sends carries the state token and
    [rememberDevice] set to true; the requests of the sms and token
    branches carry the state token and no [rememberDevice] field. *)
Theorem remember_device_only_on_push (E : Env) (fuel : nat)
        (totp_key : option string) (factor r : json) :
  sends_only
    (fun rq => body_field rq "rememberDevice" = Some (JBool true)
               /\ body_field rq "stateToken" <> None)
    (push_branch E fuel factor r)
  /\ sends_only
       (fun rq => body_field rq "rememberDevice" = None
                  /\ body_field rq "stateToken" <> None)
       (sms_branch E factor r)
  /\ sends_only
       (fun rq => body_field rq "rememberDevice" = None
                  /\ body_field rq "stateToken" <> None)
       (token_branch E totp_key factor r).
Proof.
  split; [|split].
  - apply sends_only_push_branch.
  - apply sends_only_sms_branch.
  - apply sends_only_token_branch.
Qed.

(* ===================================================================== *)
(** ** [sorted]: a stable sort *)
(* ===================================================================== *)

Section StableSort.
Context {A : Type}.
Implicit Types (x : nat * A) (l : list (nat * A)).

Lemma insert_by_skip x l1 l2 :
  Forall (fun y => (fst y < fst x)%nat) l1 ->
  insert_by x (l1 ++ l2) = l1 ++ insert_by x l2.
Proof.
  induction 1 as [|y l1 Hy _ IH]; simpl; [reflexivity|].
  destruct (Nat.leb_spec (fst x) (fst y)); [lia|]. now rewrite IH.
Qed.

Lemma insert_by_front x l :
  Forall (fun y => (fst x <= fst y)%nat) l -> insert_by x l = x :: l.
Proof.
  destruct 1 as [|y l Hy _]; simpl; [reflexivity|].
  destruct (Nat.leb_spec (fst x) (fst y)); [reflexivity | lia].
Qed.

Lemma Forall_filter_key (n : nat) l :
  Forall (fun y => fst y = n) (List.filter (key_is n) l).
Proof.
  apply List.Forall_forall. intros y Hy. apply List.filter_In in Hy.
  destruct Hy as [_ Hy]. now apply Nat.eqb_eq in Hy.
Qed.

(** Insertion keeps the items of every key in the order they had, the
    new item in front of those of its own key. *)
Lemma filter_insert_by (n : nat) x l :
  List.filter (key_is n) (insert_by x l) = List.filter (key_is n) (x :: l).
Proof.
  induction l as [|y l IH]; [reflexivity|].
  simpl insert_by. destruct (fst x <=? fst y)%nat eqn:Hle; [reflexivity|].
  apply Nat.leb_gt in Hle.
  simpl List.filter at 1. rewrite IH. simpl. unfold key_is.
  destruct (Nat.eqb_spec (fst x) n), (Nat.eqb_spec (fst y) n); try reflexivity.
  lia.
Qed.

(** [stable_sort] is stable: for every key, the items of that key come
    out in the order they went in. *)
Lemma stable_sort_stable (n : nat) l :
  List.filter (key_is n) (stable_sort l) = List.filter (key_is n) l.
Proof.
  induction l as [|x l IH]; [reflexivity|].
  simpl stable_sort. rewrite filter_insert_by. simpl. now rewrite IH.
Qed.

Lemma insert_by_ascending x l :
  StronglySorted (fun a b => (fst a <= fst b)%nat) l ->
  StronglySorted (fun a b => (fst a <= fst b)%nat) (insert_by x l).
Proof.
  induction 1 as [|y l Hl IH Hy]; simpl.
  - constructor; constructor.
  - destruct (Nat.leb_spec (fst x) (fst y)).
    + constructor; [now constructor|].
      constructor; [assumption|].
      eapply List.Forall_impl; [|exact Hy]. simpl. intros; lia.
    + constructor; [exact IH|].
      apply List.Forall_forall. intros z Hz.
      assert (Hin : In z (x :: l)).
      { clear -Hz. induction l as [|u l IHl]; simpl in *.
        - tauto.
        - destruct (fst x <=? fst u)%nat; simpl in *; tauto. }
      destruct Hin as [<-|Hin]; [lia|].
      rewrite List.Forall_forall in Hy. now apply Hy.
Qed.

(** [stable_sort] sorts: the keys come out in ascending order. *)
Lemma stable_sort_ascending l :
  StronglySorted (fun a b => (fst a <= fst b)%nat) (stable_sort l).
Proof.
  induction l as [|x l IH]; simpl; [constructor|].
  now apply insert_by_ascending.
Qed.

(** With keys 0, 1 and 2 only, the sorted list is the three tiers one
    after the other. *)
Lemma stable_sort_three_tiers l :
  Forall (fun y => (fst y <= 2)%nat) l ->
  stable_sort l =
  List.filter (key_is 0) l ++ List.filter (key_is 1) l ++ List.filter (key_is 2) l.
Proof.
  induction 1 as [|x l Hx _ IH]; [reflexivity|].
  simpl stable_sort. rewrite IH. simpl List.filter.
  change (key_is 0 x) with (Nat.eqb (fst x) 0).
  change (key_is 1 x) with (Nat.eqb (fst x) 1).
  change (key_is 2 x) with (Nat.eqb (fst x) 2).
  assert (Hcases : fst x = 0%nat \/ fst x = 1%nat \/ fst x = 2%nat) by lia.
  destruct Hcases as [Hk|[Hk|Hk]]; rewrite Hk; simpl.
  - apply insert_by_front. rewrite Hk.
    apply List.Forall_forall. intros; lia.
  - rewrite insert_by_skip.
    + f_equal. apply insert_by_front. rewrite Hk.
      apply Forall_app. split.
      * eapply List.Forall_impl; [|apply Forall_filter_key]. simpl. intros; lia.
      * eapply List.Forall_impl; [|apply Forall_filter_key]. simpl. intros; lia.
    + eapply List.Forall_impl; [|apply Forall_filter_key]. simpl. intros; lia.
  - rewrite insert_by_skip.
    + f_equal. rewrite insert_by_skip.
      * f_equal. apply insert_by_front. rewrite Hk.
        eapply List.Forall_impl; [|apply Forall_filter_key]. simpl. intros; lia.
      * eapply List.Forall_impl; [|apply Forall_filter_key]. simpl. intros; lia.
    + eapply List.Forall_impl; [|apply Forall_filter_key]. simpl. intros; lia.
Qed.

Lemma filter_combine_key (g : A -> nat) (n : nat) (items : list A) :
  map snd (List.filter (key_is n) (combine (map g items) items)) =
  List.filter (fun a => Nat.eqb (g a) n) items.
Proof.
  induction items as [|a items IH]; [reflexivity|].
  simpl. unfold key_is at 1. simpl.
  destruct (Nat.eqb (g a) n); simpl; now rewrite IH.
Qed.
End StableSort.

(* ===================================================================== *)
(** ** The choice of a factor *)
(* ===================================================================== *)

Lemma factor_type_field (factor : json) (s : string) :
  factor_type factor = Some s -> field factor "factorType" = Some (JStr s).
Proof.
  unfold factor_type. destruct (field factor "factorType") as [[]|]; congruence.
Qed.

Lemma typed_factor_type (factor : json) :
  typed_factor factor = true -> exists s, factor_type factor = Some s.
Proof.
  unfold typed_factor. destruct (factor_type factor) as [s|]; [eauto | discriminate].
Qed.

Lemma rank_le_2 (totp_key : option string) (ft : string) : (rank totp_key ft <= 2)%nat.
Proof.
  unfold rank. destruct (String.eqb ft "token:software:totp"), totp_key,
    (String.eqb ft "push"); lia.
Qed.

Lemma factor_rank_le_2 (totp_key : option string) (factor : json) :
  (factor_rank totp_key factor <= 2)%nat.
Proof.
  unfold factor_rank. destruct (factor_type factor); [apply rank_le_2 | lia].
Qed.

Lemma find_filter {A} (p q : A -> bool) (l : list A) :
  List.find p (List.filter q l) = List.find (fun a => q a && p a) l.
Proof.
  induction l as [|a l IH]; [reflexivity|]. simpl.
  destruct (q a); simpl; [|exact IH]. destruct (p a); [reflexivity | exact IH].
Qed.

Lemma find_some_split {A} (p : A -> bool) (l : list A) (a : A) :
  List.find p l = Some a ->
  p a = true /\ exists l1 l2, l = l1 ++ a :: l2 /\ Forall (fun b => p b = false) l1.
Proof.
  induction l as [|b l IH]; [discriminate|]. simpl.
  destruct (p b) eqn:Hb.
  - intros [= <-]. split; [exact Hb|]. exists [], l. split; [reflexivity | constructor].
  - intros Hfind. destruct (IH Hfind) as [Ha [l1 [l2 [-> Hl1]]]].
    split; [exact Ha|]. exists (b :: l1), l2. split; [reflexivity|].
    now constructor.
Qed.

Lemma find_none_forall {A} (p : A -> bool) (l : list A) :
  List.find p l = None <-> Forall (fun b => p b = false) l.
Proof.
  induction l as [|b l IH]; simpl.
  - split; [constructor | reflexivity].
  - destruct (p b) eqn:Hb.
    + split; [discriminate|]. inversion 1; congruence.
    + rewrite IH. split; [now constructor | now inversion 1].
Qed.

Section Selection.
Variable E : Env.
Variable totp_key : option string.

Lemma priority_typed (factor : json) (s : string) (w : world) :
  factor_type factor = Some s ->
  priority totp_key factor w = (Return (rank totp_key s), w).
Proof.
  intros Hty. unfold priority.
  rewrite (bind_return _ _ w w (JStr s))
    by (apply getitem_field, factor_type_field, Hty).
  reflexivity.
Qed.

Lemma traverse_priority (factors : list json) (w : world) :
  Forall (fun f => typed_factor f = true) factors ->
  traverse (priority totp_key) factors w =
  (Return (map (factor_rank totp_key) factors), w).
Proof.
  induction 1 as [|f factors Hf _ IH]; [reflexivity|].
  destruct (typed_factor_type f Hf) as [s Hs]. simpl.
  rewrite (bind_return _ _ w w (rank totp_key s)) by now apply priority_typed.
  rewrite (bind_return _ _ w w _ IH).
  replace (factor_rank totp_key f) with (rank totp_key s)
    by (unfold factor_rank; now rewrite Hs).
  reflexivity.
Qed.

Lemma combine_ranks_le_2 (factors : list json) :
  Forall (fun y : nat * json => (fst y <= 2)%nat)
         (combine (map (factor_rank totp_key) factors) factors).
Proof.
  induction factors as [|f factors IH]; simpl; constructor;
    [apply factor_rank_le_2 | exact IH].
Qed.

(** [sorted(factors, key=priority)] is the list of the three tiers. *)
Lemma sorted_by_rank (factors : list json) (w : world) :
  Forall (fun f => typed_factor f = true) factors ->
  sorted (priority totp_key) factors w = (Return (by_rank totp_key factors), w).
Proof.
  intros Hty. unfold sorted.
  rewrite (bind_return _ _ w w _ (traverse_priority factors w Hty)).
  unfold ret. f_equal. f_equal.
  rewrite stable_sort_three_tiers by apply combine_ranks_le_2.
  rewrite !map_app, !filter_combine_key. reflexivity.
Qed.

Lemma by_rank_typed (factors : list json) :
  Forall (fun f => typed_factor f = true) factors ->
  Forall (fun f => typed_factor f = true) (by_rank totp_key factors).
Proof.
  intros Hty. rewrite List.Forall_forall in Hty.
  unfold by_rank. apply List.Forall_forall. intros f Hf.
  rewrite !in_app_iff, !List.filter_In in Hf. apply Hty. tauto.
Qed.

(** The loop runs the branch of the first factor it has a branch for,
    and raises when there is none. *)
Lemma for_factors_find (fuel : nat) (r : json) (factors : list json) (w : world) :
  Forall (fun f => typed_factor f = true) factors ->
  for_factors E fuel totp_key r factors w =
  match List.find supported factors with
  | Some f => run_factor E fuel totp_key f r w
  | None => (Raise (Exception "No supported authentication factors"), w)
  end.
Proof.
  induction 1 as [|f factors Hf _ IH]; [reflexivity|].
  destruct (typed_factor_type f Hf) as [s Hs].
  pose proof (factor_type_field f s Hs) as Hfield.
  assert (Hsup : supported f =
                 String.eqb s "push" || String.eqb s "sms" || re_match_token s)
    by (unfold supported; now rewrite Hs).
  assert (Hrun : run_factor E fuel totp_key f r =
                 if String.eqb s "push" then push_branch E fuel f r
                 else if String.eqb s "sms" then sms_branch E f r
                 else token_branch E totp_key f r)
    by (unfold run_factor; now rewrite Hs).
  cbn [for_factors List.find]. rewrite Hsup.
  rewrite (bind_return _ _ w w (JStr s)) by now apply getitem_field.
  cbn [str_eq]. destruct (String.eqb s "push") eqn:Hpush.
  { cbn [orb]. now rewrite Hrun. }
  rewrite (bind_return _ _ w w (JStr s)) by now apply getitem_field.
  cbn [str_eq]. destruct (String.eqb s "sms") eqn:Hsms.
  { cbn [orb]. now rewrite Hrun. }
  rewrite (bind_return _ _ w w (JStr s)) by now apply getitem_field.
  cbn [re_match_token_json]. rewrite (bind_return _ _ w w (re_match_token s))
    by reflexivity.
  destruct (re_match_token s); cbn [orb].
  - now rewrite Hrun.
  - exact IH.
Qed.

Lemma chosen_factor_tiers (factors : list json) :
  chosen_factor totp_key factors =
  match List.find (fun f => has_rank totp_key 0 f && supported f) factors with
  | Some f => Some f
  | None =>
      match List.find (fun f => has_rank totp_key 1 f && supported f) factors with
      | Some f => Some f
      | None => List.find (fun f => has_rank totp_key 2 f && supported f) factors
      end
  end.
Proof.
  unfold chosen_factor, by_rank. now rewrite !find_app_first, !find_filter.
Qed.

(** The chosen factor has a branch, and among the factors that have
    one it has the least rank and is the first of that rank. *)
Lemma chosen_factor_least (factors : list json) (f : json) :
  chosen_factor totp_key factors = Some f ->
  supported f = true
  /\ exists before after,
       factors = before ++ f :: after
       /\ Forall (fun g => supported g = true ->
                           (factor_rank totp_key f < factor_rank totp_key g)%nat)
                 before
       /\ Forall (fun g => supported g = true ->
                           (factor_rank totp_key f <= factor_rank totp_key g)%nat)
                 after.
Proof.
  rewrite chosen_factor_tiers.
  destruct (List.find (fun f => has_rank totp_key 0 f && supported f) factors)
    as [f0|] eqn:H0;
    [|destruct (List.find (fun f => has_rank totp_key 1 f && supported f) factors)
        as [f1|] eqn:H1].
  - intros [= <-]. apply find_some_split in H0.
    destruct H0 as [Hf [before [after [-> Hbefore]]]].
    apply andb_prop in Hf. destruct Hf as [Hrank Hsup].
    apply Nat.eqb_eq in Hrank. split; [exact Hsup|].
    exists before, after. split; [reflexivity|]. split.
    + eapply List.Forall_impl; [|exact Hbefore]. simpl. intros g Hg Hs.
      rewrite Hs, andb_true_r in Hg. apply Nat.eqb_neq in Hg. lia.
    + apply List.Forall_forall. intros; lia.
  - intros [= <-]. apply find_none_forall in H0. apply find_some_split in H1.
    destruct H1 as [Hf [before [after [-> Hbefore]]]].
    apply andb_prop in Hf. destruct Hf as [Hrank Hsup].
    apply Nat.eqb_eq in Hrank. split; [exact Hsup|].
    apply Forall_app in H0. destruct H0 as [H0b H0a].
    inversion H0a as [|? ? _ H0a']; subst.
    exists before, after. split; [reflexivity|]. split.
    + rewrite List.Forall_forall in *. intros g Hg Hs.
      specialize (Hbefore g Hg). specialize (H0b g Hg). simpl in *.
      rewrite Hs, andb_true_r in *.
      apply Nat.eqb_neq in Hbefore. apply Nat.eqb_neq in H0b. lia.
    + rewrite List.Forall_forall in *. intros g Hg Hs.
      specialize (H0a' g Hg). simpl in *. rewrite Hs, andb_true_r in *.
      apply Nat.eqb_neq in H0a'. lia.
  - intros H2. apply find_none_forall in H0. apply find_none_forall in H1.
    apply find_some_split in H2.
    destruct H2 as [Hf [before [after [-> Hbefore]]]].
    apply andb_prop in Hf. destruct Hf as [Hrank Hsup].
    apply Nat.eqb_eq in Hrank. split; [exact Hsup|].
    apply Forall_app in H0. destruct H0 as [H0b H0a].
    apply Forall_app in H1. destruct H1 as [H1b H1a].
    exists before, after. split; [reflexivity|]. split.
    + rewrite List.Forall_forall in *. intros g Hg Hs.
      specialize (Hbefore g Hg). specialize (H0b g Hg). specialize (H1b g Hg).
      simpl in *. rewrite Hs, andb_true_r in *.
      apply Nat.eqb_neq in Hbefore. apply Nat.eqb_neq in H0b.
      apply Nat.eqb_neq in H1b.
      pose proof (factor_rank_le_2 totp_key g). lia.
    + rewrite List.Forall_forall in *. intros g Hg Hs.
      specialize (H0a g (or_intror Hg)). specialize (H1a g (or_intror Hg)).
      simpl in *. rewrite Hs, andb_true_r in *.
      apply Nat.eqb_neq in H0a. apply Nat.eqb_neq in H1a. lia.
Qed.

Lemma chosen_factor_none (factors : list json) :
  chosen_factor totp_key factors = None <->
  Forall (fun g => supported g = false) factors.
Proof.
  unfold chosen_factor. rewrite find_none_forall. unfold by_rank.
  rewrite !List.Forall_forall. split.
  - intros H g Hg. apply H. rewrite !in_app_iff, !List.filter_In.
    unfold has_rank. pose proof (factor_rank_le_2 totp_key g).
    destruct (Nat.eqb_spec (factor_rank totp_key g) 0); [tauto|].
    destruct (Nat.eqb_spec (factor_rank totp_key g) 1); [tauto|].
    destruct (Nat.eqb_spec (factor_rank totp_key g) 2); [tauto|]. lia.
  - intros H g Hg. apply H. rewrite !in_app_iff, !List.filter_In in Hg. tauto.
Qed.

(** A factor with a branch that outranks every other such factor is
    the chosen one. *)
Lemma chosen_factor_unique_least (factors : list json) (f : json) :
  In f factors ->
  supported f = true ->
  (forall g, In g factors -> supported g = true ->
             g = f \/ (factor_rank totp_key f < factor_rank totp_key g)%nat) ->
  chosen_factor totp_key factors = Some f.
Proof.
  intros Hin Hsup Hleast.
  destruct (chosen_factor totp_key factors) as [f'|] eqn:Hchosen.
  - destruct (chosen_factor_least _ _ Hchosen)
      as [Hsup' [before [after [-> [Hbefore Hafter]]]]].
    rewrite List.Forall_forall in Hbefore, Hafter.
    destruct (Hleast f') as [->|Hlt]; [|exact Hsup'|reflexivity|].
    { rewrite in_app_iff. right. now left. }
    exfalso. rewrite in_app_iff in Hin. destruct Hin as [Hin|[->|Hin]].
    + specialize (Hbefore f Hin Hsup). lia.
    + lia.
    + specialize (Hafter f Hin Hsup). lia.
  - apply chosen_factor_none in Hchosen. rewrite List.Forall_forall in Hchosen.
    specialize (Hchosen f Hin). congruence.
Qed.
End Selection.

(* ===================================================================== *)
(** ** The authentication engine *)
(* ===================================================================== *)

Section Engine.
Variable E : Env.

(** After an [MFA_REQUIRED] answer the engine runs the branch of the
    chosen factor, or raises when no factor has a branch. *)
Lemma okta_auth_mfa_required (fuel : nat) (domain username password : string)
      (totp_key : option string) (r : json) (factors : list json) (w : world) :
  answers E (length (sent w)) r ->
  offers r factors ->
  Forall (fun f => typed_factor f = true) factors ->
  okta_auth E fuel domain username password totp_key w =
  (r' <- match chosen_factor totp_key factors with
         | Some f => run_factor E fuel totp_key f r
         | None => raise (Exception "No supported authentication factors")
         end ;;
   status <- getitem r' "status" ;;
   assert (str_eq status "SUCCESS") ;;;
   getitem r' "sessionToken")
    (set_sent (sent w ++ [primary_request E domain username password]) w).
Proof.
  intros Hr [Hstatus [embedded [Hemb Hfactors]]] Hty.
  unfold okta_auth.
  rewrite (bind_return _ _ w _ r (post_json_ok E _ _ r w Hr)).
  set (w1 := set_sent _ w).
  rewrite (bind_return _ _ w1 w1 _ (getitem_field _ _ _ w1 Hstatus)).
  cbn [str_eq]. rewrite String.eqb_refl.
  assert (Hloop :
            (embedded <- getitem r "_embedded" ;;
             factors <- getitem embedded "factors" ;;
             items <- iter factors ;;
             ordered <- sorted (priority totp_key) items ;;
             for_factors E fuel totp_key r ordered) w1 =
            match chosen_factor totp_key factors with
            | Some f => run_factor E fuel totp_key f r
            | None => raise (Exception "No supported authentication factors")
            end w1).
  { rewrite (bind_return _ _ w1 w1 _ (getitem_field _ _ _ w1 Hemb)).
    rewrite (bind_return _ _ w1 w1 _ (getitem_field _ _ _ w1 Hfactors)).
    cbn [iter]. rewrite (bind_return _ _ w1 w1 factors) by reflexivity.
    rewrite (bind_return _ _ w1 w1 _ (sorted_by_rank totp_key factors w1 Hty)).
    rewrite (for_factors_find E totp_key fuel r _ w1 (by_rank_typed totp_key _ Hty)).
    unfold chosen_factor.
    now destruct (List.find supported (by_rank totp_key factors)). }
  unfold bind at 1. rewrite Hloop. reflexivity.
Qed.

Lemma last_cons (c r : json) (polls : list json) :
  List.last (c :: polls) r = List.last polls c.
Proof.
  revert c r. induction polls as [|c' polls IH]; intros c r; [reflexivity|].
  change (List.last (c :: c' :: polls) r) with (List.last (c' :: polls) r).
  now rewrite !IH.
Qed.

Lemma push_loop_waiting (url : string) (polls : list json) :
  forall (fuel : nat) (r : json) (w : world),
    field r "stateToken" <> None ->
    Forall waiting polls ->
    plays E (length (sent w)) polls ->
    push_loop E (length polls + fuel) (JStr url) r w =
    push_loop E fuel (JStr url) (List.last polls r)
              (set_sent (sent w ++ poll_requests E url r polls) w).
Proof.
  induction polls as [|c polls IH]; intros fuel r w Htoken Hwaiting Hplays.
  - simpl. now rewrite app_nil_r, set_sent_same.
  - inversion Hwaiting as [|? ? [Hstatus [Hresult Hnext]] Hrest]; subst.
    destruct Hplays as [Hc Hplays].
    destruct (field r "stateToken") as [t|] eqn:Ht; [|congruence].
    cbn [length Nat.add push_loop].
    rewrite (bind_return _ _ w w t) by now apply getitem_field.
    cbn [as_url]. rewrite (bind_return _ _ w w url) by reflexivity.
    rewrite (bind_return _ _ w _ c (post_json_ok E _ _ c w Hc)).
    set (w1 := set_sent _ w).
    rewrite (bind_return _ _ w1 w1 _ (getitem_field _ _ _ w1 Hstatus)).
    cbn [str_eq]. rewrite String.eqb_refl. cbn [negb].
    rewrite (bind_return _ _ w1 w1 _ (getitem_field _ _ _ w1 Hresult)).
    cbn [str_eq]. rewrite String.eqb_refl. cbn [assert].
    rewrite (bind_return _ _ w1 w1 tt) by reflexivity.
    rewrite IH; [| exact Hnext | exact Hrest |].
    + f_equal.
      * now rewrite last_cons.
      * subst w1. rewrite set_sent_app, <- app_assoc.
        cbn [poll_requests]. unfold state_token, poll_request. now rewrite Ht.
    + subst w1. simpl. rewrite length_app. simpl.
      now replace (length (sent w) + 1)%nat with (S (length (sent w))) by lia.
Qed.

Lemma plays_app (n : nat) (js1 js2 : list json) :
  plays E n (js1 ++ js2) <-> plays E n js1 /\ plays E (n + length js1) js2.
Proof.
  revert n. induction js1 as [|j js1 IH]; intros n; simpl.
  - rewrite Nat.add_0_r. tauto.
  - rewrite IH. replace (n + S (length js1))%nat with (S n + length js1)%nat by lia.
    tauto.
Qed.

Lemma poll_requests_app (url : string) (r : json) (polls : list json) (c : json) :
  poll_requests E url r (polls ++ [c]) =
  poll_requests E url r polls
  ++ [poll_request E url (state_token (List.last polls r))].
Proof.
  revert r. induction polls as [|c' polls IH]; intros r; [reflexivity|].
  cbn [app poll_requests]. now rewrite IH, last_cons.
Qed.

Lemma poll_requests_length (url : string) (r : json) (polls : list json) :
  length (poll_requests E url r polls) = length polls.
Proof.
  revert r. induction polls as [|c polls IH]; intros r; simpl; [reflexivity|].
  now rewrite IH.
Qed.

Lemma last_token (polls : list json) (r : json) :
  field r "stateToken" <> None ->
  Forall waiting polls ->
  field (List.last polls r) "stateToken" <> None.
Proof.
  intros Hr Hpolls. revert r Hr.
  induction Hpolls as [|c polls [_ [_ Hc]] _ IH]; intros r Hr; [exact Hr|].
  rewrite last_cons. apply (IH c Hc).
Qed.

(** The last round of the loop, which receives [rf]. *)
Lemma push_loop_last (fuel : nat) (url : string) (r rf : json) (w : world) :
  field r "stateToken" <> None ->
  answers E (length (sent w)) rf ->
  push_loop E (S fuel) (JStr url) r w =
  (status <- getitem rf "status" ;;
   if negb (str_eq status "MFA_CHALLENGE") then ret rf
   else
     factor_result <- getitem rf "factorResult" ;;
     assert (str_eq factor_result "WAITING") ;;;
     push_loop E fuel (JStr url) rf)
    (set_sent (sent w ++ [poll_request E url (state_token r)]) w).
Proof.
  intros Htoken Hrf.
  destruct (field r "stateToken") as [t|] eqn:Ht; [|congruence].
  cbn [push_loop].
  rewrite (bind_return _ _ w w t) by now apply getitem_field.
  cbn [as_url]. rewrite (bind_return _ _ w w url) by reflexivity.
  rewrite (bind_return _ _ w _ rf (post_json_ok E _ _ rf w Hrf)).
  unfold state_token, poll_request. now rewrite Ht.
Qed.
End Engine.

(* ===================================================================== *)
(** ** The login phase only talks to the network *)
(* ===================================================================== *)

Section LoginFrame.
Variable E : Env.
Local Abbreviation any := (fun _ : request => True).


Lemma sends_only_any {A} (P : request -> Prop) (m : M A) :
  sends_only P m -> sends_only any m.
Proof. apply sends_only_weaken. auto. Qed.

Lemma sends_only_extract_form (html : string) : sends_only any (extract_form E html).
Proof.
  intros w. exists []. rewrite app_nil_r, set_sent_same. split; [|constructor].
  destruct (extract_form_cases E html w) as [[res ->]|[e ->]]; reflexivity.
Qed.

Lemma sends_only_fetch (rq : request) :
  sends_only any (r <- send E rq ;; check r).
Proof.
  apply sends_only_bind; [now apply sends_only_send|].
  intros r. apply sends_only_check.
Qed.

Lemma sends_only_prelogin (gateway : string) : sends_only any (prelogin E gateway).
Proof.
  unfold prelogin. apply sends_only_bind; [apply sends_only_fetch | intros r].
  destruct (xml_fromstring E (content r)) as [root|]; [|auto with sends].
  destruct (find_child "saml-request" root) as [node|]; [|auto with sends].
  destruct (text node) as [encoded|]; [|auto with sends].
  destruct (b64decode E encoded) as [html|]; [|auto with sends].
  apply sends_only_bind; [apply sends_only_extract_form | intros form].
  step. auto with sends.
Qed.

Lemma sends_only_priority (totp_key : option string) (factor : json) :
  sends_only any (priority totp_key factor).
Proof.
  unfold priority. step. destruct a; auto with sends.
Qed.

Lemma sends_only_for_factors (fuel : nat) (totp_key : option string) (r : json)
      (factors : list json) :
  sends_only any (for_factors E fuel totp_key r factors).
Proof.
  induction factors as [|f factors IH]; simpl; [auto with sends|].
  step. destruct (str_eq _ "push").
  { eapply sends_only_any, sends_only_push_branch. }
  step. destruct (str_eq _ "sms").
  { eapply sends_only_any, sends_only_sms_branch. }
  step. apply sends_only_bind.
  { unfold re_match_token_json. destruct a1; auto with sends. }
  intros m. destruct m; [|exact IH].
  eapply sends_only_any, sends_only_token_branch.
Qed.

Lemma sends_only_okta_auth (fuel : nat) (domain username password : string)
      (totp_key : option string) :
  sends_only any (okta_auth E fuel domain username password totp_key).
Proof.
  unfold okta_auth.
  apply sends_only_bind; [now apply sends_only_post_json | intros r].
  step. apply sends_only_bind.
  - destruct (str_eq _ "MFA_REQUIRED"); [|auto with sends].
    step. step. apply sends_only_bind.
    { unfold iter. destruct a1; auto with sends. }
    intros items. apply sends_only_bind.
    { unfold sorted. apply sends_only_bind.
      - apply sends_only_traverse. intros f. apply sends_only_priority.
      - intros keys. auto with sends. }
    intros ordered. apply sends_only_for_factors.
  - intros r'. step. step. auto with sends.
Qed.

Lemma sends_only_okta_saml (fuel : nat) (saml_req_url username password : string)
      (totp_key : option string) :
  sends_only any (okta_saml E fuel saml_req_url username password totp_key).
Proof.
  unfold okta_saml.
  apply sends_only_bind; [apply sends_only_fetch | intros _].
  apply sends_only_bind; [apply sends_only_okta_auth | intros token].
  apply sends_only_bind; [apply sends_only_fetch | intros r].
  apply sends_only_bind; [apply sends_only_extract_form | intros form].
  step. auto with sends.
Qed.

Lemma sends_only_complete_saml (url : string) (data : Dict.t string) :
  sends_only any (complete_saml E url data).
Proof.
  unfold complete_saml.
  apply sends_only_bind; [apply sends_only_fetch | intros r].
  unfold header.
  apply sends_only_bind; [destruct (headers r _); auto with sends | intros u].
  apply sends_only_bind; [destruct (headers r _); auto with sends | intros c].
  auto with sends.
Qed.

Lemma sends_only_main_session (fuel : nat) (gateway username password : string)
      (totp_key : option string) :
  sends_only any (main_session E fuel gateway username password totp_key).
Proof.
  unfold main_session.
  apply sends_only_bind; [apply sends_only_prelogin | intros url].
  apply sends_only_bind; [apply sends_only_okta_saml | intros form].
  apply sends_only_complete_saml.
Qed.

Lemma sends_only_os_log {A} (P : request -> Prop) (m : M A) (w : world) :
  sends_only P m -> os_log (snd (m w)) = os_log w.
Proof. intros Hm. destruct (Hm w) as [new [-> _]]. reflexivity. Qed.

(** When the login phase raises, [main] raises the same exception and
    stops there. *)
Lemma main_session_raise (fuel : nat) (gateway : string)
      (username password totp_key : option string) (sudo : bool)
      (e : exn) (w w' : world) :
  seed_usable E totp_key ->
  main_session E fuel gateway (login_name E username)
               (login_password E gateway (login_name E username) password)
               totp_key w = (Raise e, w') ->
  main E fuel gateway username password totp_key sudo w = (Raise e, w')
  /\ os_log w' = os_log w.
Proof.
  intros Hseed Hsession. split.
  - unfold main.
    assert (Hcheck : (match totp_key, pyotp E with
                      | Some _, None => raise (SystemExit (Some 1))
                      | _, _ => ret tt
                      end) w = (Return tt, w)).
    { destruct Hseed as [->|Hpyotp]; [reflexivity|].
      destruct totp_key, (pyotp E); try reflexivity. congruence. }
    rewrite (bind_return _ _ w w tt Hcheck).
    exact (bind_raise _ _ w w' e Hsession).
  - pose proof (sends_only_os_log _ _ w (sends_only_main_session fuel gateway
                  (login_name E username)
                  (login_password E gateway (login_name E username) password)
                  totp_key)) as Hlog.
    now rewrite Hsession in Hlog.
Qed.
End LoginFrame.

(* ===================================================================== *)
(** ** Claims about the authentication engine *)
(* ===================================================================== *)

Lemma unsupported_not_chosen (totp_key : option string) (factors : list json) :
  Forall (fun f => exists s, factor_type f = Some s /\ supported_type s = false)
         factors ->
  Forall (fun f => typed_factor f = true) factors
  /\ chosen_factor totp_key factors = None.
Proof.
  intros H. split.
  - eapply List.Forall_impl; [|exact H]. simpl. intros f [s [Hs _]].
    unfold typed_factor. now rewrite Hs.
  - apply chosen_factor_none.
    eapply List.Forall_impl; [|exact H]. simpl. intros f [s [Hs Hsup]].
    unfold supported. now rewrite Hs.
Qed.

(** C5: when the [MFA_REQUIRED] answer offers no factor of a type the
    engine has a branch for (push, sms, or a type the token pattern
    matches), and so also when it offers none at all, [okta_auth] raises
    the exception "No supported authentication factors" after the
    primary request and sends nothing more; [main] ends with the same
    exception, with no further request and no system-level action. *)
Theorem no_supported_factor_fails (E : Env) (fuel : nat)
        (totp_key : option string) (r : json) (factors : list json) :
  offers r factors ->
  Forall (fun f => exists s, factor_type f = Some s /\ supported_type s = false)
         factors ->
  (forall domain username password w,
      answers E (length (sent w)) r ->
      okta_auth E fuel domain username password totp_key w =
      (Raise (Exception "No supported authentication factors"),
       set_sent (sent w ++ [primary_request E domain username password]) w))
  /\ (forall gateway username password sudo saml_req_url w0 w1,
         seed_usable E totp_key ->
         prelogin E gateway w0 = (Return saml_req_url, w1) ->
         http_error (server E (length (sent w1))) = false ->
         answers E (S (length (sent w1))) r ->
         main E fuel gateway username password totp_key sudo w0 =
         (Raise (Exception "No supported authentication factors"),
          set_sent (sent w1
                    ++ [cookie_request saml_req_url;
                        primary_request E (urlparse_netloc E saml_req_url)
                          (login_name E username)
                          (login_password E gateway (login_name E username)
                                          password)]) w1)
         /\ os_log w1 = os_log w0).
Proof.
  intros Hoffers Hnone.
  destruct (unsupported_not_chosen totp_key factors Hnone) as [Hty Hchosen].
  assert (Hauth : forall domain username password w,
             answers E (length (sent w)) r ->
             okta_auth E fuel domain username password totp_key w =
             (Raise (Exception "No supported authentication factors"),
              set_sent (sent w ++ [primary_request E domain username password]) w)).
  { intros domain username password w Hr.
    rewrite (okta_auth_mfa_required E fuel domain username password totp_key
               r factors w Hr Hoffers Hty).
    now rewrite Hchosen. }
  split; [exact Hauth|].
  intros gateway username password sudo saml_req_url w0 w1 Hseed Hpre Hcookie Hr.
  set (user := login_name E username).
  set (pass := login_password E gateway user password).
  set (w2 := set_sent (sent w1 ++ [cookie_request saml_req_url]) w1).
  assert (Hsession :
            main_session E fuel gateway user pass totp_key w0 =
            (Raise (Exception "No supported authentication factors"),
             set_sent (sent w2 ++ [primary_request E (urlparse_netloc E saml_req_url)
                                     user pass]) w2)).
  { unfold main_session. rewrite (bind_return _ _ w0 w1 _ Hpre).
    apply bind_raise. unfold okta_saml.
    assert (Hget : (r0 <- send E (cookie_request saml_req_url) ;; check r0) w1 =
                   (Return (server E (length (sent w1))), w2)).
    { unfold bind. rewrite send_run. unfold check. now rewrite Hcookie. }
    rewrite (bind_return _ _ w1 w2 _ Hget).
    apply bind_raise. apply Hauth.
    subst w2. simpl. rewrite length_app. simpl.
    now replace (length (sent w1) + 1)%nat with (S (length (sent w1))) by lia. }
  destruct (main_session_raise E fuel gateway username password totp_key sudo
              _ w0 _ Hseed Hsession) as [Hmain Hlog].
  split.
  - rewrite Hmain. subst w2. f_equal. simpl. now rewrite <- app_assoc.
  - pose proof (sends_only_os_log _ _ w0 (sends_only_prelogin E gateway)) as Hp.
    now rewrite Hpre in Hp.
Qed.

Lemma no_supported_factor_fails_witness :
  let E := Scenario.scripted
             [Scenario.ok "prelogin"; Scenario.ok ""; Scenario.ok "mfa-question"] in
  fst (main E 1 "vpn.example" (Some "alice") (Some "pw") None false (initial_world E))
  = Raise (Exception "No supported authentication factors")
  /\ okta_auth (Scenario.scripted [Scenario.ok "mfa-none"]) 1
               "idp.example" "alice" "pw" None
               (initial_world (Scenario.scripted [Scenario.ok "mfa-none"]))
     = (Raise (Exception "No supported authentication factors"),
        set_sent [primary_request (Scenario.scripted [Scenario.ok "mfa-none"])
                    "idp.example" "alice" "pw"]
                 (initial_world (Scenario.scripted [Scenario.ok "mfa-none"]))).
Proof.
  intros E. split.
  - assert (Hoffers : offers (Scenario.mfa_required [Scenario.question])
                             [Scenario.question])
      by (split; [reflexivity | eexists; split; reflexivity]).
    assert (Hnone : Forall (fun f => exists s, factor_type f = Some s
                                               /\ supported_type s = false)
                           [Scenario.question])
      by (repeat constructor; eexists; split; reflexivity).
    destruct (no_supported_factor_fails E 1 None _ _ Hoffers Hnone) as [_ Hmain].
    destruct (Hmain "vpn.example" (Some "alice") (Some "pw") false
                "https://idp.example/sso?SAMLRequest=abc&RelayState=two"
                (initial_world E)
                (set_sent [prelogin_request "vpn.example"] (initial_world E)))
      as [-> _]; try reflexivity.
    + now left.
    + split; reflexivity.
  - assert (Hoffers : offers (Scenario.mfa_required []) [])
      by (split; [reflexivity | eexists; split; reflexivity]).
    destruct (no_supported_factor_fails (Scenario.scripted [Scenario.ok "mfa-none"])
                1 None _ _ Hoffers (List.Forall_nil _)) as [Hauth _].
    apply Hauth. split; reflexivity.
Defined.

(** C1 (as amended): after an [MFA_REQUIRED] answer the engine pursues
    exactly one factor when some factor has a type it has a branch for,
    and none otherwise.  The ranks are: the software TOTP type 0 with a
    seed and 2 without, push 1, every other type 2.  The factor pursued
    has a branch and, among the factors that have one, the least rank;
    among those of that rank it is the first the server listed.  Of
    totp, push and sms, totp is pursued with a seed and push without;
    of sms and push, push; of sms alone, sms. *)
Theorem factor_selection (E : Env) (fuel : nat) (totp_key : option string)
        (r : json) (factors : list json) :
  offers r factors ->
  Forall (fun f => typed_factor f = true) factors ->
  (forall domain username password w,
      answers E (length (sent w)) r ->
      okta_auth E fuel domain username password totp_key w =
      (r' <- match chosen_factor totp_key factors with
             | Some f => run_factor E fuel totp_key f r
             | None => raise (Exception "No supported authentication factors")
             end ;;
       status <- getitem r' "status" ;;
       assert (str_eq status "SUCCESS") ;;;
       getitem r' "sessionToken")
        (set_sent (sent w ++ [primary_request E domain username password]) w))
  /\ (forall f s w, factor_type f = Some s ->
                    priority totp_key f w = (Return (rank totp_key s), w))
  /\ (forall seed, rank (Some seed) "token:software:totp" = 0%nat)
  /\ rank None "token:software:totp" = 2%nat
  /\ rank totp_key "push" = 1%nat
  /\ (forall s, s <> "token:software:totp" -> s <> "push" ->
                rank totp_key s = 2%nat)
  /\ (forall f, chosen_factor totp_key factors = Some f ->
        supported f = true
        /\ exists before after,
             factors = before ++ f :: after
             /\ Forall (fun g => supported g = true ->
                         (factor_rank totp_key f < factor_rank totp_key g)%nat)
                       before
             /\ Forall (fun g => supported g = true ->
                         (factor_rank totp_key f <= factor_rank totp_key g)%nat)
                       after)
  /\ (chosen_factor totp_key factors = None <->
      Forall (fun g => supported g = false) factors)
  /\ (forall totp push sms,
         factor_type totp = Some "token:software:totp" ->
         factor_type push = Some "push" ->
         factor_type sms = Some "sms" ->
         (forall seed l,
             (forall g, In g l -> g = totp \/ g = push \/ g = sms) ->
             In totp l -> chosen_factor (Some seed) l = Some totp)
         /\ (forall l,
                (forall g, In g l -> g = totp \/ g = push \/ g = sms) ->
                In push l -> chosen_factor None l = Some push)
         /\ (forall key l,
                (forall g, In g l -> g = sms \/ g = push) ->
                In push l -> chosen_factor key l = Some push)
         /\ (forall key, chosen_factor key [sms] = Some sms)).
Proof.
  intros Hoffers Hty.
  split; [|split; [|split; [|split; [|split; [|split; [|split; [|split]]]]]]].
  - intros domain username password w Hr.
    now apply okta_auth_mfa_required.
  - intros f s w Hs. now apply priority_typed.
  - reflexivity.
  - reflexivity.
  - now destruct totp_key.
  - intros s Htotp Hpush. unfold rank.
    apply String.eqb_neq in Htotp, Hpush. now rewrite Htotp, Hpush.
  - apply chosen_factor_least.
  - apply chosen_factor_none.
  - intros totp push sms Htotp Hpush Hsms.
    assert (Rtotp : forall seed, factor_rank (Some seed) totp = 0%nat)
      by (intros; unfold factor_rank; now rewrite Htotp).
    assert (Rtotp' : factor_rank None totp = 2%nat)
      by (unfold factor_rank; now rewrite Htotp).
    assert (Rpush : forall key, factor_rank key push = 1%nat)
      by (intros []; unfold factor_rank; now rewrite Hpush).
    assert (Rsms : forall key, factor_rank key sms = 2%nat)
      by (intros []; unfold factor_rank; now rewrite Hsms).
    assert (Stotp : supported totp = true) by (unfold supported; now rewrite Htotp).
    assert (Spush : supported push = true) by (unfold supported; now rewrite Hpush).
    assert (Ssms : supported sms = true) by (unfold supported; now rewrite Hsms).
    split; [|split; [|split]].
    + intros seed l Hl Hin. apply chosen_factor_unique_least; [exact Hin | exact Stotp|].
      intros g Hg _. destruct (Hl g Hg) as [-> | [-> | ->]]; [now left | right | right].
      * rewrite Rtotp, Rpush. lia.
      * rewrite Rtotp, Rsms. lia.
    + intros l Hl Hin. apply chosen_factor_unique_least; [exact Hin | exact Spush|].
      intros g Hg _. destruct (Hl g Hg) as [-> | [-> | ->]]; [right | now left | right].
      * rewrite Rtotp', Rpush. lia.
      * rewrite Rpush, Rsms. lia.
    + intros key l Hl Hin. apply chosen_factor_unique_least; [exact Hin | exact Spush|].
      intros g Hg _. destruct (Hl g Hg) as [-> | ->]; [right | now left].
      rewrite Rpush, Rsms. lia.
    + intros key. apply chosen_factor_unique_least; [now left | exact Ssms|].
      intros g [<- | Hfalse] _; [now left | destruct Hfalse].
Qed.

Lemma factor_selection_witness :
  let E := Scenario.scripted [Scenario.ok "mfa-all"] in
  chosen_factor (Some "seed") [Scenario.totp; Scenario.push; Scenario.sms]
  = Some Scenario.totp
  /\ chosen_factor None [Scenario.totp; Scenario.push; Scenario.sms]
     = Some Scenario.push
  /\ chosen_factor None [Scenario.sms; Scenario.push] = Some Scenario.push
  /\ chosen_factor None [Scenario.sms] = Some Scenario.sms.
Proof.
  intros E.
  destruct (factor_selection E 1 None
              (Scenario.mfa_required [Scenario.totp; Scenario.push; Scenario.sms])
              [Scenario.totp; Scenario.push; Scenario.sms])
    as [_ [_ [_ [_ [_ [_ [_ [_ Hex]]]]]]]].
  - split; [reflexivity|]. eexists. split; reflexivity.
  - repeat constructor.
  - destruct (Hex Scenario.totp Scenario.push Scenario.sms eq_refl eq_refl eq_refl)
      as [H1 [H2 [H3 H4]]].
    split; [|split; [|split]].
    + apply H1; simpl; intuition (subst; auto).
    + apply H2; simpl; intuition (subst; auto).
    + apply H3; simpl; intuition (subst; auto).
    + apply H4.
Defined.

(** C1 (as stated) fails: with the factors question and sms the first
    factor of the priority order is the question factor, yet the engine
    pursues the sms factor; with the question factor alone the list is
    not empty, yet no factor is pursued and the engine raises. *)
Lemma factor_selection_skips_unsupported :
  let E := Scenario.scripted
             [Scenario.ok "mfa-question-sms"; Scenario.ok "challenge";
              Scenario.ok "success"] in
  let E' := Scenario.scripted [Scenario.ok "mfa-question"] in
  first_by_rank None [Scenario.question; Scenario.sms] = Some Scenario.question
  /\ chosen_factor None [Scenario.question; Scenario.sms] = Some Scenario.sms
  /\ fst (okta_auth E 1 "idp.example" "alice" "pw" None (initial_world E))
     = Return (JStr "T")
  /\ map req_url
         (sent (snd (okta_auth E 1 "idp.example" "alice" "pw" None (initial_world E))))
     = ["https://idp.example/api/v1/authn"; "https://idp.example/sms";
        "https://idp.example/sms"]
  /\ first_by_rank None [Scenario.question] = Some Scenario.question
  /\ chosen_factor None [Scenario.question] = None
  /\ okta_auth E' 1 "idp.example" "alice" "pw" None (initial_world E')
     = (Raise (Exception "No supported authentication factors"),
        set_sent [primary_request E' "idp.example" "alice" "pw"] (initial_world E')).
Proof.
  repeat split; reflexivity.
Qed.

Lemma verify_href_url (factor u : json) (w : world) :
  verify_url factor = Some u -> verify_href factor w = (Return u, w).
Proof.
  unfold verify_url, verify_href.
  destruct (field factor "_links") as [links|] eqn:Hlinks; [|discriminate].
  destruct (field links "verify") as [verify|] eqn:Hverify; [|discriminate].
  intros Hhref.
  rewrite (bind_return _ _ w w _ (getitem_field _ _ _ w Hlinks)).
  rewrite (bind_return _ _ w w _ (getitem_field _ _ _ w Hverify)).
  now apply getitem_field.
Qed.

(** The loop after [polls] waiting answers and a last answer [rf]. *)
Lemma push_loop_rounds (E : Env) (fuel : nat) (url : string) (r : json)
      (polls : list json) (rf : json) (w : world) :
  field r "stateToken" <> None ->
  Forall waiting polls ->
  plays E (length (sent w)) (polls ++ [rf]) ->
  (length polls < fuel)%nat ->
  exists fuel',
    push_loop E fuel (JStr url) r w =
    (status <- getitem rf "status" ;;
     if negb (str_eq status "MFA_CHALLENGE") then ret rf
     else
       factor_result <- getitem rf "factorResult" ;;
       assert (str_eq factor_result "WAITING") ;;;
       push_loop E fuel' (JStr url) rf)
      (set_sent (sent w ++ poll_requests E url r (polls ++ [rf])) w).
Proof.
  intros Htoken Hwaiting Hplays Hfuel.
  apply plays_app in Hplays. destruct Hplays as [Hpolls [Hrf _]].
  exists (fuel - S (length polls))%nat.
  replace fuel with (length polls + S (fuel - S (length polls)))%nat at 1 by lia.
  rewrite (push_loop_waiting E url polls _ r w Htoken Hwaiting Hpolls).
  rewrite push_loop_last with (rf := rf).
  - rewrite set_sent_app, <- app_assoc, poll_requests_app. reflexivity.
  - now apply last_token.
  - simpl. now rewrite length_app, poll_requests_length.
Qed.

(** C2: the push loop posts the verify endpoint once per round, each time
    with the state token of the response before it, for as long as the
    answers have status [MFA_CHALLENGE] and factor result [WAITING], and
    leaves with the first answer whose status is not [MFA_CHALLENGE]; an
    [MFA_CHALLENGE] answer whose factor result is not [WAITING] raises
    [AssertionError].  With two waiting answers and then [SUCCESS], the
    engine sends three verify requests and returns the session token. *)
Theorem push_polling (E : Env) :
  (forall fuel url r polls rf w,
      field r "stateToken" <> None ->
      Forall waiting polls ->
      plays E (length (sent w)) (polls ++ [rf]) ->
      (length polls < fuel)%nat ->
      length (poll_requests E url r (polls ++ [rf])) = S (length polls)
      /\ (forall status,
             field rf "status" = Some status ->
             str_eq status "MFA_CHALLENGE" = false ->
             push_loop E fuel (JStr url) r w =
             (Return rf,
              set_sent (sent w ++ poll_requests E url r (polls ++ [rf])) w))
      /\ (forall result,
             field rf "status" = Some (JStr "MFA_CHALLENGE") ->
             field rf "factorResult" = Some result ->
             str_eq result "WAITING" = false ->
             push_loop E fuel (JStr url) r w =
             (Raise AssertionError,
              set_sent (sent w ++ poll_requests E url r (polls ++ [rf])) w)))
  /\ (forall fuel domain username password totp_key r factors f url c1 c2 rf
             token w,
         answers E (length (sent w)) r ->
         offers r factors ->
         Forall (fun g => typed_factor g = true) factors ->
         chosen_factor totp_key factors = Some f ->
         factor_type f = Some "push" ->
         verify_url f = Some (JStr url) ->
         field r "stateToken" <> None ->
         waiting c1 ->
         waiting c2 ->
         plays E (S (length (sent w))) [c1; c2; rf] ->
         field rf "status" = Some (JStr "SUCCESS") ->
         field rf "sessionToken" = Some token ->
         (2 < fuel)%nat ->
         okta_auth E fuel domain username password totp_key w =
         (Return token,
          set_sent (sent w
                    ++ [primary_request E domain username password;
                        poll_request E url (state_token r);
                        poll_request E url (state_token c1);
                        poll_request E url (state_token c2)]) w)).
Proof.
  split.
  - intros fuel url r polls rf w Htoken Hwaiting Hplays Hfuel.
    destruct (push_loop_rounds E fuel url r polls rf w Htoken Hwaiting Hplays Hfuel)
      as [fuel' Hloop].
    split; [|split].
    + now rewrite poll_requests_length, length_app, Nat.add_comm.
    + intros status Hstatus Hleft. rewrite Hloop.
      rewrite (bind_return _ _ _ _ _ (getitem_field _ _ _ _ Hstatus)).
      now rewrite Hleft.
    + intros result Hstatus Hresult Hbad. rewrite Hloop.
      rewrite (bind_return _ _ _ _ _ (getitem_field _ _ _ _ Hstatus)).
      cbn [str_eq]. rewrite String.eqb_refl. cbn [negb].
      rewrite (bind_return _ _ _ _ _ (getitem_field _ _ _ _ Hresult)).
      now rewrite Hbad.
  - intros fuel domain username password totp_key r factors f url c1 c2 rf token w
           Hr Hoffers Hty Hchosen Hpush Hurl Htoken Hc1 Hc2 Hplays Hstatus
           Hsession Hfuel.
    rewrite (okta_auth_mfa_required E fuel domain username password totp_key
               r factors w Hr Hoffers Hty).
    rewrite Hchosen. unfold run_factor. rewrite Hpush. cbn [String.eqb Ascii.eqb Bool.eqb].
    set (w1 := set_sent _ w).
    assert (Hplays1 : plays E (length (sent w1)) ([c1; c2] ++ [rf])).
    { subst w1. simpl sent. rewrite length_app. simpl length.
      now replace (length (sent w) + 1)%nat with (S (length (sent w))) by lia. }
    destruct (push_loop_rounds E fuel url r [c1; c2] rf w1 Htoken
                (List.Forall_cons _ _ _ Hc1 (List.Forall_cons _ _ _ Hc2 (List.Forall_nil _)))
                Hplays1 Hfuel) as [fuel' Hloop].
    assert (Hbranch : push_branch E fuel f r w1 =
                      (Return rf,
                       set_sent (sent w1 ++ poll_requests E url r ([c1; c2] ++ [rf])) w1)).
    { unfold push_branch.
      rewrite (bind_return _ _ w1 w1 _ (verify_href_url _ _ w1 Hurl)).
      rewrite Hloop.
      rewrite (bind_return _ _ _ _ _ (getitem_field _ _ _ _ Hstatus)).
      reflexivity. }
    rewrite (bind_return _ _ _ _ _ Hbranch).
    rewrite (bind_return _ _ _ _ _ (getitem_field _ _ _ _ Hstatus)).
    cbn [str_eq]. rewrite String.eqb_refl. cbn [assert].
    rewrite (bind_return _ _ _ _ tt) by reflexivity.
    rewrite (getitem_field _ _ _ _ Hsession).
    subst w1. rewrite set_sent_app, <- app_assoc. reflexivity.
Qed.

Lemma push_polling_witness :
  let E := Scenario.scripted
             [Scenario.ok "mfa-push"; Scenario.ok "waiting-1";
              Scenario.ok "waiting-2"; Scenario.ok "success"] in
  let E' := Scenario.scripted
              [Scenario.ok "mfa-push"; Scenario.ok "waiting-1";
               Scenario.ok "rejected"] in
  let w1 := set_sent [primary_request E' "idp.example" "alice" "pw"]
                     (initial_world E') in
  okta_auth E 3 "idp.example" "alice" "pw" None (initial_world E) =
  (Return (JStr "T"),
   set_sent [primary_request E "idp.example" "alice" "pw";
             poll_request E "https://idp.example/push" (JStr "st0");
             poll_request E "https://idp.example/push" (JStr "st1");
             poll_request E "https://idp.example/push" (JStr "st2")]
            (initial_world E))
  /\ push_loop E' 2 (JStr "https://idp.example/push")
                (Scenario.mfa_required [Scenario.push]) w1 =
     (Raise AssertionError,
      set_sent [primary_request E' "idp.example" "alice" "pw";
                poll_request E' "https://idp.example/push" (JStr "st0");
                poll_request E' "https://idp.example/push" (JStr "st1")]
               (initial_world E')).
Proof.
  intros E E' w1. split.
  - apply (proj2 (push_polling E) 3%nat "idp.example" "alice" "pw" None
                 (Scenario.mfa_required [Scenario.push]) [Scenario.push]
                 Scenario.push "https://idp.example/push"
                 (Scenario.waiting "st1") (Scenario.waiting "st2")
                 (Scenario.success "T") (JStr "T") (initial_world E)).
    + split; reflexivity.
    + split; [reflexivity|]. eexists. split; reflexivity.
    + repeat constructor.
    + reflexivity.
    + reflexivity.
    + reflexivity.
    + discriminate.
    + repeat split; discriminate.
    + repeat split; discriminate.
    + repeat split; reflexivity.
    + reflexivity.
    + reflexivity.
    + simpl. lia.
  - destruct (proj1 (push_polling E') 2%nat "https://idp.example/push"
                    (Scenario.mfa_required [Scenario.push])
                    [Scenario.waiting "st1"] Scenario.rejected w1)
      as [_ [_ Hbad]].
    + discriminate.
    + repeat constructor; discriminate.
    + repeat split; reflexivity.
    + simpl. lia.
    + apply (Hbad (JStr "REJECTED")); reflexivity.
Defined.

(* ===================================================================== *)
(** ** Claims about the gateway exchanges *)
(* ===================================================================== *)

(** C4: [prelogin] sends one request, the POST to the prelogin endpoint
    of the gateway, and then goes through its stages in this order, the
    first failing stage deciding the exception: the HTTP status check,
    the parse of the XML body, the lookup of the [saml-request] child,
    its text, the base64 decoding, the form extraction on the decoded
    page, the presence of the [SAMLRequest] field.  When every stage
    passes the result is the action, a question mark and the
    URL-encoded fields. *)
Theorem prelogin_pipeline (E : Env) (gateway : string) (w : world) :
  let r := server E (length (sent w)) in
  let w' := set_sent (sent w ++ [prelogin_request gateway]) w in
  snd (prelogin E gateway w) = w'
  /\ (http_error r = true ->
      prelogin E gateway w = (Raise (HTTPError (status_code r)), w'))
  /\ (http_error r = false ->
      (xml_fromstring E (content r) = None ->
       prelogin E gateway w = (Raise XMLSyntaxError, w'))
      /\ forall root,
          xml_fromstring E (content r) = Some root ->
          (find_child "saml-request" root = None ->
           prelogin E gateway w = (Raise AttributeError, w'))
          /\ forall node,
              find_child "saml-request" root = Some node ->
              (text node = None ->
               prelogin E gateway w = (Raise TypeError, w'))
              /\ forall encoded,
                  text node = Some encoded ->
                  (b64decode E encoded = None ->
                   prelogin E gateway w = (Raise ValueError, w'))
                  /\ forall html,
                      b64decode E encoded = Some html ->
                      (forall e,
                          extract_form E html w' = (Raise e, w') ->
                          prelogin E gateway w = (Raise e, w'))
                      /\ forall action fields,
                          extract_form E html w' = (Return (action, fields), w') ->
                          (Dict.mem "SAMLRequest" fields = false ->
                           prelogin E gateway w = (Raise AssertionError, w'))
                          /\ (Dict.mem "SAMLRequest" fields = true ->
                              prelogin E gateway w =
                              (Return (action +:+ "?" +:+ urlencode E fields), w'))).
Proof.
  intros r w'.
  assert (Hfetch : forall (k : response -> M string),
             http_error r = false ->
             (x <- (r0 <- send E (prelogin_request gateway) ;; check r0) ;; k x) w
             = k r w').
  { intros k Hok. apply bind_return. unfold bind. rewrite send_run.
    unfold check. fold r. now rewrite Hok. }
  split; [|split].
  - destruct (http_error r) eqn:Hok.
    + unfold prelogin, bind. rewrite send_run. unfold check. fold r. now rewrite Hok.
    + unfold prelogin. fold (prelogin_request gateway). rewrite (Hfetch _ eq_refl).
      destruct (xml_fromstring E (content r)) as [root|]; [|reflexivity].
      destruct (find_child "saml-request" root) as [node|]; [|reflexivity].
      destruct (text node) as [encoded|]; [|reflexivity].
      destruct (b64decode E encoded) as [html|]; [|reflexivity].
      unfold bind. destruct (extract_form_cases E html w') as [[res ->]|[e ->]];
        [|reflexivity].
      now destruct (Dict.mem "SAMLRequest" (snd res)).
  - intros Hbad. unfold prelogin, bind. rewrite send_run. unfold check. fold r.
    now rewrite Hbad.
  - intros Hok. unfold prelogin. fold (prelogin_request gateway).
    rewrite (Hfetch _ Hok). split; [now intros ->|].
    intros root ->. split; [now intros ->|].
    intros node ->. split; [now intros ->|].
    intros encoded ->. split; [now intros ->|].
    intros html ->. split.
    + intros e He. now apply bind_raise.
    + intros action fields Hform.
      rewrite (bind_return _ _ _ _ _ Hform). cbn [fst snd].
      split; now intros ->.
Qed.

Lemma prelogin_pipeline_witness :
  let E := Scenario.scripted [Scenario.ok "prelogin"] in
  prelogin E "vpn.example" (initial_world E) =
  (Return "https://idp.example/sso?SAMLRequest=abc&RelayState=two",
   set_sent [prelogin_request "vpn.example"] (initial_world E)).
Proof.
  intros E.
  destruct (prelogin_pipeline E "vpn.example" (initial_world E)) as [_ [_ H]].
  destruct (H eq_refl) as [_ H1].
  destruct (H1 Scenario.prelogin_xml eq_refl) as [_ H2].
  destruct (H2 (Element "saml-request" [] (Some "request-page") []) eq_refl)
    as [_ H3].
  destruct (H3 "request-page" eq_refl) as [_ H4].
  destruct (H4 "request-page" eq_refl) as [_ H5].
  destruct (H5 "https://idp.example/sso"
               [("SAMLRequest", "abc"); ("RelayState", "two")] eq_refl)
    as [_ H6].
  exact (H6 eq_refl).
Defined.

(** C6: when the final POST passes the status check, [complete_saml]
    returns the values of the headers [saml-username] and
    [prelogin-cookie]; when one of them is missing it raises [KeyError],
    and then [main] ends with that exception without any system-level
    action, so the child is never spawned. *)
Theorem complete_saml_headers (E : Env) :
  (forall url data w,
      let r := server E (length (sent w)) in
      let w' := set_sent (sent w ++ [form_request url data]) w in
      http_error r = false ->
      (forall u c,
          headers r "saml-username" = Some u ->
          headers r "prelogin-cookie" = Some c ->
          complete_saml E url data w = (Return (u, c), w'))
      /\ (headers r "saml-username" = None \/ headers r "prelogin-cookie" = None ->
          exists k,
            complete_saml E url data w = (Raise (KeyError k), w')
            /\ (k = "saml-username" \/ k = "prelogin-cookie")))
  /\ (forall fuel gateway username password totp_key sudo saml_req_url form w0 w1 w2,
         let r := server E (length (sent w2)) in
         seed_usable E totp_key ->
         prelogin E gateway w0 = (Return saml_req_url, w1) ->
         okta_saml E fuel saml_req_url (login_name E username)
                   (login_password E gateway (login_name E username) password)
                   totp_key w1 = (Return form, w2) ->
         http_error r = false ->
         headers r "saml-username" = None \/ headers r "prelogin-cookie" = None ->
         exists k w3,
           main E fuel gateway username password totp_key sudo w0
           = (Raise (KeyError k), w3)
           /\ sent w3 = sent w2 ++ [form_request (fst form) (snd form)]
           /\ os_log w3 = os_log w0).
Proof.
  assert (Hcomplete : forall url data w,
             http_error (server E (length (sent w))) = false ->
             complete_saml E url data w =
             (saml_username <- header (server E (length (sent w))) "saml-username" ;;
              prelogin_cookie <- header (server E (length (sent w))) "prelogin-cookie" ;;
              ret (saml_username, prelogin_cookie))
               (set_sent (sent w ++ [form_request url data]) w)).
  { intros url data w Hok. unfold complete_saml.
    rewrite (bind_return _ _ w (set_sent (sent w ++ [form_request url data]) w)
               (server E (length (sent w))))
      by (unfold bind; rewrite send_run; unfold check; now rewrite Hok).
    reflexivity. }
  assert (Hmissing : forall url data w,
             http_error (server E (length (sent w))) = false ->
             headers (server E (length (sent w))) "saml-username" = None
             \/ headers (server E (length (sent w))) "prelogin-cookie" = None ->
             exists k,
               complete_saml E url data w =
               (Raise (KeyError k), set_sent (sent w ++ [form_request url data]) w)
               /\ (k = "saml-username" \/ k = "prelogin-cookie")).
  { intros url data w Hok Hnone. rewrite (Hcomplete url data w Hok).
    unfold header, bind.
    destruct (headers (server E (length (sent w))) "saml-username") as [u|].
    - destruct Hnone as [Hnone|Hnone]; [discriminate|]. rewrite Hnone.
      exists "prelogin-cookie". split; [reflexivity | now right].
    - exists "saml-username". split; [reflexivity | now left]. }
  split.
  - intros url data w r w' Hok. split.
    + intros u c Hu Hc. rewrite (Hcomplete url data w Hok).
      unfold header, bind. fold r. now rewrite Hu, Hc.
    + apply Hmissing, Hok.
  - intros fuel gateway username password totp_key sudo saml_req_url form w0 w1 w2
           r Hseed Hpre Hokta Hok Hnone.
    destruct (Hmissing (fst form) (snd form) w2 Hok Hnone) as [k [Hk _]].
    exists k, (set_sent (sent w2 ++ [form_request (fst form) (snd form)]) w2).
    assert (Hsession :
              main_session E fuel gateway (login_name E username)
                (login_password E gateway (login_name E username) password)
                totp_key w0 =
              (Raise (KeyError k),
               set_sent (sent w2 ++ [form_request (fst form) (snd form)]) w2)).
    { unfold main_session. rewrite (bind_return _ _ w0 w1 _ Hpre).
      rewrite (bind_return _ _ w1 w2 _ Hokta). exact Hk. }
    destruct (main_session_raise E fuel gateway username password totp_key sudo
                _ w0 _ Hseed Hsession) as [Hmain Hlog].
    split; [exact Hmain|]. split; [reflexivity | exact Hlog].
Qed.

Lemma complete_saml_headers_witness :
  let E := Scenario.scripted (Scenario.login_script Scenario.no_cookie) in
  exists k w3,
    main E 1 "vpn.example" (Some "alice") (Some "pw") None false (initial_world E)
    = (Raise (KeyError k), w3)
    /\ sent w3 =
       [prelogin_request "vpn.example";
        cookie_request "https://idp.example/sso?SAMLRequest=abc&RelayState=two";
        primary_request E "idp.example" "alice" "pw";
        redirect_request "idp.example" (JStr "T")
          "https://idp.example/sso?SAMLRequest=abc&RelayState=two"]
       ++ [form_request "https://vpn.example/SAML20/SP/ACS" [("SAMLResponse", "xyz")]]
    /\ os_log w3 = [].
Proof.
  intros E.
  apply (proj2 (complete_saml_headers E) 1%nat "vpn.example" (Some "alice")
               (Some "pw") None false
               "https://idp.example/sso?SAMLRequest=abc&RelayState=two"
               ("https://vpn.example/SAML20/SP/ACS", [("SAMLResponse", "xyz")])
               (initial_world E)
               (set_sent [prelogin_request "vpn.example"] (initial_world E))
               (set_sent
                  [prelogin_request "vpn.example";
                   cookie_request "https://idp.example/sso?SAMLRequest=abc&RelayState=two";
                   primary_request E "idp.example" "alice" "pw";
                   redirect_request "idp.example" (JStr "T")
                     "https://idp.example/sso?SAMLRequest=abc&RelayState=two"]
                  (initial_world E))).
  - now left.
  - reflexivity.
  - reflexivity.
  - reflexivity.
  - right. reflexivity.
Defined.

(* ===================================================================== *)
(** ** The supervisor: what the log records *)
(* ===================================================================== *)

Lemma finally_ext {A} (body body' : M A) (cleanup : M unit) (w w' : world) :
  body w = body' w' -> finally body cleanup w = finally body' cleanup w'.
Proof. unfold finally. now intros ->. Qed.

Lemma appends_ret {A} (a : A) : appends (ret a).
Proof. intros w. exists []. simpl. now rewrite app_nil_r. Qed.

Lemma appends_raise {A} (e : exn) : appends (@raise A e).
Proof. intros w. exists []. simpl. now rewrite app_nil_r. Qed.

Lemma appends_bind {A B} (m : M A) (k : A -> M B) :
  appends m -> (forall a, appends (k a)) -> appends (bind m k).
Proof.
  intros Hm Hk w. destruct (Hm w) as [t1 Ht1]. unfold bind.
  destruct (m w) as [[a|e|s|] w1]; simpl in Ht1; try (exists t1; exact Ht1).
  destruct (Hk a w1) as [t2 Ht2]. exists (t1 ++ t2).
  now rewrite Ht2, Ht1, <- app_assoc.
Qed.

Lemma appends_finally {A} (body : M A) (cleanup : M unit) :
  appends body -> appends cleanup -> appends (finally body cleanup).
Proof.
  intros Hb Hc w. destruct (Hb w) as [t1 Ht1]. unfold finally.
  destruct (body w) as [[a|e|s|] w1]; simpl in Ht1; try (exists t1; exact Ht1).
  - destruct (appends_bind cleanup (fun _ => ret a) Hc (fun _ => appends_ret a) w1)
      as [t2 Ht2].
    exists (t1 ++ t2). now rewrite Ht2, Ht1, <- app_assoc.
  - destruct (appends_bind cleanup (fun _ => @raise A e) Hc
                (fun _ => appends_raise e) w1) as [t2 Ht2].
    exists (t1 ++ t2). now rewrite Ht2, Ht1, <- app_assoc.
Qed.

Section SupervisorLog.
Variable E : Env.

Lemma appends_deliver : appends deliver.
Proof.
  intros w. exists [EvDelivered (sigterm_handler w)]. unfold deliver.
  now destruct (sigterm_handler w).
Qed.

Lemma appends_arrive : appends arrive.
Proof.
  intros w. unfold arrive. destruct (decide (SIGTERM ∈ sigmask w)).
  - exists []. simpl. now rewrite app_nil_r.
  - apply appends_deliver.
Qed.

Lemma appends_os_action (ev : os_event) : appends (os_action E ev).
Proof.
  intros w. unfold os_action.
  assert (Hinner : appends ((if sigterm_before E (clock w) then arrive else ret tt) ;;;
                            (fun w0 => (Return tt, set_os_log (os_log w0 ++ [ev]) w0)))).
  { apply appends_bind.
    - destruct (sigterm_before E (clock w)); [apply appends_arrive | apply appends_ret].
    - intros _ w0. now exists [ev]. }
  destruct (Hinner (set_clock (S (clock w)) w)) as [tail Htail].
  exists tail. exact Htail.
Qed.

Lemma appends_pthread_sigmask (how : sigmask_how) (mask : gset nat) :
  appends (pthread_sigmask E how mask).
Proof.
  unfold pthread_sigmask. apply appends_bind; [apply appends_os_action|].
  intros _ w.
  destruct (sigterm_pending w && bool_decide (SIGTERM ∉ _)).
  - destruct (appends_bind deliver (fun _ => ret (sigmask w)) appends_deliver
                (fun _ => appends_ret _)
                (set_sigterm_pending false
                   (set_sigmask match how with
                                | SIG_BLOCK => sigmask w ∪ mask
                                | SIG_UNBLOCK => sigmask w ∖ mask
                                | SIG_SETMASK => mask
                                end w))) as [tail Htail].
    exists tail. exact Htail.
  - exists []. simpl. now rewrite app_nil_r.
Qed.

Lemma appends_signal_signal (num : nat) (h : handler) :
  appends (signal_signal E num h).
Proof.
  unfold signal_signal. apply appends_bind; [apply appends_os_action|].
  intros _ w. exists []. rewrite app_nil_r. now destruct (decide (num = SIGTERM)).
Qed.

Lemma appends_stdin_write (p : popen) (data : string) :
  appends (stdin_write E p data).
Proof.
  unfold stdin_write. destruct (popen_stdin p);
    [apply appends_os_action | apply appends_raise].
Qed.

Lemma appends_restore_mask (mask : gset nat) :
  appends (pthread_sigmask E SIG_SETMASK mask ;;; ret tt).
Proof.
  apply appends_bind; [apply appends_pthread_sigmask | intros _; apply appends_ret].
Qed.

Lemma appends_restore_handler (num : nat) (h : handler) :
  appends (signal_signal E num h ;;; ret tt).
Proof.
  apply appends_bind; [apply appends_signal_signal | intros _; apply appends_ret].
Qed.

Lemma appends_popen_exit :
  appends (os_action E EvPopenExit ;;;
           (fun w => (Return tt,
                      set_returncode
                        (Some (child_returncode E (terminate_requests w))) w))).
Proof.
  apply appends_bind; [apply appends_os_action|].
  intros _ w. exists []. simpl. now rewrite app_nil_r.
Qed.

Lemma appends_supervised_body {A} (body : popen -> M A) (p : popen) :
  appends (body p) ->
  appends (a <- body p ;;
           (if popen_stdin p then stdin_close E else ret tt) ;;;
           os_waitid E ;;; ret a).
Proof.
  intros Hbody. apply appends_bind; [exact Hbody | intros a].
  apply appends_bind.
  - destruct (popen_stdin p); [apply appends_os_action | apply appends_ret].
  - intros _. apply appends_bind; [apply appends_os_action | intros _; apply appends_ret].
Qed.

(** A system-level action while SIGTERM is blocked: a SIGTERM generated
    before it stays pending. *)
Lemma os_action_blocked (ev : os_event) (w : world) :
  SIGTERM ∈ sigmask w ->
  os_action E ev w =
  (Return tt,
   World (sent w) (S (clock w)) (os_log w ++ [ev]) (sigmask w) (sigterm_handler w)
         (sigterm_pending w || sigterm_before E (clock w)) (returncode w)).
Proof.
  intros Hblocked. unfold os_action, bind.
  destruct (sigterm_before E (clock w)).
  - unfold arrive. simpl sigmask.
    destruct (decide (SIGTERM ∈ sigmask w)) as [_|Hn]; [|contradiction].
    now rewrite orb_true_r.
  - rewrite orb_false_r. reflexivity.
Qed.

(** A system-level action before which no SIGTERM is generated. *)
Lemma os_action_quiet (ev : os_event) (w : world) :
  sigterm_before E (clock w) = false ->
  os_action E ev w =
  (Return tt,
   World (sent w) (S (clock w)) (os_log w ++ [ev]) (sigmask w) (sigterm_handler w)
         (sigterm_pending w) (returncode w)).
Proof.
  intros Hquiet. unfold os_action, bind. now rewrite Hquiet.
Qed.
End SupervisorLog.

(* ===================================================================== *)
(** ** The supervisor: the order of its system calls *)
(* ===================================================================== *)

Section Supervisor.
Variable E : Env.

Lemma block_sigterm (w : world) :
  sigterm_before E (clock w) = false ->
  pthread_sigmask E SIG_BLOCK {[SIGTERM]} w =
  (Return (sigmask w),
   World (sent w) (S (clock w)) (os_log w ++ [EvSigmask SIG_BLOCK {[SIGTERM]}])
         (sigmask w ∪ {[SIGTERM]}) (sigterm_handler w) (sigterm_pending w)
         (returncode w)).
Proof.
  intros Hquiet. unfold pthread_sigmask.
  rewrite (bind_return _ _ _ _ _ (os_action_quiet E _ w Hquiet)).
  cbn [sigmask sigterm_pending].
  rewrite bool_decide_eq_false_2 by set_solver.
  rewrite andb_false_r. reflexivity.
Qed.

Lemma install_handler_blocked (h : handler) (w : world) :
  SIGTERM ∈ sigmask w ->
  signal_signal E SIGTERM h w =
  (Return (sigterm_handler w),
   World (sent w) (S (clock w)) (os_log w ++ [EvSignal SIGTERM h]) (sigmask w) h
         (sigterm_pending w || sigterm_before E (clock w)) (returncode w)).
Proof.
  intros Hblocked. unfold signal_signal.
  rewrite (bind_return _ _ _ _ _ (os_action_blocked E _ w Hblocked)).
  destruct (decide (SIGTERM = SIGTERM)); [reflexivity | congruence].
Qed.

Lemma unblock_forwarding (mask : gset nat) (w : world) :
  SIGTERM ∈ sigmask w ->
  sigterm_handler w = ForwardTerminate ->
  pthread_sigmask E SIG_SETMASK mask w =
  (Return (sigmask w),
   let pending := sigterm_pending w || sigterm_before E (clock w) in
   let delivered := pending && bool_decide (SIGTERM ∉ mask) in
   World (sent w) (S (clock w))
         (os_log w ++ [EvSigmask SIG_SETMASK mask]
          ++ (if delivered then [EvDelivered ForwardTerminate] else []))
         mask ForwardTerminate
         (if delivered then false else pending) (returncode w)).
Proof.
  intros Hblocked Hh. unfold pthread_sigmask.
  rewrite (bind_return _ _ _ _ _ (os_action_blocked E _ w Hblocked)).
  cbn [sigmask sigterm_pending].
  destruct ((sigterm_pending w || sigterm_before E (clock w))
            && bool_decide (SIGTERM ∉ mask)) eqn:Hd; cbn zeta.
  - unfold bind, deliver. cbn. rewrite Hh. cbn. rewrite <- app_assoc. reflexivity.
  - rewrite Hh, app_nil_r. reflexivity.
Qed.

(** C7: the supervised region first blocks SIGTERM, then spawns the
    child, whose pre-exec hook sets the mask the parent had before the
    block, then installs the forwarding handler, and only then sets the
    parent's mask back; no signal is delivered between these four
    actions.  A SIGTERM generated after the block and before the mask is
    set back stays pending and, when the original mask does not block
    it, is delivered to the forwarding handler right after the mask is
    set back. *)
Theorem sigterm_deferred_until_forwarding {A} (args : list string) (stdin : bool)
        (body : popen -> M A) (w : world) :
  sigterm_before E (clock w) = false ->
  (forall p, appends (body p)) ->
  exists tail,
    os_log (snd (popen_forward_sigterm E args stdin body w)) =
    os_log w
    ++ [EvSigmask SIG_BLOCK {[SIGTERM]};
        EvPopen args stdin (sigmask w);
        EvSignal SIGTERM ForwardTerminate;
        EvSigmask SIG_SETMASK (sigmask w)]
    ++ (if (sigterm_pending w
            || sigterm_before E (1 + clock w)
            || sigterm_before E (2 + clock w)
            || sigterm_before E (3 + clock w))
           && bool_decide (SIGTERM ∉ sigmask w)
        then [EvDelivered ForwardTerminate] else [])
    ++ tail.
Proof.
  intros Hquiet Hbody.
  unfold popen_forward_sigterm. unfold signal_mask at 1.
  rewrite (bind_return _ _ _ _ _ (block_sigterm w Hquiet)).
  set (w1 := World _ _ _ _ _ _ _).
  assert (Hb1 : SIGTERM ∈ sigmask w1) by (subst w1; simpl; set_solver).
  unfold with_popen.
  erewrite finally_ext;
    [|apply bind_return; apply (os_action_blocked E _ w1 Hb1)].
  set (w2 := World _ _ _ _ _ _ _).
  assert (Hb2 : SIGTERM ∈ sigmask w2) by exact Hb1.
  unfold signal_handler.
  erewrite finally_ext;
    [|apply finally_ext; apply bind_return; apply (install_handler_blocked _ w2 Hb2)].
  set (w3 := World _ _ _ _ _ _ _).
  assert (Hb3 : SIGTERM ∈ sigmask w3) by exact Hb1.
  unfold signal_mask.
  erewrite finally_ext;
    [|apply finally_ext; apply finally_ext; apply bind_return;
      apply (unblock_forwarding (sigmask w) w3 Hb3 eq_refl)].
  cbv zeta.
  set (w4 := World _ _ _ _ _ _ _).
  destruct (appends_finally _ _
              (appends_finally _ _
                 (appends_finally _ _
                    (appends_finally _ _
                       (appends_supervised_body E body (Popen stdin) (Hbody _))
                       (appends_restore_mask E (sigmask w3)))
                    (appends_restore_handler E SIGTERM (sigterm_handler w2)))
                 (appends_popen_exit E))
              (appends_restore_mask E (sigmask w)) w4) as [tail Htail].
  exists tail. rewrite Htail. subst w4 w3 w2 w1. cbn [os_log sigterm_pending clock].
  rewrite <- !app_assoc. reflexivity.
Qed.

Lemma uk_ret {A} (a : A) (w : world) (Q : A -> world -> Prop) :
  Q a w -> unless_killed (ret a) w Q.
Proof. exact (fun H => H). Qed.

Lemma uk_bind {A B} (m : M A) (k : A -> M B) (w : world) (Q : B -> world -> Prop) :
  unless_killed m w (fun a w' => unless_killed (k a) w' Q) ->
  unless_killed (bind m k) w Q.
Proof.
  unfold unless_killed, bind. now destruct (m w) as [[a|e|s|] w'].
Qed.

Lemma uk_finally {A} (body : M A) (cleanup : M unit) (w : world)
      (Q : A -> world -> Prop) :
  unless_killed body w
    (fun a w' => unless_killed cleanup w' (fun _ w'' => Q a w'')) ->
  unless_killed (finally body cleanup) w Q.
Proof.
  unfold unless_killed, finally, bind, ret.
  destruct (body w) as [[a|e|s|] w']; try easy.
  now destruct (cleanup w') as [[[]|e|s|] w''].
Qed.

Lemma syscalls_app (l1 l2 : list os_event) :
  syscalls (l1 ++ l2) = syscalls l1 ++ syscalls l2.
Proof. apply List.filter_app. Qed.

Lemma uk_deliver reqs calls mask h rc (w : world) (Q : unit -> world -> Prop) :
  os_state reqs calls mask h rc w ->
  (forall w', os_state reqs calls mask h rc w' -> Q tt w') ->
  unless_killed deliver w Q.
Proof.
  intros (Hs & Hc & Hm & Hh & Hr) HQ. unfold unless_killed, deliver.
  assert (Hst : os_state reqs calls mask h rc
                  (set_os_log (os_log w ++ [EvDelivered (sigterm_handler w)]) w)).
  { repeat split; try assumption. cbn [os_log set_os_log].
    rewrite syscalls_app. simpl. now rewrite app_nil_r. }
  destruct (sigterm_handler w); [exact I | now apply HQ | now apply HQ].
Qed.

Lemma uk_arrive reqs calls mask h rc (w : world) (Q : unit -> world -> Prop) :
  os_state reqs calls mask h rc w ->
  (forall w', os_state reqs calls mask h rc w' -> Q tt w') ->
  unless_killed arrive w Q.
Proof.
  intros Hst HQ.
  assert (Hcase : arrive w = (Return tt, set_sigterm_pending true w)
                  \/ arrive w = deliver w).
  { unfold arrive. destruct (decide (SIGTERM ∈ sigmask w)); auto. }
  destruct Hcase as [Hc|Hc].
  - unfold unless_killed. rewrite Hc. apply HQ. exact Hst.
  - unfold unless_killed. rewrite Hc. now apply (uk_deliver reqs calls mask h rc).
Qed.

Lemma uk_os_action (ev : os_event) reqs calls mask h rc (w : world)
      (Q : unit -> world -> Prop) :
  (match ev with EvDelivered _ => false | _ => true end) = true ->
  os_state reqs calls mask h rc w ->
  (forall w', os_state reqs (calls ++ [ev]) mask h rc w' -> Q tt w') ->
  unless_killed (os_action E ev) w Q.
Proof.
  intros Hev Hst HQ.
  change (unless_killed
            (bind (if sigterm_before E (clock w) then arrive else ret tt)
                  (fun _ w0 => (Return tt, set_os_log (os_log w0 ++ [ev]) w0)))
            (set_clock (S (clock w)) w) Q).
  apply uk_bind.
  assert (Hst1 : os_state reqs calls mask h rc (set_clock (S (clock w)) w)) by exact Hst.
  assert (Hlog : forall w', os_state reqs calls mask h rc w' ->
                   unless_killed
                     (fun w0 => (Return tt, set_os_log (os_log w0 ++ [ev]) w0)) w' Q).
  { intros w' (Hs & Hc & Hm & Hh & Hr). apply HQ. repeat split; try assumption.
    cbn [os_log set_os_log]. rewrite syscalls_app, Hc. simpl. now rewrite Hev. }
  destruct (sigterm_before E (clock w)).
  - now apply (uk_arrive reqs calls mask h rc).
  - now apply Hlog.
Qed.

Lemma uk_pthread_sigmask (how : sigmask_how) (new : gset nat)
      reqs calls mask h rc (w : world) (Q : gset nat -> world -> Prop) :
  os_state reqs calls mask h rc w ->
  (forall w',
      os_state reqs (calls ++ [EvSigmask how new])
               (match how with
                | SIG_BLOCK => mask ∪ new
                | SIG_UNBLOCK => mask ∖ new
                | SIG_SETMASK => new
                end) h rc w' -> Q mask w') ->
  unless_killed (pthread_sigmask E how new) w Q.
Proof.
  intros Hst HQ. unfold pthread_sigmask. apply uk_bind.
  eapply uk_os_action; [reflexivity | exact Hst |].
  intros w1 (Hs & Hc & Hm & Hh & Hr).
  set (new_mask := match how with
                   | SIG_BLOCK => mask ∪ new
                   | SIG_UNBLOCK => mask ∖ new
                   | SIG_SETMASK => new
                   end) in *.
  unfold unless_killed. rewrite Hm. fold new_mask.
  destruct (sigterm_pending w1 && bool_decide (SIGTERM ∉ new_mask)).
  - fold (unless_killed (deliver ;;; ret mask)
            (set_sigterm_pending false (set_sigmask new_mask w1)) Q).
    apply uk_bind.
    apply (uk_deliver reqs (calls ++ [EvSigmask how new]) new_mask h rc).
    + now repeat split.
    + intros w' Hw'. now apply HQ.
  - apply HQ. now repeat split.
Qed.

Lemma uk_signal_signal (h' : handler) reqs calls mask h rc (w : world)
      (Q : handler -> world -> Prop) :
  os_state reqs calls mask h rc w ->
  (forall w',
      os_state reqs (calls ++ [EvSignal SIGTERM h']) mask h' rc w' -> Q h w') ->
  unless_killed (signal_signal E SIGTERM h') w Q.
Proof.
  intros Hst HQ. unfold signal_signal. apply uk_bind.
  eapply uk_os_action; [reflexivity | exact Hst |].
  intros w1 (Hs & Hc & Hm & Hh & Hr).
  unfold unless_killed.
  destruct (decide (SIGTERM = SIGTERM)); [|congruence].
  rewrite Hh. apply HQ. now repeat split.
Qed.

Lemma uk_popen_exit reqs calls mask h rc (w : world) (Q : unit -> world -> Prop) :
  os_state reqs calls mask h rc w ->
  (forall w' n,
      os_state reqs (calls ++ [EvPopenExit]) mask h
               (Some (child_returncode E n)) w' -> Q tt w') ->
  unless_killed
    (os_action E EvPopenExit ;;;
     (fun w => (Return tt,
                set_returncode (Some (child_returncode E (terminate_requests w))) w)))
    w Q.
Proof.
  intros Hst HQ. apply uk_bind.
  eapply uk_os_action; [reflexivity | exact Hst |].
  intros w1 (Hs & Hc & Hm & Hh & Hr).
  unfold unless_killed. apply (HQ _ (terminate_requests w1)). now repeat split.
Qed.

(** The supervised region of [main], unless the parent is killed. *)
Lemma supervised_region (args : list string) (data : string)
      reqs calls mask h rc (w : world) :
  os_state reqs calls mask h rc w ->
  unless_killed
    (popen_forward_sigterm E args true (fun p => stdin_write E p data)) w
    (fun _ w' =>
       exists n,
         os_state reqs (calls ++ supervised_calls args data mask h) mask h
                  (Some (child_returncode E n)) w').
Proof.
  intros Hst. unfold popen_forward_sigterm. unfold signal_mask at 1.
  apply uk_bind. eapply uk_pthread_sigmask; [exact Hst|]. intros w1 H1.
  apply uk_finally. unfold with_popen.
  apply uk_bind. eapply uk_os_action; [reflexivity | exact H1|]. intros w2 H2.
  apply uk_finally. unfold signal_handler.
  apply uk_bind. eapply uk_signal_signal; [exact H2|]. intros w3 H3.
  apply uk_finally. unfold signal_mask.
  apply uk_bind. eapply uk_pthread_sigmask; [exact H3|]. intros w4 H4.
  apply uk_finally.
  apply uk_bind. unfold stdin_write. cbn [popen_stdin].
  eapply uk_os_action; [reflexivity | exact H4|]. intros w5 H5.
  apply uk_bind. unfold stdin_close.
  eapply uk_os_action; [reflexivity | exact H5|]. intros w6 H6.
  apply uk_bind. unfold os_waitid.
  eapply uk_os_action; [reflexivity | exact H6|]. intros w7 H7.
  apply uk_ret.
  apply uk_bind. eapply uk_pthread_sigmask; [exact H7|]. intros w8 H8. apply uk_ret.
  apply uk_bind. eapply uk_signal_signal; [exact H8|]. intros w9 H9. apply uk_ret.
  eapply uk_popen_exit; [exact H9|]. intros w10 n H10.
  apply uk_bind. eapply uk_pthread_sigmask; [exact H10|]. intros w11 H11. apply uk_ret.
  exists n. unfold supervised_calls. rewrite <- !app_assoc in H11. exact H11.
Qed.
End Supervisor.

Lemma sigterm_deferred_until_forwarding_witness :
  let E := Scenario.with_signals [2%nat] in
  exists tail,
    os_log (snd (popen_forward_sigterm E ["openconnect"] true
                   (fun p => stdin_write E p "cookie123") (initial_world E)))
    = [EvSigmask SIG_BLOCK {[SIGTERM]};
       EvPopen ["openconnect"] true ∅;
       EvSignal SIGTERM ForwardTerminate;
       EvSigmask SIG_SETMASK ∅;
       EvDelivered ForwardTerminate] ++ tail.
Proof.
  intros E.
  destruct (sigterm_deferred_until_forwarding E ["openconnect"] true
              (fun p => stdin_write E p "cookie123") (initial_world E))
    as [tail Htail].
  - reflexivity.
  - intros p. apply appends_stdin_write.
  - exists tail. exact Htail.
Defined.

(* ===================================================================== *)
(** ** The hand-over of the credentials *)
(* ===================================================================== *)

Lemma main_after_check (E : Env) (fuel : nat) (gateway : string)
      (username password totp_key : option string) (sudo : bool) (w : world) :
  seed_usable E totp_key ->
  main E fuel gateway username password totp_key sudo w =
  (creds <- main_session E fuel gateway (login_name E username)
              (login_password E gateway (login_name E username) password)
              totp_key ;;
   popen_forward_sigterm E (subprocess_args gateway (fst creds) sudo) true
     (fun p => stdin_write E p (str_encode E (snd creds))) ;;;
   (fun w => (Raise (SystemExit (returncode w)), w))) w.
Proof.
  intros Hseed. unfold main.
  assert (Hcheck : (match totp_key, pyotp E with
                    | Some _, None => raise (SystemExit (Some 1))
                    | _, _ => ret tt
                    end) w = (Return tt, w)).
  { destruct Hseed as [->|Hpyotp]; [reflexivity|].
    destruct totp_key, (pyotp E); try reflexivity. congruence. }
  now rewrite (bind_return _ _ w w tt Hcheck).
Qed.

(** C8: after a login that produced the pair (samlUsername,
    preloginCookie), and unless the default action of a signal kills the
    parent, [main] spawns the client with [--user=<samlUsername>] among
    its arguments, writes the encoded cookie to the child's standard
    input in one write and nothing else, closes that stream, waits, and
    exits with the return code the wait stored in [p.returncode]. *)
Theorem credential_handoff (E : Env) (fuel : nat) (gateway : string)
        (username password totp_key : option string) (sudo : bool)
        (saml_username prelogin_cookie : string) (w0 w1 : world) :
  seed_usable E totp_key ->
  main_session E fuel gateway (login_name E username)
               (login_password E gateway (login_name E username) password)
               totp_key w0 = (Return (saml_username, prelogin_cookie), w1) ->
  (forall s, fst (main E fuel gateway username password totp_key sudo w0)
             <> Killed s) ->
  exists w2 n,
    main E fuel gateway username password totp_key sudo w0
    = (Raise (SystemExit (returncode w2)), w2)
    /\ returncode w2 = Some (child_returncode E n)
    /\ syscalls (os_log w2) =
       syscalls (os_log w1)
       ++ supervised_calls (subprocess_args gateway saml_username sudo)
                           (str_encode E prelogin_cookie)
                           (sigmask w1) (sigterm_handler w1)
    /\ In ("--user=" +:+ saml_username) (subprocess_args gateway saml_username sudo)
    /\ sent w2 = sent w1.
Proof.
  intros Hseed Hsession Halive.
  rewrite (main_after_check E fuel gateway username password totp_key sudo w0 Hseed)
    in Halive |- *.
  rewrite (bind_return _ _ w0 w1 _ Hsession) in Halive |- *.
  cbn [fst snd] in Halive |- *.
  pose proof (supervised_region E (subprocess_args gateway saml_username sudo)
                (str_encode E prelogin_cookie)
                (sent w1) (syscalls (os_log w1)) (sigmask w1) (sigterm_handler w1)
                (returncode w1) w1) as Hrun.
  unfold unless_killed in Hrun. unfold bind in Halive |- *.
  destruct (popen_forward_sigterm E (subprocess_args gateway saml_username sudo) true
              (fun p => stdin_write E p (str_encode E prelogin_cookie)) w1)
    as [[[]|e|s|] w2].
  - destruct Hrun as [n (Hs & Hc & Hm & Hh & Hr)]; [now repeat split|].
    exists w2, n. split; [reflexivity|]. split; [exact Hr|]. split; [exact Hc|].
    split; [|exact Hs].
    unfold subprocess_args. destruct sudo; simpl; tauto.
  - destruct Hrun. now repeat split.
  - exfalso. now apply (Halive s).
  - destruct Hrun. now repeat split.
Qed.

Lemma credential_handoff_witness :
  let E := Scenario.with_signals [2%nat] in
  exists w2 n,
    main E 1 "vpn.example" (Some "alice") (Some "pw") None false (initial_world E)
    = (Raise (SystemExit (returncode w2)), w2)
    /\ returncode w2 = Some (Z.of_nat n)
    /\ syscalls (os_log w2) =
       supervised_calls ["openconnect"; "vpn.example"; "--protocol=gp";
                         "--user=alice"; "--usergroup=gateway:prelogin-cookie";
                         "--passwd-on-stdin"]
                        "cookie123" ∅ SIG_DFL
    /\ In "--user=alice" (subprocess_args "vpn.example" "alice" false)
    /\ length (sent w2) = 5%nat.
Proof.
  intros E.
  destruct (credential_handoff E 1 "vpn.example" (Some "alice") (Some "pw") None
              false "alice" "cookie123" (initial_world E)
              (set_sent
                 [prelogin_request "vpn.example";
                  cookie_request "https://idp.example/sso?SAMLRequest=abc&RelayState=two";
                  primary_request E "idp.example" "alice" "pw";
                  redirect_request "idp.example" (JStr "T")
                    "https://idp.example/sso?SAMLRequest=abc&RelayState=two";
                  form_request "https://vpn.example/SAML20/SP/ACS"
                               [("SAMLResponse", "xyz")]]
                 (initial_world E)))
    as [w2 [n [Hmain [Hrc [Hcalls [Hin Hsent]]]]]].
  - now left.
  - reflexivity.
  - intros s. vm_compute. discriminate.
  - exists w2, n. split; [exact Hmain|]. split; [exact Hrc|].
    split; [exact Hcalls|]. split; [exact Hin|]. now rewrite Hsent.
Defined.
(* ===================================================================== *)
(** ** Further properties: the token pattern *)
(* ===================================================================== *)

Lemma strip_prefix_spec (p s rest : string) :
  strip_prefix p s = Some rest <-> s = p +:+ rest.
Proof.
  revert s. induction p as [|a p IH]; intros s; simpl.
  - split; [now intros [= ->] | now intros ->].
  - destruct s as [|b s].
    + split; discriminate.
    + destruct (Ascii.eqb a b) eqn:Hab.
      * apply Ascii.eqb_eq in Hab. subst b. rewrite IH.
        split; [now intros -> | now intros [= ->]].
      * split; [discriminate|]. intros [= -> _].
        now rewrite Ascii.eqb_refl in Hab.
Qed.

(** X1: the pattern [token(?::|$)] of the loop accepts exactly the type
    [token], the type [token] followed by a final newline, and the types
    that start with [token:]. *)
Theorem re_match_token_spec (s : string) :
  re_match_token s = true <->
  s = "token"
  \/ s = "token" +:+ String newline ""
  \/ exists rest, s = "token:" +:+ rest.
Proof.
  unfold re_match_token.
  destruct (strip_prefix "token" s) as [tail|] eqn:Hp.
  - apply strip_prefix_spec in Hp. subst s. destruct tail as [|c tail].
    + split; [now left | reflexivity].
    + split.
      * intros Hc. apply orb_prop in Hc. destruct Hc as [Hc|Hc].
        -- apply Ascii.eqb_eq in Hc. subst c. right. right. now exists tail.
        -- apply andb_prop in Hc. destruct Hc as [Hc Ht].
           apply Ascii.eqb_eq in Hc. apply String.eqb_eq in Ht. subst.
           right. now left.
      * intros [H|[H|[rest H]]].
        -- discriminate.
        -- injection H as -> ->. now rewrite Ascii.eqb_refl, orb_true_r.
        -- injection H as -> _. reflexivity.
  - split; [discriminate|].
    intros [->|[->|[rest ->]]]; discriminate.
Qed.

(* ===================================================================== *)
(** ** Further properties: [post_json] *)
(* ===================================================================== *)

Lemma http_error_range (r : response) :
  http_error r = true <-> 400 <= status_code r < 600.
Proof. unfold http_error. rewrite andb_true_iff, Z.leb_le, Z.ltb_lt. tauto. Qed.

(** X2: [post_json] sends its request whatever comes back; a status from
    400 to 599 raises [HTTPError] without the body being read, any
    other status with a body that is not JSON raises [ValueError], and
    otherwise the parsed document is returned. *)
Theorem post_json_outcomes (E : Env) (url : string) (data : Dict.t json) (w : world) :
  let r := server E (length (sent w)) in
  let w' := set_sent (sent w ++ [json_request E url data]) w in
  (400 <= status_code r < 600 ->
   post_json E url data w = (Raise (HTTPError (status_code r)), w'))
  /\ (~ 400 <= status_code r < 600 ->
      (json_loads E (content r) = None ->
       post_json E url data w = (Raise ValueError, w'))
      /\ (forall j, json_loads E (content r) = Some j ->
                    post_json E url data w = (Return j, w'))).
Proof.
  intros r w'. split.
  - intros Hbad. apply http_error_range in Hbad.
    unfold post_json. apply bind_raise. unfold bind. rewrite send_run.
    unfold check. fold r. now rewrite Hbad.
  - intros Hok.
    assert (Hok' : http_error r = false).
    { destruct (http_error r) eqn:H; [|reflexivity].
      apply http_error_range in H. contradiction. }
    split.
    + intros Hnone. unfold post_json, response_json, check. monad_simpl.
      rewrite send_run. fold r. now rewrite Hok', Hnone.
    + intros j Hj. now apply post_json_ok.
Qed.

Lemma post_json_outcomes_witness :
  let E := Scenario.scripted [Scenario.ok "not json"] in
  post_json E "https://idp.example/api/v1/authn" [] (initial_world E)
  = (Raise ValueError,
     set_sent [json_request E "https://idp.example/api/v1/authn" []]
              (initial_world E)).
Proof.
  intros E.
  destruct (post_json_outcomes E "https://idp.example/api/v1/authn" []
              (initial_world E)) as [_ H].
  destruct H as [H _].
  - simpl. lia.
  - now apply H.
Defined.

Lemma json_request_envelope (E : Env) (url : string) (data : Dict.t json) :
  json_envelope E (json_request E url data).
Proof.
  repeat split. unfold body_field, json_request. simpl.
  apply dict_get_set_eq.
Qed.

Lemma json_request_keeps (E : Env) (url : string) (data : Dict.t json) (k : string) :
  k <> "context" ->
  body_field (json_request E url data) k = Dict.get k data.
Proof.
  intros Hk. unfold body_field, json_request. simpl.
  apply dict_get_set_ne. congruence.
Qed.

Section JsonRequests.
Variable E : Env.
Variable P : request -> Prop.
Hypothesis P_json : forall url data, P (json_request E url data).

Lemma sends_json_push_loop (fuel : nat) (url r : json) :
  sends_only P (push_loop E fuel url r).
Proof.
  revert r. induction fuel as [|fuel IH]; intros r; simpl; [auto with sends|].
  step. apply sends_only_bind; [apply sends_only_as_url | intros u].
  apply sends_only_bind; [apply sends_only_post_json, P_json | intros r'].
  step. destruct (negb (str_eq _ "MFA_CHALLENGE")); [auto with sends|].
  step. step. apply IH.
Qed.

Lemma sends_json_sms_branch (factor r : json) :
  sends_only P (sms_branch E factor r).
Proof.
  unfold sms_branch.
  apply sends_only_bind; [apply sends_only_verify_href | intros url].
  step. apply sends_only_bind; [apply sends_only_as_url | intros u].
  apply sends_only_bind; [apply sends_only_post_json, P_json | intros r'].
  step. step. step.
  apply sends_only_bind; [apply sends_only_as_url | intros u'].
  apply sends_only_post_json, P_json.
Qed.

Lemma sends_json_token_branch (totp_key : option string) (factor r : json) :
  sends_only P (token_branch E totp_key factor r).
Proof.
  unfold token_branch.
  apply sends_only_bind; [apply sends_only_verify_href | intros url].
  step. apply sends_only_bind; [apply sends_only_as_url | intros u].
  apply sends_only_bind; [apply sends_only_post_json, P_json | intros r'].
  step. step.
  apply sends_only_bind; [apply sends_only_one_time_code | intros code].
  step.
  apply sends_only_bind; [apply sends_only_as_url | intros u'].
  apply sends_only_post_json, P_json.
Qed.

Lemma sends_json_for_factors (fuel : nat) (totp_key : option string) (r : json)
      (factors : list json) :
  sends_only P (for_factors E fuel totp_key r factors).
Proof.
  induction factors as [|f factors IH]; simpl; [auto with sends|].
  step. destruct (str_eq _ "push").
  { unfold push_branch.
    apply sends_only_bind; [apply sends_only_verify_href | intros url].
    apply sends_json_push_loop. }
  step. destruct (str_eq _ "sms"); [apply sends_json_sms_branch|].
  step. apply sends_only_bind.
  { unfold re_match_token_json. destruct a1; auto with sends. }
  intros m. destruct m; [apply sends_json_token_branch | exact IH].
Qed.

Lemma sends_json_okta_auth (fuel : nat) (domain username password : string)
      (totp_key : option string) :
  sends_only P (okta_auth E fuel domain username password totp_key).
Proof.
  unfold okta_auth.
  apply sends_only_bind; [apply sends_only_post_json, P_json | intros r].
  step. apply sends_only_bind.
  - destruct (str_eq _ "MFA_REQUIRED"); [|auto with sends].
    step. step. apply sends_only_bind.
    { unfold iter. destruct a1; auto with sends. }
    intros items. apply sends_only_bind.
    { unfold sorted. apply sends_only_bind.
      - apply sends_only_traverse. intros f. unfold priority. step.
        destruct a2; auto with sends.
      - intros keys. auto with sends. }
    intros ordered. apply sends_json_for_factors.
  - intros r'. step. step. auto with sends.
Qed.
End JsonRequests.

(** X3: whatever the server answers and whichever factor is pursued,
    every request [okta_auth] sends is a POST with the JSON content type
    whose body binds [context] to the device token, and [okta_auth]
    changes nothing else in the world; a [context] entry of the caller
    is replaced and every other entry of the body is kept. *)
Theorem okta_auth_envelope (E : Env) (fuel : nat)
        (domain username password : string) (totp_key : option string) :
  sends_only (json_envelope E)
             (okta_auth E fuel domain username password totp_key)
  /\ (forall url data, json_envelope E (json_request E url data))
  /\ (forall url data k,
         k <> "context" ->
         body_field (json_request E url data) k = Dict.get k data).
Proof.
  split; [|split].
  - apply sends_json_okta_auth. apply json_request_envelope.
  - apply json_request_envelope.
  - apply json_request_keeps.
Qed.

(* ===================================================================== *)
(** ** Further properties: the authentication engine *)
(* ===================================================================== *)

Lemma getitem_key_error (j v : json) (k k' : string) (w : world) :
  field j k' = Some v ->
  field j k = None ->
  getitem j k w = (Raise (KeyError k), w).
Proof.
  destruct j; try discriminate. simpl. now intros _ ->.
Qed.

(** X4: when the primary answer does not have status [MFA_REQUIRED],
    [okta_auth] sends nothing after the primary request: with status
    [SUCCESS] it returns the session token, or raises [KeyError] when
    the answer has none; with any other status it raises
    [AssertionError]. *)
Theorem okta_auth_without_mfa (E : Env) (fuel : nat)
        (domain username password : string) (totp_key : option string)
        (r status : json) (w : world) :
  answers E (length (sent w)) r ->
  field r "status" = Some status ->
  str_eq status "MFA_REQUIRED" = false ->
  let w' := set_sent (sent w ++ [primary_request E domain username password]) w in
  (str_eq status "SUCCESS" = false ->
   okta_auth E fuel domain username password totp_key w = (Raise AssertionError, w'))
  /\ (str_eq status "SUCCESS" = true ->
      (forall token,
          field r "sessionToken" = Some token ->
          okta_auth E fuel domain username password totp_key w = (Return token, w'))
      /\ (field r "sessionToken" = None ->
          okta_auth E fuel domain username password totp_key w
          = (Raise (KeyError "sessionToken"), w'))).
Proof.
  intros Hr Hstatus Hmfa w'.
  assert (Hrun : okta_auth E fuel domain username password totp_key w =
                 (status' <- getitem r "status" ;;
                  assert (str_eq status' "SUCCESS") ;;;
                  getitem r "sessionToken") w').
  { unfold okta_auth.
    rewrite (bind_return _ _ w _ r (post_json_ok E _ _ r w Hr)). fold w'.
    rewrite (bind_return _ _ w' w' _ (getitem_field _ _ _ w' Hstatus)).
    rewrite Hmfa. now rewrite (bind_return _ _ w' w' r) by reflexivity. }
  rewrite Hrun.
  rewrite (bind_return _ _ w' w' _ (getitem_field _ _ _ w' Hstatus)).
  split.
  - now intros ->.
  - intros ->. cbn [assert]. rewrite (bind_return _ _ w' w' tt) by reflexivity.
    split.
    + intros token Htoken. now apply getitem_field.
    + intros Hnone. now apply (getitem_key_error r status "sessionToken" "status").
Qed.

Lemma okta_auth_without_mfa_witness :
  let E := Scenario.scripted [Scenario.ok "rejected"] in
  okta_auth E 1 "idp.example" "alice" "pw" None (initial_world E)
  = (Raise AssertionError,
     set_sent [primary_request E "idp.example" "alice" "pw"] (initial_world E)).
Proof.
  intros E.
  destruct (okta_auth_without_mfa E 1 "idp.example" "alice" "pw" None
              Scenario.rejected (JStr "MFA_CHALLENGE") (initial_world E))
    as [H _].
  - split; reflexivity.
  - reflexivity.
  - reflexivity.
  - now apply H.
Defined.

(** X5: the outcome of [okta_auth] after [MFA_REQUIRED] is that of the
    one branch it runs: an exception of the branch is the exception of
    [okta_auth], an answer of the branch whose status is not [SUCCESS]
    raises [AssertionError], and in both cases the world is the one the
    branch left, so no other factor is tried. *)
Theorem okta_auth_no_fallback (E : Env) (fuel : nat)
        (domain username password : string) (totp_key : option string)
        (r : json) (factors : list json) (f : json) (w : world) :
  answers E (length (sent w)) r ->
  offers r factors ->
  Forall (fun g => typed_factor g = true) factors ->
  chosen_factor totp_key factors = Some f ->
  let w1 := set_sent (sent w ++ [primary_request E domain username password]) w in
  (forall e w2,
      run_factor E fuel totp_key f r w1 = (Raise e, w2) ->
      okta_auth E fuel domain username password totp_key w = (Raise e, w2))
  /\ (forall r' w2 status,
         run_factor E fuel totp_key f r w1 = (Return r', w2) ->
         field r' "status" = Some status ->
         (str_eq status "SUCCESS" = false ->
          okta_auth E fuel domain username password totp_key w
          = (Raise AssertionError, w2))
         /\ (str_eq status "SUCCESS" = true ->
             forall token,
               field r' "sessionToken" = Some token ->
               okta_auth E fuel domain username password totp_key w
               = (Return token, w2))).
Proof.
  intros Hr Hoffers Hty Hchosen w1.
  rewrite (okta_auth_mfa_required E fuel domain username password totp_key
             r factors w Hr Hoffers Hty).
  rewrite Hchosen. fold w1. split.
  - intros e w2 Hrun. now apply bind_raise.
  - intros r' w2 status Hrun Hstatus.
    rewrite (bind_return _ _ w1 w2 _ Hrun).
    rewrite (bind_return _ _ w2 w2 _ (getitem_field _ _ _ w2 Hstatus)).
    split.
    + now intros ->.
    + intros -> token Htoken. cbn [assert].
      rewrite (bind_return _ _ w2 w2 tt) by reflexivity.
      now apply getitem_field.
Qed.

Lemma okta_auth_no_fallback_witness :
  let E := Scenario.scripted
             [Scenario.ok "mfa-sms-push"; Scenario.ok "rejected"] in
  okta_auth E 1 "idp.example" "alice" "pw" None (initial_world E)
  = (Raise AssertionError,
     set_sent [primary_request E "idp.example" "alice" "pw";
               poll_request E "https://idp.example/push" (JStr "st0")]
              (initial_world E)).
Proof.
  intros E.
  destruct (okta_auth_no_fallback E 1 "idp.example" "alice" "pw" None
              (Scenario.mfa_required [Scenario.sms; Scenario.push])
              [Scenario.sms; Scenario.push] Scenario.push (initial_world E))
    as [H _].
  - split; reflexivity.
  - split; [reflexivity|]. eexists. split; reflexivity.
  - repeat constructor.
  - reflexivity.
  - apply H. reflexivity.
Defined.

Lemma traverse_priority_missing (totp_key : option string)
      (before after : list json) (members : list (string * json)) (w : world) :
  Forall (fun f => typed_factor f = true) before ->
  Dict.get "factorType" members = None ->
  traverse (priority totp_key) (before ++ JObj members :: after) w
  = (Raise (KeyError "factorType"), w).
Proof.
  intros Hbefore Hnone.
  induction Hbefore as [|f before Hf _ IH]; simpl.
  - unfold bind, priority, bind, getitem. now rewrite Hnone.
  - destruct (typed_factor_type f Hf) as [s Hs].
    rewrite (bind_return _ _ w w (rank totp_key s)) by now apply priority_typed.
    now apply bind_raise.
Qed.

(** X6: the priorities of all factors are computed before the loop
    starts, so one factor without a [factorType] makes [okta_auth] raise
    [KeyError] right after the primary request, wherever it stands in
    the list and whatever the factors before it are. *)
Theorem okta_auth_untyped_factor (E : Env) (fuel : nat)
        (domain username password : string) (totp_key : option string)
        (r : json) (before after : list json) (members : list (string * json))
        (w : world) :
  answers E (length (sent w)) r ->
  offers r (before ++ JObj members :: after) ->
  Forall (fun f => typed_factor f = true) before ->
  Dict.get "factorType" members = None ->
  okta_auth E fuel domain username password totp_key w
  = (Raise (KeyError "factorType"),
     set_sent (sent w ++ [primary_request E domain username password]) w).
Proof.
  intros Hr [Hstatus [embedded [Hemb Hfactors]]] Hbefore Hnone.
  unfold okta_auth.
  rewrite (bind_return _ _ w _ r (post_json_ok E _ _ r w Hr)).
  set (w1 := set_sent _ w).
  rewrite (bind_return _ _ w1 w1 _ (getitem_field _ _ _ w1 Hstatus)).
  cbn [str_eq]. rewrite String.eqb_refl.
  apply bind_raise.
  rewrite (bind_return _ _ w1 w1 _ (getitem_field _ _ _ w1 Hemb)).
  rewrite (bind_return _ _ w1 w1 _ (getitem_field _ _ _ w1 Hfactors)).
  cbn [iter]. rewrite (bind_return _ _ w1 w1 _) by reflexivity.
  apply bind_raise. unfold sorted. apply bind_raise.
  now apply traverse_priority_missing.
Qed.

Lemma okta_auth_untyped_factor_witness :
  let untyped := [("id", JStr "x")] in
  let doc := Scenario.mfa_required [Scenario.push; JObj untyped] in
  let E := Scenario.env [("mfa", doc)] [] [Scenario.ok "mfa"] [] in
  okta_auth E 1 "idp.example" "alice" "pw" None (initial_world E)
  = (Raise (KeyError "factorType"),
     set_sent [primary_request E "idp.example" "alice" "pw"] (initial_world E)).
Proof.
  intros untyped doc E.
  apply (okta_auth_untyped_factor E 1 "idp.example" "alice" "pw" None doc
           [Scenario.push] [] untyped (initial_world E)).
  - split; reflexivity.
  - split; [reflexivity|]. eexists. split; reflexivity.
  - repeat constructor.
  - reflexivity.
Defined.

(** X7: the sms branch posts the state token to the verify URL; unless
    the answer has status [MFA_CHALLENGE] it raises [AssertionError]
    there, and otherwise it posts the state token of that answer with
    the code typed at the prompt [SMS code: ] as [passCode] and returns
    the second answer. *)
Theorem sms_branch_run (E : Env) (factor r : json) (url : string)
        (token c status : json) (w : world) :
  verify_url factor = Some (JStr url) ->
  field r "stateToken" = Some token ->
  answers E (length (sent w)) c ->
  field c "status" = Some status ->
  (str_eq status "MFA_CHALLENGE" = false ->
   sms_branch E factor r w
   = (Raise AssertionError,
      set_sent (sent w ++ [json_request E url [("stateToken", token)]]) w))
  /\ (str_eq status "MFA_CHALLENGE" = true ->
      forall token' rf,
        field c "stateToken" = Some token' ->
        answers E (S (length (sent w))) rf ->
        sms_branch E factor r w
        = (Return rf,
           set_sent (sent w
                     ++ [json_request E url [("stateToken", token)];
                         json_request E url
                           [("stateToken", token');
                            ("passCode", JStr (console_input E "SMS code: "))]])
                    w)).
Proof.
  intros Hurl Htoken Hc Hstatus.
  assert (Hrun : sms_branch E factor r w =
                 (assert (str_eq status "MFA_CHALLENGE") ;;;
                  state_token <- getitem c "stateToken" ;;
                  u <- as_url (JStr url) ;;
                  post_json E u [("stateToken", state_token);
                                 ("passCode", JStr (console_input E "SMS code: "))])
                   (set_sent (sent w ++ [json_request E url [("stateToken", token)]]) w)).
  { unfold sms_branch.
    rewrite (bind_return _ _ w w _ (verify_href_url _ _ w Hurl)).
    rewrite (bind_return _ _ w w _ (getitem_field _ _ _ w Htoken)).
    cbn [as_url]. rewrite (bind_return _ _ w w url) by reflexivity.
    rewrite (bind_return _ _ w _ c (post_json_ok E _ _ c w Hc)).
    now rewrite (bind_return _ _ _ _ _ (getitem_field _ _ _ _ Hstatus)). }
  rewrite Hrun. set (w1 := set_sent _ w). split.
  - now intros ->.
  - intros -> token' rf Htoken' Hrf. cbn [assert].
    rewrite (bind_return _ _ w1 w1 tt) by reflexivity.
    rewrite (bind_return _ _ w1 w1 _ (getitem_field _ _ _ w1 Htoken')).
    cbn [as_url]. rewrite (bind_return _ _ w1 w1 url) by reflexivity.
    rewrite post_json_ok with (j := rf).
    + subst w1. now rewrite set_sent_app, <- app_assoc.
    + subst w1. simpl. rewrite length_app. simpl.
      now replace (length (sent w) + 1)%nat with (S (length (sent w))) by lia.
Qed.

Lemma sms_branch_run_witness :
  let E := Scenario.scripted [Scenario.ok "challenge"; Scenario.ok "success"] in
  sms_branch E Scenario.sms (Scenario.mfa_required [Scenario.sms]) (initial_world E)
  = (Return (Scenario.success "T"),
     set_sent [json_request E "https://idp.example/sms" [("stateToken", JStr "st0")];
               json_request E "https://idp.example/sms"
                 [("stateToken", JStr "st1"); ("passCode", JStr "000000")]]
              (initial_world E)).
Proof.
  intros E.
  destruct (sms_branch_run E Scenario.sms (Scenario.mfa_required [Scenario.sms])
              "https://idp.example/sms" (JStr "st0") (Scenario.challenge "st1")
              (JStr "MFA_CHALLENGE") (initial_world E)) as [_ H].
  - reflexivity.
  - reflexivity.
  - split; reflexivity.
  - reflexivity.
  - apply (H eq_refl (JStr "st1")); [reflexivity | split; reflexivity].
Defined.

Lemma one_time_code_seed (E : Env) (factor : json) (key code : string)
      (now : string -> option string) (w : world) :
  factor_type factor = Some "token:software:totp" ->
  pyotp E = Some now ->
  now key = Some code ->
  one_time_code E (Some key) factor w = (Return code, w).
Proof.
  intros Hty Hpyotp Hnow. unfold one_time_code.
  rewrite (bind_return _ _ w w _
             (getitem_field _ _ _ w (factor_type_field _ _ Hty))).
  cbn [str_eq]. rewrite String.eqb_refl. now rewrite Hpyotp, Hnow.
Qed.

Lemma one_time_code_prompt (E : Env) (totp_key : option string) (factor : json)
      (s : string) (w : world) :
  factor_type factor = Some s ->
  totp_key = None \/ s <> "token:software:totp" ->
  one_time_code E totp_key factor w =
  (provider <- getitem factor "provider" ;;
   vendor <- getitem factor "vendorName" ;;
   ret (console_input E (token_prompt E provider vendor))) w.
Proof.
  intros Hty Hprompt. unfold one_time_code.
  rewrite (bind_return _ _ w w _
             (getitem_field _ _ _ w (factor_type_field _ _ Hty))).
  cbn [str_eq]. destruct Hprompt as [->|Hs].
  - now destruct (String.eqb s "token:software:totp").
  - apply String.eqb_neq in Hs. rewrite Hs. now destruct totp_key.
Qed.

(** X8: the token branch posts the state token to the verify URL and,
    after an [MFA_CHALLENGE] answer, posts that answer's state token
    with a [passCode].  For the software TOTP type with a seed the code
    is the one [pyotp] computes and the factor's [provider] and
    [vendorName] are not read; in every other case the code is typed at
    a prompt naming the two, and a factor without [provider] raises
    [KeyError] after the first verify request has been sent. *)
Theorem token_branch_run (E : Env) (totp_key : option string)
        (factor r : json) (s url : string) (token c token' : json) (w : world) :
  factor_type factor = Some s ->
  verify_url factor = Some (JStr url) ->
  field r "stateToken" = Some token ->
  answers E (length (sent w)) c ->
  field c "status" = Some (JStr "MFA_CHALLENGE") ->
  field c "stateToken" = Some token' ->
  let first := json_request E url [("stateToken", token)] in
  let second code :=
    json_request E url [("stateToken", token'); ("passCode", JStr code)] in
  (forall key now code rf,
      s = "token:software:totp" ->
      totp_key = Some key ->
      pyotp E = Some now ->
      now key = Some code ->
      answers E (S (length (sent w))) rf ->
      token_branch E totp_key factor r w
      = (Return rf, set_sent (sent w ++ [first; second code]) w))
  /\ (totp_key = None \/ s <> "token:software:totp" ->
      (forall provider vendor rf,
          field factor "provider" = Some provider ->
          field factor "vendorName" = Some vendor ->
          answers E (S (length (sent w))) rf ->
          token_branch E totp_key factor r w
          = (Return rf,
             set_sent (sent w
                       ++ [first;
                           second (console_input E
                                     (token_prompt E provider vendor))]) w))
      /\ (field factor "provider" = None ->
          token_branch E totp_key factor r w
          = (Raise (KeyError "provider"), set_sent (sent w ++ [first]) w))).
Proof.
  intros Hty Hurl Htoken Hc Hstatus Htoken' first second.
  set (w1 := set_sent (sent w ++ [first]) w).
  assert (Hrun : token_branch E totp_key factor r w =
                 (code <- one_time_code E totp_key factor ;;
                  state_token <- getitem c "stateToken" ;;
                  u <- as_url (JStr url) ;;
                  post_json E u [("stateToken", state_token);
                                 ("passCode", JStr code)]) w1).
  { unfold token_branch.
    rewrite (bind_return _ _ w w _ (verify_href_url _ _ w Hurl)).
    rewrite (bind_return _ _ w w _ (getitem_field _ _ _ w Htoken)).
    cbn [as_url]. rewrite (bind_return _ _ w w url) by reflexivity.
    rewrite (bind_return _ _ w _ c (post_json_ok E _ _ c w Hc)). fold first w1.
    rewrite (bind_return _ _ w1 w1 _ (getitem_field _ _ _ w1 Hstatus)).
    cbn [str_eq]. rewrite String.eqb_refl. cbn [assert].
    now rewrite (bind_return _ _ w1 w1 tt) by reflexivity. }
  assert (Hsecond : forall code rf,
             answers E (S (length (sent w))) rf ->
             (state_token <- getitem c "stateToken" ;;
              u <- as_url (JStr url) ;;
              post_json E u [("stateToken", state_token); ("passCode", JStr code)]) w1
             = (Return rf, set_sent (sent w ++ [first; second code]) w)).
  { intros code rf Hrf.
    rewrite (bind_return _ _ w1 w1 _ (getitem_field _ _ _ w1 Htoken')).
    cbn [as_url]. rewrite (bind_return _ _ w1 w1 url) by reflexivity.
    rewrite post_json_ok with (j := rf).
    - subst w1. now rewrite set_sent_app, <- app_assoc.
    - subst w1. simpl. rewrite length_app. simpl.
      now replace (length (sent w) + 1)%nat with (S (length (sent w))) by lia. }
  rewrite Hrun. split.
  - intros key now code rf -> -> Hpyotp Hnow Hrf.
    rewrite (bind_return _ _ w1 w1 _
               (one_time_code_seed E factor key code now w1 Hty Hpyotp Hnow)).
    now apply Hsecond.
  - intros Hprompt. split.
    + intros provider vendor rf Hprovider Hvendor Hrf.
      rewrite (bind_return _ _ w1 w1
                 (console_input E (token_prompt E provider vendor))).
      * now apply Hsecond.
      * rewrite (one_time_code_prompt E totp_key factor s w1 Hty Hprompt).
        rewrite (bind_return _ _ w1 w1 _ (getitem_field _ _ _ w1 Hprovider)).
        now rewrite (bind_return _ _ w1 w1 _ (getitem_field _ _ _ w1 Hvendor)).
    + intros Hnone. apply bind_raise.
      rewrite (one_time_code_prompt E totp_key factor s w1 Hty Hprompt).
      apply bind_raise.
      apply (getitem_key_error factor (JStr s) "provider" "factorType").
      * now apply factor_type_field.
      * exact Hnone.
Qed.

Lemma token_branch_run_witness :
  let E := Scenario.scripted [Scenario.ok "challenge"; Scenario.ok "success"] in
  token_branch E (Some "seed") Scenario.totp
               (Scenario.mfa_required [Scenario.totp]) (initial_world E)
  = (Return (Scenario.success "T"),
     set_sent [json_request E "https://idp.example/totp" [("stateToken", JStr "st0")];
               json_request E "https://idp.example/totp"
                 [("stateToken", JStr "st1"); ("passCode", JStr "123456")]]
              (initial_world E))
  /\ token_branch E None Scenario.totp
                  (Scenario.mfa_required [Scenario.totp]) (initial_world E)
     = (Return (Scenario.success "T"),
        set_sent [json_request E "https://idp.example/totp" [("stateToken", JStr "st0")];
                  json_request E "https://idp.example/totp"
                    [("stateToken", JStr "st1"); ("passCode", JStr "000000")]]
                 (initial_world E)).
Proof.
  intros E. split.
  - destruct (token_branch_run E (Some "seed") Scenario.totp
                (Scenario.mfa_required [Scenario.totp]) "token:software:totp"
                "https://idp.example/totp" (JStr "st0") (Scenario.challenge "st1")
                (JStr "st1") (initial_world E)) as [H _].
    + reflexivity.
    + reflexivity.
    + reflexivity.
    + split; reflexivity.
    + reflexivity.
    + reflexivity.
    + apply (H "seed" (fun _ => Some "123456") "123456");
        [reflexivity | reflexivity | reflexivity | reflexivity | split; reflexivity].
  - destruct (token_branch_run E None Scenario.totp
                (Scenario.mfa_required [Scenario.totp]) "token:software:totp"
                "https://idp.example/totp" (JStr "st0") (Scenario.challenge "st1")
                (JStr "st1") (initial_world E)) as [_ H].
    + reflexivity.
    + reflexivity.
    + reflexivity.
    + split; reflexivity.
    + reflexivity.
    + reflexivity.
    + destruct (H (or_introl eq_refl)) as [Hprompt _].
      apply (Hprompt (JStr "OKTA") (JStr "OKTA"));
        [reflexivity | reflexivity | split; reflexivity].
Defined.

(** X9: the push loop has no bound of its own: after any number of
    waiting answers it has sent exactly one verify request per answer
    and is still polling. *)
Theorem push_loop_unbounded (E : Env) (url : string) (r : json)
        (polls : list json) (w : world) :
  field r "stateToken" <> None ->
  Forall waiting polls ->
  plays E (length (sent w)) polls ->
  push_loop E (length polls) (JStr url) r w
  = (Spinning, set_sent (sent w ++ poll_requests E url r polls) w)
  /\ length (poll_requests E url r polls) = length polls.
Proof.
  intros Htoken Hwaiting Hplays. split.
  - replace (length polls) with (length polls + 0)%nat at 1 by lia.
    now rewrite (push_loop_waiting E url polls 0%nat r w Htoken Hwaiting Hplays).
  - apply poll_requests_length.
Qed.

Lemma push_loop_unbounded_witness :
  let E := Scenario.scripted [Scenario.ok "waiting-1"; Scenario.ok "waiting-2"] in
  push_loop E 2 (JStr "https://idp.example/push")
            (Scenario.mfa_required [Scenario.push]) (initial_world E)
  = (Spinning,
     set_sent [poll_request E "https://idp.example/push" (JStr "st0");
               poll_request E "https://idp.example/push" (JStr "st1")]
              (initial_world E)).
Proof.
  intros E.
  apply (proj1 (push_loop_unbounded E "https://idp.example/push"
                  (Scenario.mfa_required [Scenario.push])
                  [Scenario.waiting "st1"; Scenario.waiting "st2"]
                  (initial_world E)
                  ltac:(discriminate)
                  ltac:(repeat constructor; discriminate)
                  ltac:(repeat split; reflexivity))).
Defined.

(** X10: nothing in the push loop is retried: when, after any number of
    waiting answers, the server answers a poll with a status from 400 to
    599, the loop raises [HTTPError] with that status and the poll that
    got it is the last request. *)
Theorem push_loop_http_error (E : Env) (fuel : nat) (url : string) (r : json)
        (polls : list json) (w : world) :
  field r "stateToken" <> None ->
  Forall waiting polls ->
  plays E (length (sent w)) polls ->
  http_error (server E (length (sent w) + length polls)) = true ->
  (length polls < fuel)%nat ->
  push_loop E fuel (JStr url) r w
  = (Raise (HTTPError (status_code (server E (length (sent w) + length polls)))),
     set_sent (sent w
               ++ poll_requests E url r polls
               ++ [poll_request E url (state_token (List.last polls r))]) w).
Proof.
  intros Htoken Hwaiting Hplays Hbad Hfuel.
  replace fuel with (length polls + S (fuel - S (length polls)))%nat by lia.
  rewrite (push_loop_waiting E url polls _ r w Htoken Hwaiting Hplays).
  set (w1 := set_sent _ w).
  pose proof (last_token polls r Htoken Hwaiting) as Hlast.
  destruct (field (List.last polls r) "stateToken") as [t|] eqn:Ht; [|congruence].
  cbn [push_loop].
  rewrite (bind_return _ _ w1 w1 t) by now apply getitem_field.
  cbn [as_url]. rewrite (bind_return _ _ w1 w1 url) by reflexivity.
  apply bind_raise. unfold post_json. apply bind_raise.
  unfold bind. rewrite send_run. unfold check.
  assert (Hlen : length (sent w1) = (length (sent w) + length polls)%nat).
  { subst w1. simpl. now rewrite length_app, poll_requests_length. }
  rewrite Hlen, Hbad. subst w1. rewrite set_sent_app, <- app_assoc.
  unfold poll_request, state_token. now rewrite Ht.
Qed.

Lemma push_loop_http_error_witness :
  let E := Scenario.scripted [Scenario.ok "waiting-1"] in
  push_loop E 5 (JStr "https://idp.example/push")
            (Scenario.mfa_required [Scenario.push]) (initial_world E)
  = (Raise (HTTPError 500),
     set_sent [poll_request E "https://idp.example/push" (JStr "st0");
               poll_request E "https://idp.example/push" (JStr "st1")]
              (initial_world E)).
Proof.
  intros E.
  apply (push_loop_http_error E 5 "https://idp.example/push"
           (Scenario.mfa_required [Scenario.push]) [Scenario.waiting "st1"]
           (initial_world E)).
  - discriminate.
  - repeat constructor; discriminate.
  - repeat split; reflexivity.
  - reflexivity.
  - simpl. lia.
Defined.

(* ===================================================================== *)
(** ** Further properties: forms and the SAML exchanges *)
(* ===================================================================== *)



Lemma dict_set_keys {V} (k : string) (v : V) (d : Dict.t V) :
  map fst (Dict.set k v d) =
  if Dict.mem k d then map fst d else map fst d ++ [k].
Proof.
  unfold Dict.mem. induction d as [|[k' v'] d IH]; simpl; [reflexivity|].
  destruct (String.eqb k k') eqn:Hk; simpl; [reflexivity|].
  rewrite IH. now destruct (Dict.get k d).
Qed.

Lemma dict_mem_keys {V} (k : string) (d : Dict.t V) :
  Dict.mem k d = true <-> In k (map fst d).
Proof.
  unfold Dict.mem. induction d as [|[k' v'] d IH]; simpl.
  - split; [discriminate | tauto].
  - destruct (String.eqb k k') eqn:Hk.
    + apply String.eqb_eq in Hk. subst. split; auto.
    + rewrite IH. split; [auto|]. intros [->|H]; [|exact H].
      now rewrite String.eqb_refl in Hk.
Qed.

Lemma dict_set_nodup {V} (k : string) (v : V) (d : Dict.t V) :
  List.NoDup (map fst d) -> List.NoDup (map fst (Dict.set k v d)).
Proof.
  intros Hd. rewrite dict_set_keys.
  destruct (Dict.mem k d) eqn:Hmem; [exact Hd|].
  apply List.NoDup_app; [exact Hd | repeat constructor; simpl; tauto |].
  intros x Hx [<-|[]]. apply dict_mem_keys in Hx. congruence.
Qed.

Lemma dict_of_items_keys {V} (items : list (string * V)) :
  List.NoDup (map fst (Dict.of_items items))
  /\ forall k, In k (map fst (Dict.of_items items)) <-> In k (map fst items).
Proof.
  unfold Dict.of_items.
  assert (H : forall d : Dict.t V,
             List.NoDup (map fst d) ->
             List.NoDup (map fst (fold_left
                                    (fun d kv => Dict.set (fst kv) (snd kv) d)
                                    items d))
             /\ forall k,
                 In k (map fst (fold_left
                                  (fun d kv => Dict.set (fst kv) (snd kv) d)
                                  items d))
                 <-> In k (map fst d) \/ In k (map fst items)).
  { induction items as [|[k0 v0] items IH]; intros d Hd; simpl.
    - split; [exact Hd | tauto].
    - destruct (IH (Dict.set k0 v0 d) (dict_set_nodup k0 v0 d Hd)) as [Hnd Hin].
      split; [exact Hnd|]. intros k. rewrite Hin, dict_set_keys.
      destruct (Dict.mem k0 d) eqn:Hmem.
      + apply dict_mem_keys in Hmem. split; [tauto|].
        intros [H|[<-|H]]; tauto.
      + rewrite in_app_iff. simpl. tauto. }
  destruct (H [] (List.NoDup_nil _)) as [Hnd Hin].
  split; [exact Hnd|]. intros k. rewrite Hin. simpl. tauto.
Qed.

Lemma extract_form_returns (E : Env) (html : string) (w w' : world)
      (root form : element) (action : string) (fields : Dict.t string) :
  html_fromstring E html = Some root ->
  List.find (has_tag "form") (descendants root) = Some form ->
  extract_form E html w = (Return (action, fields), w') ->
  Dict.get "action" (attrib form) = Some action
  /\ Forall (fun inp => name_value inp <> None) (findall "input" form)
  /\ fields = Dict.of_items (omap name_value (findall "input" form))
  /\ w' = w.
Proof.
  intros Hroot Hform. unfold extract_form.
  rewrite Hroot, find_descendant_spec, Hform. unfold attr.
  destruct (Dict.get "action" (attrib form)) as [a|]; [|discriminate].
  monad_simpl.
  destruct (forall_or_exists_missing (findall "input" form)) as [Hall|Hex].
  - rewrite (traverse_inputs_ok _ w Hall). intros [= -> <- <-]. now repeat split.
  - destruct (traverse_inputs_fail _ w Hex) as [k [-> _]]. discriminate.
Qed.

(** X12: in the mapping [extract_form] returns no name occurs twice, and
    its names are exactly the names of the input children of the first
    form. *)
Theorem extract_form_names (E : Env) (html : string) (w w' : world)
        (root form : element) (action : string) (fields : Dict.t string) :
  html_fromstring E html = Some root ->
  List.find (has_tag "form") (descendants root) = Some form ->
  extract_form E html w = (Return (action, fields), w') ->
  List.NoDup (map fst fields)
  /\ forall name,
      In name (map fst fields) <->
      In (Some name)
         (map (fun inp => Dict.get "name" (attrib inp)) (findall "input" form)).
Proof.
  intros Hroot Hform Hrun.
  destruct (extract_form_returns E html w w' root form action fields
              Hroot Hform Hrun) as [_ [Hall [-> _]]].
  destruct (dict_of_items_keys (omap name_value (findall "input" form)))
    as [Hnd Hin].
  split; [exact Hnd|]. intros name. rewrite Hin.
  clear -Hall. induction Hall as [|inp inputs Hinp _ IH]; simpl; [tauto|].
  unfold name_value in Hinp |- *.
  destruct (Dict.get "name" (attrib inp)) as [n|]; [|congruence].
  destruct (Dict.get "value" (attrib inp)) as [v|]; [|congruence].
  simpl. rewrite IH. split; intros [H|H]; auto; left; congruence.
Qed.

Lemma extract_form_names_witness :
  let E := Scenario.scripted [] in
  List.NoDup (map fst [("SAMLRequest", "abc"); ("RelayState", "two")])
  /\ (In "RelayState" (map fst [("SAMLRequest", "abc"); ("RelayState", "two")]) <->
      In (Some "RelayState")
         (map (fun inp => Dict.get "name" (attrib inp))
              (findall "input" Scenario.request_form))).
Proof.
  intros E.
  destruct (extract_form_names E "request-page" (initial_world E) (initial_world E)
              (Scenario.page Scenario.request_form) Scenario.request_form
              "https://idp.example/sso"
              [("SAMLRequest", "abc"); ("RelayState", "two")]
              eq_refl eq_refl eq_refl) as [Hnd Hin].
  split; [exact Hnd | apply Hin].
Defined.

Lemma traverse_inputs_pure (inputs : list element) :
  exists o, forall w, traverse input_item inputs w = (o, w).
Proof.
  induction inputs as [|inp inputs [o IH]].
  - exists (Return []). reflexivity.
  - destruct (name_value inp) as [nv|] eqn:Hnv; [destruct o as [l|e|s|]|];
      eexists; intros w; simpl; unfold bind;
      rewrite input_item_spec, Hnv, ?IH; reflexivity.
Qed.

Lemma extract_form_any_world (E : Env) (html : string) (w w' : world) :
  fst (extract_form E html w) = fst (extract_form E html w').
Proof.
  unfold extract_form.
  destruct (html_fromstring E html) as [root|]; [|reflexivity].
  destruct (find_descendant "form" root) as [form|]; [|reflexivity].
  unfold attr. destruct (Dict.get "action" (attrib form)); [|reflexivity].
  monad_simpl.
  destruct (traverse_inputs_pure (findall "input" form)) as [o Ho].
  rewrite (Ho w), (Ho w'). now destruct o.
Qed.

Lemma extract_form_at (E : Env) (html : string) (w w' : world)
      (res : string * Dict.t string) :
  fst (extract_form E html w) = Return res ->
  extract_form E html w' = (Return res, w').
Proof.
  intros H. rewrite (extract_form_any_world E html w w') in H.
  destruct (extract_form_cases E html w') as [[res' Hres]|[e He]].
  - rewrite Hres in *. simpl in H. congruence.
  - rewrite He in H. discriminate.
Qed.

Lemma fetch_ok (E : Env) (rq : request) (w : world) :
  http_error (server E (length (sent w))) = false ->
  (r <- send E rq ;; check r) w
  = (Return (server E (length (sent w))), set_sent (sent w ++ [rq]) w).
Proof.
  intros Hok. unfold bind. rewrite send_run. unfold check. now rewrite Hok.
Qed.

Lemma fetch_error (E : Env) (rq : request) (w : world) :
  http_error (server E (length (sent w))) = true ->
  (r <- send E rq ;; check r) w
  = (Raise (HTTPError (status_code (server E (length (sent w))))),
     set_sent (sent w ++ [rq]) w).
Proof.
  intros Hbad. unfold bind. rewrite send_run. unfold check. now rewrite Hbad.
Qed.

Lemma okta_auth_success_run (E : Env) (fuel : nat)
      (domain username password : string) (totp_key : option string)
      (r token : json) (w : world) :
  answers E (length (sent w)) r ->
  field r "status" = Some (JStr "SUCCESS") ->
  field r "sessionToken" = Some token ->
  okta_auth E fuel domain username password totp_key w
  = (Return token,
     set_sent (sent w ++ [primary_request E domain username password]) w).
Proof.
  intros Hr Hstatus Htoken. unfold okta_auth.
  rewrite (bind_return _ _ w _ r (post_json_ok E _ _ r w Hr)).
  set (w' := set_sent _ w).
  rewrite (bind_return _ _ w' w' _ (getitem_field _ _ _ w' Hstatus)).
  cbn [str_eq String.eqb Ascii.eqb Bool.eqb].
  rewrite (bind_return _ _ w' w' r) by reflexivity.
  rewrite (bind_return _ _ w' w' _ (getitem_field _ _ _ w' Hstatus)).
  cbn [str_eq]. rewrite String.eqb_refl. cbn [assert].
  rewrite (bind_return _ _ w' w' tt) by reflexivity.
  now apply getitem_field.
Qed.

(** X13: when the first GET of [okta_saml], the one that only sets a
    cookie, comes back with a status from 400 to 599, [okta_saml] raises
    [HTTPError] and that GET is its only request: the user name and the
    password are not sent. *)
Theorem okta_saml_cookie_failure (E : Env) (fuel : nat)
        (saml_req_url username password : string) (totp_key : option string)
        (w : world) :
  http_error (server E (length (sent w))) = true ->
  okta_saml E fuel saml_req_url username password totp_key w
  = (Raise (HTTPError (status_code (server E (length (sent w))))),
     set_sent (sent w ++ [cookie_request saml_req_url]) w)
  /\ req_data (cookie_request saml_req_url) = NoData.
Proof.
  intros Hbad. split; [|reflexivity].
  unfold okta_saml. apply bind_raise. now apply fetch_error.
Qed.

Lemma okta_saml_cookie_failure_witness :
  let E := Scenario.scripted [] in
  okta_saml E 1 "https://idp.example/sso" "alice" "pw" None (initial_world E)
  = (Raise (HTTPError 500),
     set_sent [cookie_request "https://idp.example/sso"] (initial_world E)).
Proof.
  intros E.
  apply (proj1 (okta_saml_cookie_failure E 1 "https://idp.example/sso"
                  "alice" "pw" None (initial_world E) eq_refl)).
Defined.

(** X14: the stages of a login without second factor compose: the URL
    [prelogin] returns is fetched, its network location is the domain of
    the primary authentication and of the redirect, the session token of
    the primary answer goes into the redirect together with that URL,
    the form of the redirect page is posted to its action, and the two
    headers of the last answer are the result; five requests are sent,
    in this order. *)
Theorem login_composes (E : Env) (fuel : nat)
        (gateway username password : string) (totp_key : option string)
        (saml_req_url : string) (r token : json)
        (action : string) (fields : Dict.t string)
        (saml_username prelogin_cookie : string) (w0 w1 : world) :
  let n := length (sent w1) in
  let domain := urlparse_netloc E saml_req_url in
  prelogin E gateway w0 = (Return saml_req_url, w1) ->
  http_error (server E n) = false ->
  answers E (S n) r ->
  field r "status" = Some (JStr "SUCCESS") ->
  field r "sessionToken" = Some token ->
  http_error (server E (S (S n))) = false ->
  fst (extract_form E (content (server E (S (S n)))) w0)
  = Return (action, fields) ->
  Dict.mem "SAMLResponse" fields = true ->
  http_error (server E (S (S (S n)))) = false ->
  headers (server E (S (S (S n)))) "saml-username" = Some saml_username ->
  headers (server E (S (S (S n)))) "prelogin-cookie" = Some prelogin_cookie ->
  main_session E fuel gateway username password totp_key w0
  = (Return (saml_username, prelogin_cookie),
     set_sent (sent w1
               ++ [cookie_request saml_req_url;
                   primary_request E domain username password;
                   redirect_request domain token saml_req_url;
                   form_request action fields]) w1).
Proof.
  intros n domain Hpre Hcookie Hr Hstatus Htoken Hredirect Hform Hmem
         Hlast Hu Hc.
  unfold main_session. rewrite (bind_return _ _ w0 w1 _ Hpre).
  set (w2 := set_sent (sent w1 ++ [cookie_request saml_req_url]) w1).
  set (w3 := set_sent (sent w2 ++ [primary_request E domain username password]) w2).
  set (w4 := set_sent (sent w3 ++ [redirect_request domain token saml_req_url]) w3).
  assert (L2 : length (sent w2) = S n)
    by (subst w2 n; simpl; rewrite length_app; simpl; lia).
  assert (L3 : length (sent w3) = S (S n))
    by (subst w3 w2 n; simpl; rewrite !length_app; simpl; lia).
  assert (L4 : length (sent w4) = S (S (S n)))
    by (subst w4 w3 w2 n; simpl; rewrite !length_app; simpl; lia).
  assert (Hokta : okta_saml E fuel saml_req_url username password totp_key w1
                  = (Return (action, fields), w4)).
  { unfold okta_saml. fold domain.
    rewrite (bind_return _ _ w1 w2 _ (fetch_ok E _ w1 Hcookie)).
    rewrite (bind_return _ _ w2 w3 token).
    2:{ apply okta_auth_success_run with (r := r); [now rewrite L2 | | ]; assumption. }
    fold (redirect_request domain token saml_req_url).
    rewrite (bind_return _ _ w3 w4 (server E (S (S n)))).
    2:{ rewrite <- L3. apply fetch_ok. now rewrite L3. }
    rewrite (bind_return _ _ w4 w4 _ (extract_form_at E _ w0 w4 _ Hform)).
    cbn [fst snd]. rewrite Hmem. cbn [assert].
    now rewrite (bind_return _ _ w4 w4 tt) by reflexivity. }
  rewrite (bind_return _ _ w1 w4 _ Hokta). cbn [fst snd].
  unfold complete_saml. fold (form_request action fields).
  rewrite (bind_return _ _ w4 (set_sent (sent w4 ++ [form_request action fields]) w4)
             (server E (S (S (S n))))).
  2:{ rewrite <- L4. apply fetch_ok. now rewrite L4. }
  unfold header. rewrite Hu, Hc. monad_simpl.
  subst w4 w3 w2. unfold set_sent. cbn [sent clock os_log sigmask sigterm_handler
    sigterm_pending returncode]. now rewrite <- !app_assoc.
Qed.

Lemma login_composes_witness :
  let E := Scenario.scripted (Scenario.login_script Scenario.completed) in
  let url := "https://idp.example/sso?SAMLRequest=abc&RelayState=two" in
  main_session E 1 "vpn.example" "alice" "pw" None (initial_world E)
  = (Return ("alice", "cookie123"),
     set_sent [prelogin_request "vpn.example";
               cookie_request url;
               primary_request E "idp.example" "alice" "pw";
               redirect_request "idp.example" (JStr "T") url;
               form_request "https://vpn.example/SAML20/SP/ACS"
                            [("SAMLResponse", "xyz")]]
              (initial_world E)).
Proof.
  intros E url.
  apply (login_composes E 1 "vpn.example" "alice" "pw" None url
           (Scenario.success "T") (JStr "T")
           "https://vpn.example/SAML20/SP/ACS" [("SAMLResponse", "xyz")]
           "alice" "cookie123" (initial_world E)
           (set_sent [prelogin_request "vpn.example"] (initial_world E))).
  - reflexivity.
  - reflexivity.
  - split; reflexivity.
  - reflexivity.
  - reflexivity.
  - reflexivity.
  - reflexivity.
  - reflexivity.
  - reflexivity.
  - reflexivity.
  - reflexivity.
Defined.

(** X15: with a status from 400 to 599 [complete_saml] raises
    [HTTPError] whatever the headers are; otherwise a missing
    [saml-username] raises [KeyError] for that name, also when
    [prelogin-cookie] is missing too, and a missing [prelogin-cookie]
    raises [KeyError] for it when [saml-username] is there.  The form
    has been posted in each case. *)
Theorem complete_saml_failures (E : Env) (url : string) (data : Dict.t string)
        (w : world) :
  let r := server E (length (sent w)) in
  let w' := set_sent (sent w ++ [form_request url data]) w in
  (http_error r = true ->
   complete_saml E url data w = (Raise (HTTPError (status_code r)), w'))
  /\ (http_error r = false ->
      (headers r "saml-username" = None ->
       complete_saml E url data w = (Raise (KeyError "saml-username"), w'))
      /\ (forall u,
             headers r "saml-username" = Some u ->
             headers r "prelogin-cookie" = None ->
             complete_saml E url data w
             = (Raise (KeyError "prelogin-cookie"), w'))).
Proof.
  intros r w'. unfold complete_saml. fold (form_request url data). split.
  - intros Hbad. apply bind_raise. now apply fetch_error.
  - intros Hok. rewrite (bind_return _ _ w w' r (fetch_ok E _ w Hok)).
    unfold header. split.
    + now intros ->.
    + now intros u -> ->.
Qed.

Lemma complete_saml_failures_witness :
  let E := Scenario.scripted [Scenario.no_cookie] in
  complete_saml E "https://vpn.example/SAML20/SP/ACS" [("SAMLResponse", "xyz")]
                (initial_world E)
  = (Raise (KeyError "prelogin-cookie"),
     set_sent [form_request "https://vpn.example/SAML20/SP/ACS"
                            [("SAMLResponse", "xyz")]]
              (initial_world E)).
Proof.
  intros E.
  destruct (complete_saml_failures E "https://vpn.example/SAML20/SP/ACS"
              [("SAMLResponse", "xyz")] (initial_world E)) as [_ H].
  destruct (H eq_refl) as [_ Hcookie].
  now apply (Hcookie "alice").
Defined.



(** X21: once [okta_auth] has returned a session token, [okta_saml]
    sends one more request, the GET of the session-cookie redirect with
    the token and the SAML request URL as parameters; a status from 400
    to 599 raises [HTTPError], a page whose form has no [SAMLResponse]
    field raises [AssertionError], and otherwise the action and the
    fields of that form are returned unchanged. *)
Theorem okta_saml_redirect (E : Env) (fuel : nat)
        (saml_req_url username password : string) (totp_key : option string)
        (token : json) (w w3 : world) :
  let domain := urlparse_netloc E saml_req_url in
  let w2 := set_sent (sent w ++ [cookie_request saml_req_url]) w in
  let r := server E (length (sent w3)) in
  let w4 := set_sent (sent w3 ++ [redirect_request domain token saml_req_url]) w3 in
  http_error (server E (length (sent w))) = false ->
  okta_auth E fuel domain username password totp_key w2 = (Return token, w3) ->
  (http_error r = true ->
   okta_saml E fuel saml_req_url username password totp_key w
   = (Raise (HTTPError (status_code r)), w4))
  /\ (http_error r = false ->
      forall action fields,
        fst (extract_form E (content r) w) = Return (action, fields) ->
        (Dict.mem "SAMLResponse" fields = false ->
         okta_saml E fuel saml_req_url username password totp_key w
         = (Raise AssertionError, w4))
        /\ (Dict.mem "SAMLResponse" fields = true ->
            okta_saml E fuel saml_req_url username password totp_key w
            = (Return (action, fields), w4))).
Proof.
  intros domain w2 r w4 Hcookie Hauth.
  assert (Hrun :
             okta_saml E fuel saml_req_url username password totp_key w =
             (x <- (r0 <- send E (redirect_request domain token saml_req_url) ;;
                    check r0) ;;
              form <- extract_form E (content x) ;;
              assert (Dict.mem "SAMLResponse" (snd form)) ;;;
              ret (fst form, snd form)) w3).
  { unfold okta_saml. fold domain.
    rewrite (bind_return _ _ w w2 _ (fetch_ok E _ w Hcookie)).
    now rewrite (bind_return _ _ w2 w3 _ Hauth). }
  rewrite Hrun. split.
  - intros Hbad. apply bind_raise. now apply fetch_error.
  - intros Hok action fields Hform.
    rewrite (bind_return _ _ w3 w4 r (fetch_ok E _ w3 Hok)).
    rewrite (bind_return _ _ w4 w4 _ (extract_form_at E _ w w4 _ Hform)).
    cbn [fst snd]. split; now intros ->.
Qed.

Lemma okta_saml_redirect_witness :
  let E := Scenario.scripted
             [Scenario.ok ""; Scenario.ok "success"; Scenario.ok "request-page"] in
  okta_saml E 1 "https://idp.example/sso" "alice" "pw" None (initial_world E)
  = (Raise AssertionError,
     set_sent [cookie_request "https://idp.example/sso";
               primary_request E "idp.example" "alice" "pw";
               redirect_request "idp.example" (JStr "T") "https://idp.example/sso"]
              (initial_world E)).
Proof.
  intros E.
  destruct (okta_saml_redirect E 1 "https://idp.example/sso" "alice" "pw" None
              (JStr "T") (initial_world E)
              (set_sent [cookie_request "https://idp.example/sso";
                         primary_request E "idp.example" "alice" "pw"]
                        (initial_world E)) eq_refl eq_refl) as [_ H].
  destruct (H eq_refl "https://idp.example/sso"
              [("SAMLRequest", "abc"); ("RelayState", "two")] eq_refl)
    as [Hfail _].
  exact (Hfail eq_refl).
Defined.

(* ===================================================================== *)
(** ** Further properties: the supervisor *)
(* ===================================================================== *)

Lemma finally_return {A} (body : M A) (cleanup : M unit) (w w1 w2 : world) (a : A) :
  body w = (Return a, w1) ->
  cleanup w1 = (Return tt, w2) ->
  finally body cleanup w = (Return a, w2).
Proof. intros Hb Hc. unfold finally, bind. now rewrite Hb, Hc. Qed.

Lemma finally_cleanup_killed {A} (body : M A) (cleanup : M unit)
      (w w1 w2 : world) (a : A) (s : nat) :
  body w = (Return a, w1) ->
  cleanup w1 = (Killed s, w2) ->
  finally body cleanup w = (Killed s, w2).
Proof. intros Hb Hc. unfold finally, bind. now rewrite Hb, Hc. Qed.

Lemma ends_of_unless_killed {A} (m : M A) (w : world) (Q : A -> world -> Prop)
      (R : exn -> world -> Prop) :
  unless_killed m w Q -> ends m w Q R.
Proof.
  unfold unless_killed, ends. now destruct (m w) as [[a|e|s|] w'].
Qed.

Lemma ends_bind {A B} (m : M A) (k : A -> M B) (w : world)
      (Q : B -> world -> Prop) (R : exn -> world -> Prop) :
  ends m w (fun a w' => ends (k a) w' Q R) R -> ends (bind m k) w Q R.
Proof.
  unfold ends, bind. now destruct (m w) as [[a|e|s|] w'].
Qed.

Lemma ends_finally {A} (body : M A) (cleanup : M unit) (w : world)
      (Q : A -> world -> Prop) (R : exn -> world -> Prop) :
  ends body w
       (fun a w' => ends cleanup w' (fun _ w'' => Q a w'') R)
       (fun e w' => ends cleanup w' (fun _ w'' => R e w'') R) ->
  ends (finally body cleanup) w Q R.
Proof.
  unfold ends, finally, bind, ret, raise.
  destruct (body w) as [[a|e|s|] w']; try easy.
  - now destruct (cleanup w') as [[[]|e|s|] w''].
  - now destruct (cleanup w') as [[[]|e'|s|] w''].
Qed.

Lemma ends_ret {A} (a : A) (w : world) (Q : A -> world -> Prop)
      (R : exn -> world -> Prop) :
  Q a w -> ends (ret a) w Q R.
Proof. exact (fun H => H). Qed.

Section SupervisorExits.
Variable E : Env.

(** X17: unless a signal kills the parent, the supervised region of
    [main] ends with the signal mask and the SIGTERM handler the parent
    had before it, with the child waited for, and without having sent a
    request. *)
Theorem supervisor_restores_signals (args : list string) (data : string)
        (w : world) :
  unless_killed
    (popen_forward_sigterm E args true (fun p => stdin_write E p data)) w
    (fun _ w' =>
       sigmask w' = sigmask w
       /\ sigterm_handler w' = sigterm_handler w
       /\ sent w' = sent w
       /\ exists n, returncode w' = Some (child_returncode E n)).
Proof.
  pose proof (supervised_region E args data (sent w) (syscalls (os_log w))
                (sigmask w) (sigterm_handler w) (returncode w) w) as H.
  unfold unless_killed in *.
  destruct (popen_forward_sigterm E args true _ w) as [[[]|e|s|] w'];
    try (apply H; now repeat split).
  destruct H as [n (Hs & _ & Hm & Hh & Hr)]; [now repeat split|].
  repeat split; try assumption. now exists n.
Qed.

(** X18: when the body of the [with] block raises, the close of the
    child's input and the [waitid] of the generator are skipped, but
    every context manager still unwinds: unless a signal kills the
    parent, the exception comes out of the region, SIGTERM has been
    blocked again, the old handler and then the old mask are back, and
    the child has been waited for. *)
Theorem supervisor_unwinds_on_exception {A} (args : list string) (stdin : bool)
        (body : popen -> M A) (e : exn) (w : world) :
  (forall p w0, body p w0 = (Raise e, w0)) ->
  ends (popen_forward_sigterm E args stdin body) w
       (fun _ _ => False)
       (fun e' w' =>
          e' = e
          /\ exists n,
              os_state (sent w)
                       (syscalls (os_log w)
                        ++ aborted_calls args stdin (sigmask w) (sigterm_handler w))
                       (sigmask w) (sigterm_handler w)
                       (Some (child_returncode E n)) w').
Proof.
  intros Hbody.
  assert (Hst : os_state (sent w) (syscalls (os_log w)) (sigmask w)
                         (sigterm_handler w) (returncode w) w)
    by now repeat split.
  set (R := fun (e' : exn) (w' : world) => _).
  unfold popen_forward_sigterm. unfold signal_mask at 1.
  apply ends_bind, ends_of_unless_killed.
  eapply uk_pthread_sigmask; [exact Hst|]. intros w1 H1.
  apply ends_finally. unfold with_popen.
  apply ends_bind, ends_of_unless_killed.
  eapply uk_os_action; [reflexivity | exact H1|]. intros w2 H2.
  apply ends_finally. unfold signal_handler.
  apply ends_bind, ends_of_unless_killed.
  eapply uk_signal_signal; [exact H2|]. intros w3 H3.
  apply ends_finally. unfold signal_mask.
  apply ends_bind, ends_of_unless_killed.
  eapply uk_pthread_sigmask; [exact H3|]. intros w4 H4.
  apply ends_finally. apply ends_bind.
  unfold ends at 1. rewrite Hbody.
  apply ends_bind, ends_of_unless_killed.
  eapply uk_pthread_sigmask; [exact H4|]. intros w5 H5. apply ends_ret.
  apply ends_bind, ends_of_unless_killed.
  eapply uk_signal_signal; [exact H5|]. intros w6 H6. apply ends_ret.
  apply ends_of_unless_killed.
  eapply uk_popen_exit; [exact H6|]. intros w7 n H7.
  apply ends_bind, ends_of_unless_killed.
  eapply uk_pthread_sigmask; [exact H7|]. intros w8 H8. apply ends_ret.
  subst R. cbv beta. split; [reflexivity|]. exists n.
  unfold aborted_calls. rewrite <- !app_assoc in H8. exact H8.
Qed.

End SupervisorExits.

Lemma supervisor_unwinds_on_exception_witness :
  let E' := Scenario.scripted [] in
  let w := initial_world E' in
  ends (popen_forward_sigterm E' ["openconnect"] false
          (fun _ => @raise unit ValueError)) w
       (fun _ _ => False)
       (fun e' w' =>
          e' = ValueError
          /\ exists n,
              os_state (sent w)
                       (syscalls (os_log w)
                        ++ aborted_calls ["openconnect"] false (sigmask w)
                                         (sigterm_handler w))
                       (sigmask w) (sigterm_handler w)
                       (Some (child_returncode E' n)) w').
Proof.
  intros E' w.
  apply (supervisor_unwinds_on_exception E' ["openconnect"] false
           (fun _ => @raise unit ValueError) ValueError w).
  intros p w0. reflexivity.
Defined.

Section SupervisorTrace.
Variable E : Env.

(** A system-level action while SIGTERM is unblocked and forwarded: a
    SIGTERM generated before it is handed to the child first. *)
Lemma os_action_forwarding (ev : os_event) (w : world) :
  SIGTERM ∉ sigmask w ->
  sigterm_handler w = ForwardTerminate ->
  os_action E ev w =
  (Return tt,
   World (sent w) (S (clock w))
         (os_log w ++ forwarded (sigterm_before E (clock w)) ++ [ev])
         (sigmask w) ForwardTerminate (sigterm_pending w) (returncode w)).
Proof.
  intros Hopen Hh. unfold os_action, bind.
  destruct (sigterm_before E (clock w)).
  - unfold arrive. simpl sigmask.
    destruct (decide (SIGTERM ∈ sigmask w)) as [Hin|_]; [contradiction|].
    unfold deliver. simpl. rewrite Hh. simpl.
    unfold set_os_log, set_clock. simpl. now rewrite Hh, <- app_assoc.
  - simpl. unfold set_os_log, set_clock. simpl. now rewrite Hh.
Qed.

(** The region up to the body of the [with] block, when no SIGTERM is
    generated before the block call. *)
Lemma supervisor_prologue {A} (args : list string) (stdin : bool)
      (body : popen -> M A) (w : world) :
  sigterm_before E (clock w) = false ->
  let window := sigterm_pending w
                || sigterm_before E (1 + clock w)
                || sigterm_before E (2 + clock w)
                || sigterm_before E (3 + clock w) in
  let delivered := window && bool_decide (SIGTERM ∉ sigmask w) in
  popen_forward_sigterm E args stdin body w =
  finally
    (finally
       (finally
          (finally
             (a <- body (Popen stdin) ;;
              (if popen_stdin (Popen stdin) then stdin_close E else ret tt) ;;;
              os_waitid E ;;; ret a)
             (pthread_sigmask E SIG_SETMASK (sigmask w ∪ {[SIGTERM]}) ;;; ret tt))
          (signal_signal E SIGTERM (sigterm_handler w) ;;; ret tt))
       (os_action E EvPopenExit ;;;
        (fun w0 => (Return tt,
                    set_returncode
                      (Some (child_returncode E (terminate_requests w0))) w0))))
    (pthread_sigmask E SIG_SETMASK (sigmask w) ;;; ret tt)
    (World (sent w) (4 + clock w)
           (os_log w
            ++ [EvSigmask SIG_BLOCK {[SIGTERM]};
                EvPopen args stdin (sigmask w);
                EvSignal SIGTERM ForwardTerminate;
                EvSigmask SIG_SETMASK (sigmask w)]
            ++ forwarded delivered)
           (sigmask w) ForwardTerminate
           (if delivered then false else window) (returncode w)).
Proof.
  intros Hquiet window delivered.
  unfold popen_forward_sigterm. unfold signal_mask at 1.
  rewrite (bind_return _ _ _ _ _ (block_sigterm E w Hquiet)).
  set (w1 := World _ _ _ _ _ _ _).
  assert (Hb1 : SIGTERM ∈ sigmask w1) by (subst w1; simpl; set_solver).
  unfold with_popen.
  erewrite finally_ext;
    [|apply bind_return; apply (os_action_blocked E _ w1 Hb1)].
  set (w2 := World _ _ _ _ _ _ _).
  assert (Hb2 : SIGTERM ∈ sigmask w2) by exact Hb1.
  unfold signal_handler.
  erewrite finally_ext;
    [|apply finally_ext; apply bind_return;
      apply (install_handler_blocked E _ w2 Hb2)].
  set (w3 := World _ _ _ _ _ _ _).
  assert (Hb3 : SIGTERM ∈ sigmask w3) by exact Hb1.
  unfold signal_mask.
  erewrite finally_ext;
    [|apply finally_ext; apply finally_ext; apply bind_return;
      apply (unblock_forwarding E (sigmask w) w3 Hb3 eq_refl)].
  cbv zeta. subst w3 w2 w1.
  cbn [sent clock os_log sigmask sigterm_handler sigterm_pending returncode].
  fold window. fold delivered.
  do 4 apply finally_ext. f_equal. f_equal. unfold forwarded.
  rewrite <- !app_assoc. reflexivity.
Qed.

(** The body of [main]'s [with] block and the restore of the blocked
    mask after it, while SIGTERM is forwarded. *)
Lemma supervised_body_run (data : string) (blocked : gset nat) (w : world) :
  SIGTERM ∉ sigmask w ->
  sigterm_handler w = ForwardTerminate ->
  sigterm_pending w = false ->
  SIGTERM ∈ blocked ->
  finally
    (a <- stdin_write E (Popen true) data ;;
     (if popen_stdin (Popen true) then stdin_close E else ret tt) ;;;
     os_waitid E ;;; ret a)
    (pthread_sigmask E SIG_SETMASK blocked ;;; ret tt) w
  = (Return tt,
     World (sent w) (4 + clock w)
           (os_log w
            ++ forwarded (sigterm_before E (clock w)) ++ [EvStdinWrite data]
            ++ forwarded (sigterm_before E (1 + clock w)) ++ [EvStdinClose]
            ++ forwarded (sigterm_before E (2 + clock w)) ++ [EvWaitid]
            ++ forwarded (sigterm_before E (3 + clock w))
            ++ [EvSigmask SIG_SETMASK blocked])
           blocked ForwardTerminate false (returncode w)).
Proof.
  intros Hopen Hh Hpending Hblocked.
  set (w1 := World (sent w) (S (clock w))
                   (os_log w ++ forwarded (sigterm_before E (clock w))
                    ++ [EvStdinWrite data])
                   (sigmask w) ForwardTerminate (sigterm_pending w) (returncode w)).
  set (w2 := World (sent w1) (S (clock w1))
                   (os_log w1 ++ forwarded (sigterm_before E (clock w1))
                    ++ [EvStdinClose])
                   (sigmask w1) ForwardTerminate (sigterm_pending w1) (returncode w1)).
  set (w3 := World (sent w2) (S (clock w2))
                   (os_log w2 ++ forwarded (sigterm_before E (clock w2))
                    ++ [EvWaitid])
                   (sigmask w2) ForwardTerminate (sigterm_pending w2) (returncode w2)).
  eapply (finally_return _ _ w w3).
  - unfold stdin_write, stdin_close, os_waitid. cbn [popen_stdin].
    rewrite (bind_return _ _ w w1 tt (os_action_forwarding _ w Hopen Hh)).
    rewrite (bind_return _ _ w1 w2 tt (os_action_forwarding _ w1 Hopen eq_refl)).
    rewrite (bind_return _ _ w2 w3 tt (os_action_forwarding _ w2 Hopen eq_refl)).
    reflexivity.
  - assert (Hmask : pthread_sigmask E SIG_SETMASK blocked w3 =
                    (Return (sigmask w3),
                     World (sent w) (4 + clock w)
                       (os_log w
                        ++ forwarded (sigterm_before E (clock w))
                        ++ [EvStdinWrite data]
                        ++ forwarded (sigterm_before E (1 + clock w))
                        ++ [EvStdinClose]
                        ++ forwarded (sigterm_before E (2 + clock w))
                        ++ [EvWaitid]
                        ++ forwarded (sigterm_before E (3 + clock w))
                        ++ [EvSigmask SIG_SETMASK blocked])
                       blocked ForwardTerminate false (returncode w))).
    { unfold pthread_sigmask.
      rewrite (bind_return _ _ _ _ tt (os_action_forwarding _ w3 Hopen eq_refl)).
      subst w3 w2 w1.
      cbn [sigterm_pending sigmask sent clock os_log returncode].
      rewrite Hpending. cbn [andb]. unfold set_sigmask.
      cbn [sigterm_pending sigmask sent clock os_log returncode sigterm_handler].
      f_equal. f_equal. rewrite <- !app_assoc. reflexivity. }
    now rewrite (bind_return _ _ _ _ _ Hmask).
Qed.

(** X19: when no SIGTERM is generated before the block call and the
    original mask leaves SIGTERM unblocked, every SIGTERM generated from
    the spawn to the end of the [waitid] is handed to the child as a
    terminate request before the parent's next system call, and the
    parent goes on: the log has the writes, the close and the [waitid]
    of the region, each preceded by the forwarding of a signal generated
    before it. *)
Theorem sigterm_forwarded_while_child_runs (args : list string) (data : string)
        (w : world) :
  sigterm_before E (clock w) = false ->
  SIGTERM ∉ sigmask w ->
  exists tail,
    os_log (snd (popen_forward_sigterm E args true
                   (fun p => stdin_write E p data) w))
    = os_log w
      ++ [EvSigmask SIG_BLOCK {[SIGTERM]};
          EvPopen args true (sigmask w);
          EvSignal SIGTERM ForwardTerminate;
          EvSigmask SIG_SETMASK (sigmask w)]
      ++ forwarded (sigterm_pending w
                    || sigterm_before E (1 + clock w)
                    || sigterm_before E (2 + clock w)
                    || sigterm_before E (3 + clock w))
      ++ forwarded (sigterm_before E (4 + clock w)) ++ [EvStdinWrite data]
      ++ forwarded (sigterm_before E (5 + clock w)) ++ [EvStdinClose]
      ++ forwarded (sigterm_before E (6 + clock w)) ++ [EvWaitid]
      ++ forwarded (sigterm_before E (7 + clock w))
      ++ [EvSigmask SIG_SETMASK (sigmask w ∪ {[SIGTERM]})]
      ++ tail.
Proof.
  intros Hquiet Hopen.
  rewrite (supervisor_prologue args true _ w Hquiet). cbv zeta.
  rewrite (bool_decide_eq_true_2 _ Hopen), andb_true_r.
  set (window := sigterm_pending w || _ || _ || _).
  set (w4 := World _ _ _ _ _ _ _).
  assert (Hinner := supervised_body_run data (sigmask w ∪ {[SIGTERM]}) w4 Hopen
                      eq_refl ltac:(subst w4; simpl; now destruct window)
                      ltac:(set_solver)).
  rewrite (finally_ext _ _ _ _ _
             (finally_ext _ _ _ _ _ (finally_ext _ _ _ _ _ Hinner))).
  set (w8 := World _ _ _ _ _ _ _).
  destruct (appends_finally _ _
              (appends_finally _ _
                 (appends_finally _ _ (appends_ret tt)
                    (appends_restore_handler E SIGTERM (sigterm_handler w)))
                 (appends_popen_exit E))
              (appends_restore_mask E (sigmask w)) w8) as [tail Htail].
  exists tail.
  etransitivity; [exact Htail|].
  subst w8 w4. cbn [os_log clock]. rewrite <- !app_assoc. reflexivity.
Qed.

(** The last mask restore with the default disposition: a pending
    SIGTERM that it unblocks kills the parent. *)
Lemma unblock_default (mask : gset nat) (w : world) :
  SIGTERM ∈ sigmask w ->
  sigterm_handler w = SIG_DFL ->
  SIGTERM ∉ mask ->
  sigterm_pending w || sigterm_before E (clock w) = true ->
  pthread_sigmask E SIG_SETMASK mask w =
  (Killed SIGTERM,
   World (sent w) (S (clock w))
         (os_log w ++ [EvSigmask SIG_SETMASK mask; EvDelivered SIG_DFL])
         mask SIG_DFL false (returncode w)).
Proof.
  intros Hblocked Hh Hopen Hpending. unfold pthread_sigmask.
  rewrite (bind_return _ _ _ _ _ (os_action_blocked E _ w Hblocked)).
  cbn [sigmask sigterm_pending].
  rewrite Hpending, (bool_decide_eq_true_2 _ Hopen). cbn [andb].
  unfold bind, deliver, set_sigterm_pending, set_sigmask, set_os_log. simpl.
  rewrite Hh. now rewrite <- app_assoc.
Qed.

(** X20: when the original disposition of SIGTERM is the default one and
    the original mask leaves it unblocked, a SIGTERM generated after the
    region has blocked SIGTERM again (while the old handler is put back
    or the child is waited for) is delivered when the last mask restore
    unblocks it, and kills the parent: every system call of the region
    has been made and the child has been waited for, but the region does
    not return, so [main] does not reach [sys.exit]. *)
Theorem late_sigterm_kills_parent (args : list string) (data : string)
        (w : world) :
  (forall i, (i < 8)%nat -> sigterm_before E (i + clock w) = false) ->
  sigterm_pending w = false ->
  SIGTERM ∉ sigmask w ->
  sigterm_handler w = SIG_DFL ->
  sigterm_before E (8 + clock w)
  || sigterm_before E (9 + clock w)
  || sigterm_before E (10 + clock w) = true ->
  exists w',
    popen_forward_sigterm E args true (fun p => stdin_write E p data) w
    = (Killed SIGTERM, w')
    /\ os_log w' = os_log w
                   ++ supervised_calls args data (sigmask w) SIG_DFL
                   ++ [EvDelivered SIG_DFL]
    /\ returncode w' = Some (child_returncode E (terminate_requests w)).
Proof.
  intros Hquiet Hpending Hopen Hh Hlate.
  rewrite (supervisor_prologue args true _ w (Hquiet 0%nat ltac:(lia))). cbv zeta.
  rewrite Hpending, (Hquiet 1%nat ltac:(lia)), (Hquiet 2%nat ltac:(lia)),
    (Hquiet 3%nat ltac:(lia)). cbn [orb andb forwarded]. rewrite app_nil_r.
  set (w4 := World _ _ _ _ _ _ _).
  assert (Hinner := supervised_body_run data (sigmask w ∪ {[SIGTERM]}) w4 Hopen
                      eq_refl eq_refl ltac:(set_solver)).
  subst w4. cbn [sent clock os_log returncode] in Hinner.
  replace (4 + clock w)%nat with (4 + clock w)%nat in Hinner by reflexivity.
  change (1 + (4 + clock w))%nat with (5 + clock w)%nat in Hinner.
  change (2 + (4 + clock w))%nat with (6 + clock w)%nat in Hinner.
  change (3 + (4 + clock w))%nat with (7 + clock w)%nat in Hinner.
  change (4 + (4 + clock w))%nat with (8 + clock w)%nat in Hinner.
  rewrite (Hquiet 4%nat ltac:(lia)), (Hquiet 5%nat ltac:(lia)),
    (Hquiet 6%nat ltac:(lia)), (Hquiet 7%nat ltac:(lia)) in Hinner.
  cbn [forwarded app] in Hinner.
  set (w8 := World _ (8 + clock w)%nat _ _ _ _ _) in Hinner.
  assert (Hb8 : SIGTERM ∈ sigmask w8) by (subst w8; simpl; set_solver).
  pose proof (install_handler_blocked E (sigterm_handler w) w8 Hb8) as H9.
  set (w9 := World _ _ _ _ _ _ _) in H9.
  assert (Hb9 : SIGTERM ∈ sigmask w9) by exact Hb8.
  pose proof (os_action_blocked E EvPopenExit w9 Hb9) as H10.
  set (w10 := World _ _ _ _ _ _ _) in H10.
  set (w10' := set_returncode (Some (child_returncode E (terminate_requests w10))) w10).
  assert (Hb10 : SIGTERM ∈ sigmask w10') by exact Hb8.
  assert (Hh10 : sigterm_handler w10' = SIG_DFL) by exact Hh.
  assert (Hp10 : sigterm_pending w10' || sigterm_before E (clock w10') = true)
    by exact Hlate.
  pose proof (unblock_default (sigmask w) w10' Hb10 Hh10 Hopen Hp10) as H11.
  set (w11 := World _ _ _ _ _ _ _) in H11.
  exists w11. split; [|split].
  - eapply finally_cleanup_killed with (a := tt) (w1 := w10').
    + eapply finally_return with (w1 := w9).
      * eapply finally_return with (w1 := w8); [exact Hinner|].
        now rewrite (bind_return _ _ _ _ _ H9).
      * now rewrite (bind_return _ _ _ _ _ H10).
    + unfold bind. now rewrite H11.
  - subst w11 w10' w10 w9 w8. cbn [os_log set_returncode]. rewrite Hh.
    unfold supervised_calls. rewrite <- !app_assoc. reflexivity.
  - subst w11 w10' w10 w9 w8. cbn [returncode set_returncode]. f_equal. f_equal.
    unfold terminate_requests. cbn [os_log]. rewrite !List.filter_app. simpl.
    now rewrite !app_nil_r.
Qed.
End SupervisorTrace.

Lemma sigterm_forwarded_while_child_runs_witness :
  let E := Scenario.with_signals [5%nat] in
  exists tail,
    os_log (snd (popen_forward_sigterm E ["openconnect"] true
                   (fun p => stdin_write E p "cookie123") (initial_world E)))
    = [EvSigmask SIG_BLOCK {[SIGTERM]};
       EvPopen ["openconnect"] true ∅;
       EvSignal SIGTERM ForwardTerminate;
       EvSigmask SIG_SETMASK ∅;
       EvStdinWrite "cookie123";
       EvDelivered ForwardTerminate;
       EvStdinClose;
       EvWaitid;
       EvSigmask SIG_SETMASK (∅ ∪ {[SIGTERM]})] ++ tail.
Proof.
  intros E.
  destruct (sigterm_forwarded_while_child_runs E ["openconnect"] "cookie123"
              (initial_world E) eq_refl ltac:(set_solver)) as [tail Htail].
  exists tail. exact Htail.
Defined.

Lemma late_sigterm_kills_parent_witness :
  let E := Scenario.with_signals [9%nat] in
  exists w',
    popen_forward_sigterm E ["openconnect"] true
      (fun p => stdin_write E p "cookie123") (initial_world E)
    = (Killed SIGTERM, w')
    /\ os_log w' = supervised_calls ["openconnect"] "cookie123" ∅ SIG_DFL
                   ++ [EvDelivered SIG_DFL]
    /\ returncode w' = Some 0.
Proof.
  intros E.
  destruct (late_sigterm_kills_parent E ["openconnect"] "cookie123"
              (initial_world E)) as [w' [Hrun [Hlog Hrc]]].
  - intros i Hi. do 8 (destruct i as [|i]; [reflexivity|]). lia.
  - reflexivity.
  - set_solver.
  - reflexivity.
  - reflexivity.
  - exists w'. split; [exact Hrun|]. split; [exact Hlog | exact Hrc].
Defined.
